(** * Verification of the code allocator and thread-control core of frida-gum

    Shallow embedding of [gum/gumcodeallocator.c] and of the thread
    modification protocol of [gum/backend-linux/gumprocess-linux.c], and of
    further parts of that file: module paths, the CPU type of a file and of
    a process, the line reader of /proc/<pid>/maps, the range of an ELF
    image and the saved context of the x86-64 build.

    Conventions.
    - Machine integers are [Z] with the wrap-around of the 64-bit build
      written out ([gsize_of], [gssize_of]).
    - Raw addresses ([gpointer] into code pages and images) are [Z], with
      [0] for the null address.  Heap objects that the C code reaches through
      typed pointers ([GumCodePages *], [GumCodeDeflector *], ...) live in
      finite maps keyed by handles; a typed pointer is [NULL] or [Ptr h].
    - Operating-system services that are not part of the two files are the
      fields of an interface ([GumMemory], [Kernel]) and every theorem is
      stated for an arbitrary implementation of it. *)

From Stdlib Require Import ZArith Lia Bool List.
From stdpp Require Import gmap list.
Import ListNotations.

Local Open Scope Z_scope.

(** ** Machine arithmetic (GLIB_SIZEOF_VOID_P == 8) *)

Module Mach.

Definition word_bits : Z := 64.
Definition modulus : Z := 2 ^ word_bits.
Definition half_modulus : Z := 2 ^ (word_bits - 1).

(** Conversion to [gsize] (unsigned, wraps). *)
Definition gsize_of (z : Z) : Z := z mod modulus.

(** Conversion to [gssize] (signed two's complement, wraps). *)
Definition gssize_of (z : Z) : Z := (z + half_modulus) mod modulus - half_modulus.

(** GLib's [ABS(a)] is [(((a) < 0) ? -(a) : (a))], here at type [gssize]. *)
Definition ABS (a : Z) : Z := if a <? 0 then gssize_of (- a) else a.

End Mach.

Import Mach.

(** ** Typed pointers and outcomes *)

Inductive pointer (A : Type) : Type :=
| NULL : pointer A
| Ptr (target : A) : pointer A.
Arguments NULL {A}.
Arguments Ptr {A} target.

(** What a call can do besides returning: stop the process ([g_assert],
    allocation failure inside GLib or [gum_alloc_n_pages]) or read through a
    null or dangling pointer or divide by zero, which C leaves undefined.
    [Unfinished] is not
    a behaviour of the program: it marks a run of the model cut off by the
    depth bound of a recursion that the C code leaves unbounded. *)
Inductive outcome (A : Type) : Type :=
| Returns (a : A)
| Aborts
| Faults
| Unfinished.
Arguments Returns {A} a.
Arguments Aborts {A}.
Arguments Faults {A}.
Arguments Unfinished {A}.

(** ** Data model of gumcodeallocator.c *)

Inductive GumPageProtection := GUM_PAGE_RW | GUM_PAGE_RX | GUM_PAGE_RWX.

Record GumAddressSpec := {
  near_address : Z;
  max_distance : Z
}.

Record GumMemoryRange := {
  base_address : Z;
  range_size : Z
}.

Record GumCodeSlice := {
  slice_data : Z;
  slice_size_of : Z
}.

Record GumCodeSegment := {
  segment_address : Z;
  segment_virtual_size : Z
}.

(** A [GumCodeSliceElement] is a cell of the [elements] array of its
    [GumCodePages]; its address is the batch handle and the index. The
    [GList] header of the element stores the owning batch in [data]. *)
Record GumCodeSliceElement := {
  element_pages : positive;
  element_index : nat
}.

#[global] Instance GumCodeSliceElement_eq_dec : EqDecision GumCodeSliceElement.
Proof. solve_decision. Defined.

(** [ref_count] is a [gint]; it stays between 0 and the number of slices of
    a page, so its wrap-around is not written out. *)
Record GumCodePages := {
  ref_count : Z;
  segment : pointer GumCodeSegment;
  pages_data : Z;
  pages_size : Z;
  pages_allocator : positive;
  elements : list GumCodeSlice
}.

Record GumCodeDeflector := {
  return_address : Z;
  target : Z;
  trampoline : Z
}.

Record GumCodeDeflectorImpl := {
  parent : GumCodeDeflector;
  impl_allocator : positive
}.

Record GumCodeDeflectorDispatcher := {
  callers : list positive;
  address : Z;
  dispatcher_trampoline : Z;
  thunk : Z;
  original_data : list Z;
  original_size : Z
}.

Record GumCodeAllocator := {
  slice_size : Z;
  slices_per_page : Z;
  uncommitted_pages : list positive;
  dirty_pages : gset positive;
  free_slices : list GumCodeSliceElement;
  dispatchers : list positive
}.

(** Calls into the memory layer, recorded in program order (newest first). *)
Inductive Event :=
| EvClearCache (addr size : Z)
| EvFreePages (addr : Z)
| EvMprotect (addr size : Z) (prot : GumPageProtection)
| EvSegmentRealize (s : GumCodeSegment)
| EvSegmentMap (s : GumCodeSegment) (offset size target : Z)
| EvSegmentFree (s : GumCodeSegment).

(** ** The memory layer used by the allocator (gummemory, gumcodesegment,
    range enumeration, Thumb writer): an interface. [M] is whatever state
    the layer keeps. *)
Class GumMemory (M : Type) := {
  gum_query_page_size : Z;
  gum_query_is_rwx_supported : bool;
  (** returns the null address when no page can be had near [spec] *)
  gum_try_alloc_n_pages_near : Z -> GumPageProtection -> GumAddressSpec -> M -> Z * M;
  (** does not return on failure: [None] stands for the abort *)
  gum_alloc_n_pages : Z -> GumPageProtection -> M -> option Z * M;
  gum_free_pages : Z -> M -> M;
  gum_code_segment_new : Z -> pointer GumAddressSpec -> M -> pointer GumCodeSegment * M;
  (** ranges with the given protection, in enumeration order *)
  gum_process_enumerate_ranges : GumPageProtection -> M -> list GumMemoryRange;
  (** build flag and the code the Thumb writer emits at the cave for a
      thunk address (ldr r0, =thunk+1; bx r0) *)
  HAVE_ARM : bool;
  thumb_relay : Z -> list Z
}.

(** ** Process state seen by the allocator *)

Record State (M : Type) := {
  backend : M;
  self_handle : positive;
  allocator : GumCodeAllocator;
  pages_heap : gmap positive GumCodePages;
  dispatcher_heap : gmap positive GumCodeDeflectorDispatcher;
  deflector_heap : gmap positive GumCodeDeflectorImpl;
  memory : gmap Z Z;
  trace : list Event
}.
Arguments backend {M} _.
Arguments self_handle {M} _.
Arguments allocator {M} _.
Arguments pages_heap {M} _.
Arguments dispatcher_heap {M} _.
Arguments deflector_heap {M} _.
Arguments memory {M} _.
Arguments trace {M} _.

(** The monad of the allocator's functions: state passing with [outcome]. *)
Definition Gum (M A : Type) : Type := State M -> outcome (A * State M).

Definition gum_ret {M A} (a : A) : Gum M A := fun st => Returns (a, st).

Definition gum_bind {M A B} (m : Gum M A) (f : A -> Gum M B) : Gum M B :=
  fun st =>
    match m st with
    | Returns (a, st') => f a st'
    | Aborts => Aborts
    | Faults => Faults
    | Unfinished => Unfinished
    end.

Declare Scope gum_scope.
Delimit Scope gum_scope with gum.
Notation "x <- m ;; k" := (gum_bind m (fun x => k))
  (at level 100, m at next level, right associativity) : gum_scope.
Notation "m ;; k" := (gum_bind m (fun _ => k))
  (at level 100, right associativity) : gum_scope.

(** ** State access *)

Section CodeAllocator.
Context {M : Type} `{GumMemory M}.

Local Open Scope gum_scope.

Definition with_backend (m : M) (st : State M) : State M :=
  {| backend := m; self_handle := self_handle st; allocator := allocator st;
     pages_heap := pages_heap st; dispatcher_heap := dispatcher_heap st;
     deflector_heap := deflector_heap st; memory := memory st; trace := trace st |}.

Definition with_allocator (a : GumCodeAllocator) (st : State M) : State M :=
  {| backend := backend st; self_handle := self_handle st; allocator := a;
     pages_heap := pages_heap st; dispatcher_heap := dispatcher_heap st;
     deflector_heap := deflector_heap st; memory := memory st; trace := trace st |}.

Definition with_pages_heap (h : gmap positive GumCodePages) (st : State M) : State M :=
  {| backend := backend st; self_handle := self_handle st; allocator := allocator st;
     pages_heap := h; dispatcher_heap := dispatcher_heap st;
     deflector_heap := deflector_heap st; memory := memory st; trace := trace st |}.

Definition with_dispatcher_heap (h : gmap positive GumCodeDeflectorDispatcher)
    (st : State M) : State M :=
  {| backend := backend st; self_handle := self_handle st; allocator := allocator st;
     pages_heap := pages_heap st; dispatcher_heap := h;
     deflector_heap := deflector_heap st; memory := memory st; trace := trace st |}.

Definition with_deflector_heap (h : gmap positive GumCodeDeflectorImpl)
    (st : State M) : State M :=
  {| backend := backend st; self_handle := self_handle st; allocator := allocator st;
     pages_heap := pages_heap st; dispatcher_heap := dispatcher_heap st;
     deflector_heap := h; memory := memory st; trace := trace st |}.

Definition with_memory (m : gmap Z Z) (st : State M) : State M :=
  {| backend := backend st; self_handle := self_handle st; allocator := allocator st;
     pages_heap := pages_heap st; dispatcher_heap := dispatcher_heap st;
     deflector_heap := deflector_heap st; memory := m; trace := trace st |}.

Definition with_trace (t : list Event) (st : State M) : State M :=
  {| backend := backend st; self_handle := self_handle st; allocator := allocator st;
     pages_heap := pages_heap st; dispatcher_heap := dispatcher_heap st;
     deflector_heap := deflector_heap st; memory := memory st; trace := t |}.

Definition set_uncommitted_pages (l : list positive) (a : GumCodeAllocator) :=
  {| slice_size := slice_size a; slices_per_page := slices_per_page a;
     uncommitted_pages := l; dirty_pages := dirty_pages a;
     free_slices := free_slices a; dispatchers := dispatchers a |}.

Definition set_dirty_pages (d : gset positive) (a : GumCodeAllocator) :=
  {| slice_size := slice_size a; slices_per_page := slices_per_page a;
     uncommitted_pages := uncommitted_pages a; dirty_pages := d;
     free_slices := free_slices a; dispatchers := dispatchers a |}.

Definition set_free_slices (l : list GumCodeSliceElement) (a : GumCodeAllocator) :=
  {| slice_size := slice_size a; slices_per_page := slices_per_page a;
     uncommitted_pages := uncommitted_pages a; dirty_pages := dirty_pages a;
     free_slices := l; dispatchers := dispatchers a |}.

Definition set_dispatchers (l : list positive) (a : GumCodeAllocator) :=
  {| slice_size := slice_size a; slices_per_page := slices_per_page a;
     uncommitted_pages := uncommitted_pages a; dirty_pages := dirty_pages a;
     free_slices := free_slices a; dispatchers := l |}.

Definition set_ref_count (n : Z) (p : GumCodePages) :=
  {| ref_count := n; segment := segment p; pages_data := pages_data p;
     pages_size := pages_size p; pages_allocator := pages_allocator p;
     elements := elements p |}.

Definition set_callers (l : list positive) (d : GumCodeDeflectorDispatcher) :=
  {| callers := l; address := address d;
     dispatcher_trampoline := dispatcher_trampoline d; thunk := thunk d;
     original_data := original_data d; original_size := original_size d |}.

Definition self : Gum M GumCodeAllocator := fun st => Returns (allocator st, st).

Definition update_self (f : GumCodeAllocator -> GumCodeAllocator) : Gum M unit :=
  fun st => Returns (tt, with_allocator (f (allocator st)) st).

Definition emit (e : Event) : Gum M unit :=
  fun st => Returns (tt, with_trace (e :: trace st) st).

(** Reading a field of a [GumCodePages]: undefined once the batch is gone. *)
Definition load_pages (p : positive) : Gum M GumCodePages :=
  fun st =>
    match pages_heap st !! p with
    | Some pages => Returns (pages, st)
    | None => Faults
    end.

Definition store_pages (p : positive) (pages : GumCodePages) : Gum M unit :=
  fun st => Returns (tt, with_pages_heap (<[p := pages]> (pages_heap st)) st).

(** [g_slice_alloc]: a block that is not in use. *)
Definition g_slice_alloc_pages : Gum M positive :=
  fun st => Returns (fresh (dom (pages_heap st)), st).

Definition g_slice_free_pages (p : positive) : Gum M unit :=
  fun st => Returns (tt, with_pages_heap (delete p (pages_heap st)) st).

(** [&element->slice] lies inside the batch. *)
Definition load_slice (element : GumCodeSliceElement) : Gum M GumCodeSlice :=
  pages <- load_pages (element_pages element) ;;
  match elements pages !! element_index element with
  | Some slice => gum_ret slice
  | None => fun _ => Faults
  end.

Definition call_free_pages (addr : Z) : Gum M unit :=
  fun st =>
    Returns (tt, with_trace (EvFreePages addr :: trace st)
                   (with_backend (gum_free_pages addr (backend st)) st)).

(** ** gumcodeallocator.c: slices *)

(** [gum_query_page_size () / slice_size] divides by zero when [slice_size]
    is 0, which C leaves undefined. *)
Definition gum_code_allocator_init (slice_size : Z) : Gum M unit :=
  if slice_size =? 0 then fun _ => Faults
  else
    update_self (fun allocator =>
      {| slice_size := slice_size;
         slices_per_page := gsize_of (gum_query_page_size / slice_size);
         uncommitted_pages := [];
         dirty_pages := ∅;
         free_slices := [];
         dispatchers := [] |}).

Definition gum_code_slice_is_near (self : GumCodeSlice)
    (spec : pointer GumAddressSpec) : bool :=
  match spec with
  | NULL => true
  | Ptr spec =>
      let near_address := gssize_of (near_address spec) in
      let slice_start := gssize_of (slice_data self) in
      let slice_end := gssize_of (slice_start + slice_size_of self - 1) in
      let distance_start := gsize_of (ABS (gssize_of (near_address - slice_start))) in
      let distance_end := gsize_of (ABS (gssize_of (near_address - slice_end))) in
      (distance_start <=? max_distance spec) && (distance_end <=? max_distance spec)
  end.

Definition gum_code_slice_is_aligned (slice : GumCodeSlice) (alignment : Z) : bool :=
  if alignment =? 0 then true
  else slice_data slice mod alignment =? 0.

(** The body of the carving loop of [gum_code_allocator_try_alloc_batch_near],
    [i] counting down from [slices_per_page]: element [i - 1] is pushed on the
    front of the free list unless it is element 0, which is the result. *)
Fixpoint carve_slices (pages : positive) (i : nat)
    (free : list GumCodeSliceElement) : list GumCodeSliceElement :=
  match i with
  | O => free
  | S slice_index =>
      carve_slices pages slice_index
        (match slice_index with
         | O => free
         | S _ => {| element_pages := pages; element_index := slice_index |} :: free
         end)
  end.

Definition slice_at (data slice_size : Z) (slice_index : nat) : GumCodeSlice :=
  {| slice_data := data + Z.of_nat slice_index * slice_size;
     slice_size_of := slice_size |}.

(** The first part of [gum_code_allocator_try_alloc_batch_near]: the page
    (with its segment where the platform has no RWX pages), or nothing when
    the function returns NULL at this point. *)
Definition alloc_batch_memory (spec : pointer GumAddressSpec)
    : Gum M (option (pointer GumCodeSegment * Z)) :=
  let rwx_supported := gum_query_is_rwx_supported in
  let size_in_pages := 1 in
  let size_in_bytes := size_in_pages * gum_query_page_size in
  if rwx_supported then
    match spec with
    | Ptr spec' =>
        fun st =>
          let '(data, m) :=
            gum_try_alloc_n_pages_near size_in_pages GUM_PAGE_RWX spec' (backend st) in
          Returns (if data =? 0 then None else Some (NULL, data), with_backend m st)
    | NULL =>
        fun st =>
          match gum_alloc_n_pages size_in_pages GUM_PAGE_RWX (backend st) with
          | (Some data, m) => Returns (Some (NULL, data), with_backend m st)
          | (None, _) => Aborts
          end
    end
  else
    fun st =>
      match gum_code_segment_new size_in_bytes spec (backend st) with
      | (Ptr seg, m) => Returns (Some (Ptr seg, segment_address seg), with_backend m st)
      | (NULL, m) => Returns (None, with_backend m st)
      end.

Definition gum_code_allocator_try_alloc_batch_near (spec : pointer GumAddressSpec)
    : Gum M (pointer GumCodeSliceElement) :=
  let rwx_supported := gum_query_is_rwx_supported in
  let size_in_pages := 1 in
  let size_in_bytes := size_in_pages * gum_query_page_size in
  got <- alloc_batch_memory spec ;;
  match got with
  | None => gum_ret NULL
  | Some (segment, data) =>
      self <- self ;;
      pages <- g_slice_alloc_pages ;;
      me <- (fun st => Returns (self_handle st, st)) ;;
      let n := Z.to_nat (slices_per_page self) in
      store_pages pages
        {| ref_count := slices_per_page self;
           segment := segment;
           pages_data := data;
           pages_size := size_in_bytes;
           pages_allocator := me;
           elements := map (slice_at data (slice_size self)) (seq 0 n) |} ;;
      update_self (fun a => set_free_slices (carve_slices pages n (free_slices a)) a) ;;
      (if rwx_supported then gum_ret tt
       else update_self (fun a => set_uncommitted_pages (pages :: uncommitted_pages a) a)) ;;
      update_self (fun a => set_dirty_pages ({[ pages ]} ∪ dirty_pages a) a) ;;
      gum_ret (match n with
               | O => NULL
               | S _ => Ptr {| element_pages := pages; element_index := O |}
               end)
  end.

(** The scan of [gum_code_allocator_try_alloc_slice_near]: [before] holds the
    links already passed, [cur] the rest of the free list. *)
Fixpoint scan_free_slices (spec : pointer GumAddressSpec) (alignment : Z)
    (before cur : list GumCodeSliceElement) : Gum M (pointer GumCodeSliceElement) :=
  match cur with
  | [] => gum_ret NULL
  | element :: next =>
      slice <- load_slice element ;;
      if gum_code_slice_is_near slice spec && gum_code_slice_is_aligned slice alignment
      then
        let pages := element_pages element in
        update_self (set_free_slices (before ++ next)) ;;
        update_self (fun a => set_dirty_pages ({[ pages ]} ∪ dirty_pages a) a) ;;
        gum_ret (Ptr element)
      else scan_free_slices spec alignment (before ++ [element]) next
  end.

Definition gum_code_allocator_try_alloc_slice_near (spec : pointer GumAddressSpec)
    (alignment : Z) : Gum M (pointer GumCodeSliceElement) :=
  self <- self ;;
  found <- scan_free_slices spec alignment [] (free_slices self) ;;
  match found with
  | Ptr element => gum_ret (Ptr element)
  | NULL => gum_code_allocator_try_alloc_batch_near spec
  end.

Definition gum_code_allocator_alloc_slice : Gum M (pointer GumCodeSliceElement) :=
  gum_code_allocator_try_alloc_slice_near NULL 0.

Definition gum_code_pages_unref (self : positive) : Gum M unit :=
  pages <- load_pages self ;;
  let count := ref_count pages - 1 in
  store_pages self (set_ref_count count pages) ;;
  if count =? 0 then
    (match segment pages with
     | Ptr seg => emit (EvSegmentFree seg)
     | NULL => call_free_pages (pages_data pages)
     end) ;;
    g_slice_free_pages self
  else gum_ret tt.

(** [g_list_foreach (list, gum_code_pages_unref, NULL)]: the callback gets
    each link's [data], the owning batch. *)
Fixpoint unref_each (l : list GumCodeSliceElement) : Gum M unit :=
  match l with
  | [] => gum_ret tt
  | element :: next => gum_code_pages_unref (element_pages element) ;; unref_each next
  end.

Definition gum_code_slice_free (slice : pointer GumCodeSliceElement) : Gum M unit :=
  match slice with
  | NULL => gum_ret tt
  | Ptr element =>
      (* pages = element->parent.data *)
      _ <- load_slice element ;;
      let pages := element_pages element in
      if gum_query_is_rwx_supported then
        (* allocator = pages->allocator *)
        _ <- load_pages pages ;;
        update_self (fun a => set_free_slices (element :: free_slices a) a)
      else gum_code_pages_unref pages
  end.

Fixpoint realize_each (l : list positive) : Gum M unit :=
  match l with
  | [] => gum_ret tt
  | p :: next =>
      pages <- load_pages p ;;
      match segment pages with
      | Ptr seg =>
          emit (EvSegmentRealize seg) ;;
          emit (EvSegmentMap seg 0 (segment_virtual_size seg) (segment_address seg)) ;;
          realize_each next
      | NULL => fun _ => Faults
      end
  end.

Fixpoint clear_cache_each (l : list positive) : Gum M unit :=
  match l with
  | [] => gum_ret tt
  | p :: next =>
      pages <- load_pages p ;;
      emit (EvClearCache (pages_data pages) (pages_size pages)) ;;
      clear_cache_each next
  end.

Definition gum_code_allocator_commit : Gum M unit :=
  let rwx_supported := gum_query_is_rwx_supported in
  self0 <- self ;;
  realize_each (uncommitted_pages self0) ;;
  update_self (set_uncommitted_pages []) ;;
  clear_cache_each (base.elements (dirty_pages self0)) ;;
  update_self (set_dirty_pages ∅) ;;
  if rwx_supported then gum_ret tt
  else
    self1 <- self ;;
    unref_each (free_slices self1) ;;
    update_self (set_free_slices []).

End CodeAllocator.

(** ** gumcodeallocator.c: deflectors *)

Section CodeDeflector.
Context {M : Type} `{GumMemory M}.

Local Open Scope gum_scope.

Fixpoint remove_first {A} `{EqDecision A} (x : A) (l : list A) : list A :=
  match l with
  | [] => []
  | y :: l' => if decide (x = y) then l' else y :: remove_first x l'
  end.

(** The bytes of the process image: a finite map, zero where nothing was
    recorded. *)
Definition read_byte (mem : gmap Z Z) (addr : Z) : Z := default 0 (mem !! addr).

Definition read_bytes (mem : gmap Z Z) (addr : Z) (n : nat) : list Z :=
  map (fun i => read_byte mem (addr + Z.of_nat i)) (seq 0 n).

Fixpoint write_bytes (mem : gmap Z Z) (addr : Z) (bytes : list Z) : gmap Z Z :=
  match bytes with
  | [] => mem
  | b :: rest => write_bytes (<[addr := b]> mem) (addr + 1) rest
  end.

(** [ELFMAG], [SELFMAG] of <elf.h>. *)
Definition ELFMAG : list Z := [127; 69; 76; 70].
Definition SELFMAG : nat := 4.

Definition load_dispatcher (d : positive) : Gum M GumCodeDeflectorDispatcher :=
  fun st =>
    match dispatcher_heap st !! d with
    | Some dispatcher => Returns (dispatcher, st)
    | None => Faults
    end.

Definition store_dispatcher (d : positive) (dispatcher : GumCodeDeflectorDispatcher)
    : Gum M unit :=
  fun st => Returns (tt, with_dispatcher_heap (<[d := dispatcher]> (dispatcher_heap st)) st).

Definition load_deflector (p : pointer positive) : Gum M GumCodeDeflectorImpl :=
  fun st =>
    match p with
    | NULL => Faults
    | Ptr h =>
        match deflector_heap st !! h with
        | Some impl => Returns (impl, st)
        | None => Faults
        end
    end.

Definition call_mprotect (addr size : Z) (prot : GumPageProtection) : Gum M unit :=
  emit (EvMprotect addr size prot).

Definition call_alloc_n_pages (n : Z) (prot : GumPageProtection) : Gum M Z :=
  fun st =>
    match gum_alloc_n_pages n prot (backend st) with
    | (Some data, m) => Returns (data, with_backend m st)
    | (None, _) => Aborts
    end.

Definition gum_code_deflector_dispatcher_ensure_rw (self : GumCodeDeflectorDispatcher)
    : Gum M unit :=
  let prot := if gum_query_is_rwx_supported then GUM_PAGE_RWX else GUM_PAGE_RW in
  call_mprotect (address self) (original_size self) prot.

Definition gum_code_deflector_dispatcher_ensure_rx (self : GumCodeDeflectorDispatcher)
    : Gum M unit :=
  call_mprotect (address self) (original_size self) GUM_PAGE_RX.

(** The distance test shared by the dispatcher scan and the cave probe:
    [ABS ((gssize) a - (gssize) b)] stored in a [gsize]. *)
Definition address_distance (a b : Z) : Z :=
  gsize_of (ABS (gssize_of (gssize_of a - gssize_of b))).

(** [gum_probe_range_for_code_cave]: [Some cave] when the callback stores a
    cave and returns FALSE (stop), [None] when it returns TRUE (carry on). *)
Definition gum_probe_range_for_code_cave (mem : gmap Z Z) (caller : GumAddressSpec)
    (details : GumMemoryRange) : option GumMemoryRange :=
  let cave_address := gsize_of (base_address details + 8) in
  let distance := address_distance cave_address (near_address caller) in
  if max_distance caller <? distance then None
  else if negb (bool_decide (read_bytes mem (base_address details) SELFMAG = ELFMAG))
  then None
  else if negb (bool_decide (read_bytes mem cave_address 8 = [0; 0; 0; 0; 0; 0; 0; 0]))
  then None
  else Some {| base_address := cave_address; range_size := 8 |}.

(** [gum_process_enumerate_ranges] with the probe as callback. *)
Fixpoint enumerate_for_code_cave (mem : gmap Z Z) (caller : GumAddressSpec)
    (ranges : list GumMemoryRange) : GumMemoryRange :=
  match ranges with
  | [] => {| base_address := 0; range_size := 0 |}
  | details :: next =>
      match gum_probe_range_for_code_cave mem caller details with
      | Some cave => cave
      | None => enumerate_for_code_cave mem caller next
      end
  end.

(** The thunk's machine code is the Thumb writer's business; what it computes
    on arrival is [gum_code_deflector_dispatcher_lookup] below. *)
Definition gum_code_deflector_dispatcher_new (caller : GumAddressSpec)
    : Gum M (pointer positive) :=
  cave <- (fun st =>
      Returns (enumerate_for_code_cave (memory st) caller
                 (gum_process_enumerate_ranges GUM_PAGE_RX (backend st)), st)) ;;
  if base_address cave =? 0 then gum_ret NULL
  else
    let size_in_pages := 1 in
    let size_in_bytes := size_in_pages * gum_query_page_size in
    dispatcher <- (fun st => Returns (fresh (dom (dispatcher_heap st)), st)) ;;
    let address := base_address cave in
    thunk <- call_alloc_n_pages size_in_pages GUM_PAGE_RW ;;
    saved <- (fun st =>
        Returns (read_bytes (memory st) address (Z.to_nat (range_size cave)), st)) ;;
    let d0 :=
      {| callers := []; address := address; dispatcher_trampoline := address;
         thunk := thunk; original_data := saved; original_size := range_size cave |} in
    d <-
      (if HAVE_ARM then
         gum_code_deflector_dispatcher_ensure_rw d0 ;;
         (fun st => Returns (tt, with_memory
                                   (write_bytes (memory st) address (thumb_relay thunk)) st)) ;;
         if Z.of_nat (length (thumb_relay thunk)) <=? original_size d0
         then gum_ret
                {| callers := []; address := address;
                   dispatcher_trampoline := address + 1;
                   thunk := thunk; original_data := saved;
                   original_size := range_size cave |}
         else fun _ => Aborts
       else gum_ret d0) ;;
    store_dispatcher dispatcher d ;;
    gum_code_deflector_dispatcher_ensure_rx d ;;
    emit (EvClearCache address (original_size d)) ;;
    call_mprotect thunk size_in_bytes GUM_PAGE_RX ;;
    emit (EvClearCache thunk size_in_bytes) ;;
    gum_ret (Ptr dispatcher).

Fixpoint foreach_caller (free_caller : pointer positive -> Gum M unit)
    (l : list positive) : Gum M unit :=
  match l with
  | [] => gum_ret tt
  | c :: next => free_caller (Ptr c) ;; foreach_caller free_caller next
  end.

(** [free_caller] is [gum_code_deflector_free], which the C function hands to
    [g_slist_foreach] for the registrations still on the dispatcher.
    [released] holds the dispatchers for which a call of this function is in
    progress and has passed [g_free (dispatcher->original_data)]: for one
    of them [memcpy] reads a block that has been freed. After the loop
    [g_slist_free] reads [dispatcher->callers] once more, and [g_slice_free]
    releases the dispatcher. *)
Definition gum_code_deflector_dispatcher_free
    (free_caller : list positive -> pointer positive -> Gum M unit)
    (released : list positive) (dispatcher : positive) : Gum M unit :=
  d <- load_dispatcher dispatcher ;;
  gum_code_deflector_dispatcher_ensure_rw d ;;
  (if bool_decide (dispatcher ∈ released) then fun _ => Faults
   else
     fun st =>
       Returns (tt, with_memory
                      (write_bytes (memory st) (address d)
                         (take (Z.to_nat (original_size d)) (original_data d))) st)) ;;
  gum_code_deflector_dispatcher_ensure_rx d ;;
  call_free_pages (thunk d) ;;
  foreach_caller (free_caller (dispatcher :: released)) (callers d) ;;
  load_dispatcher dispatcher ;;
  (fun st => Returns (tt, with_dispatcher_heap (delete dispatcher (dispatcher_heap st)) st)).

(** The loop of [gum_code_deflector_free] over [allocator->dispatchers]. *)
Fixpoint free_in_dispatchers (free_dispatcher : positive -> Gum M unit)
    (deflector : positive) (cur : list positive) : Gum M unit :=
  match cur with
  | [] => fun _ => Aborts
  | dispatcher :: next =>
      d <- load_dispatcher dispatcher ;;
      if bool_decide (deflector ∈ callers d) then
        (fun st =>
           Returns (tt, with_deflector_heap (delete deflector (deflector_heap st)) st)) ;;
        let callers' := remove_first deflector (callers d) in
        store_dispatcher dispatcher (set_callers callers' d) ;;
        match callers' with
        | [] =>
            free_dispatcher dispatcher ;;
            update_self (fun a =>
              set_dispatchers (remove_first dispatcher (dispatchers a)) a)
        | _ :: _ => gum_ret tt
        end
      else free_in_dispatchers free_dispatcher deflector next
  end.

(** [gum_code_deflector_free] and [gum_code_deflector_dispatcher_free] call
    each other; [depth] bounds the nesting and [released] is handed on to
    [gum_code_deflector_dispatcher_free]. The first statement of the C
    function initialises [allocator] from [impl->allocator], before the test
    of [deflector] against NULL. *)
Fixpoint gum_code_deflector_free_in (depth : nat) (released : list positive)
    (deflector : pointer positive) : Gum M unit :=
  impl <- load_deflector deflector ;;
  let allocator := impl_allocator impl in
  match deflector with
  | NULL => gum_ret tt
  | Ptr h =>
      a <- self ;;
      free_in_dispatchers
        (gum_code_deflector_dispatcher_free
           (match depth with
            | O => fun _ _ _ => Unfinished
            | S depth' => gum_code_deflector_free_in depth'
            end)
           released)
        h (dispatchers a)
  end.

(** A call from outside: no [gum_code_deflector_dispatcher_free] is in
    progress. *)
Definition gum_code_deflector_free_upto (depth : nat) (deflector : pointer positive)
    : Gum M unit :=
  gum_code_deflector_free_in depth [] deflector.

Fixpoint find_dispatcher (caller : GumAddressSpec) (cur : list positive)
    : Gum M (pointer positive) :=
  match cur with
  | [] => gum_ret NULL
  | d :: next =>
      dispatcher <- load_dispatcher d ;;
      let distance := address_distance (address dispatcher) (near_address caller) in
      if distance <=? max_distance caller then gum_ret (Ptr d)
      else find_dispatcher caller next
  end.

Definition gum_code_allocator_alloc_deflector (caller : GumAddressSpec)
    (return_address target : Z) : Gum M (pointer positive) :=
  a <- self ;;
  found <- find_dispatcher caller (dispatchers a) ;;
  dispatcher <-
    (match found with
     | Ptr d => gum_ret (Ptr d)
     | NULL =>
         created <- gum_code_deflector_dispatcher_new caller ;;
         match created with
         | NULL => gum_ret NULL
         | Ptr d =>
             update_self (fun a => set_dispatchers (d :: dispatchers a) a) ;;
             gum_ret (Ptr d)
         end
     end) ;;
  match dispatcher with
  | NULL => gum_ret NULL
  | Ptr d =>
      impl <- (fun st => Returns (fresh (dom (deflector_heap st)), st)) ;;
      disp <- load_dispatcher d ;;
      me <- (fun st => Returns (self_handle st, st)) ;;
      (fun st =>
         Returns (tt, with_deflector_heap
           (<[impl := {| parent := {| return_address := return_address;
                                      target := target;
                                      trampoline := dispatcher_trampoline disp |};
                         impl_allocator := me |}]> (deflector_heap st)) st)) ;;
      store_dispatcher d (set_callers (impl :: callers disp) disp) ;;
      gum_ret (Ptr impl)
  end.

Fixpoint lookup_caller (ra : Z) (cur : list positive) : Gum M Z :=
  match cur with
  | [] => gum_ret 0
  | c :: next =>
      caller <- load_deflector (Ptr c) ;;
      if return_address (parent caller) =? ra then gum_ret (target (parent caller))
      else lookup_caller ra next
  end.

Definition gum_code_deflector_dispatcher_lookup (self : positive) (ra : Z) : Gum M Z :=
  d <- load_dispatcher self ;;
  lookup_caller ra (callers d).

End CodeDeflector.

(** ** gumprocess-linux.c: the thread control protocol *)

Inductive ptrace_request :=
| PTRACE_ATTACH
| PTRACE_DETACH
| PTRACE_GETREGS
| PTRACE_SETREGS
| PTRACE_GETREGSET
| PTRACE_SETREGSET.

(** enum _GumModifyThreadAck *)
Definition GUM_ACK_READY : Z := 1.
Definition GUM_ACK_READ_CONTEXT : Z := 2.
Definition GUM_ACK_MODIFIED_CONTEXT : Z := 3.
Definition GUM_ACK_WROTE_CONTEXT : Z := 4.
Definition GUM_ACK_FAILED_TO_ATTACH : Z := 5.
Definition GUM_ACK_FAILED_TO_WAIT : Z := 6.
Definition GUM_ACK_FAILED_TO_STOP : Z := 7.
Definition GUM_ACK_FAILED_TO_READ : Z := 8.
Definition GUM_ACK_FAILED_TO_WRITE : Z := 9.
Definition GUM_ACK_FAILED_TO_DETACH : Z := 10.

(** Constants of the system headers the file includes. *)
Definition EPERM : Z := 1.
Definition ESRCH : Z := 3.
Definition NT_PRSTATUS : Z := 1.
Definition SIGCONT : Z := 18.
Definition __WALL : Z := 0x40000000.
Definition PR_GET_DUMPABLE : Z := 3.
Definition PR_SET_DUMPABLE : Z := 4.
Definition PR_SET_PTRACER : Z := 0x59616d61.

(** [WIFSTOPPED (status)] *)
Definition WIFSTOPPED (status : Z) : bool := Z.land status 0xff =? 0x7f.

(** The register file of the build's architecture and the portable context:
    [gum_parse_regs] assigns every field of the context, [gum_unparse_regs]
    overwrites the fields of the register file that the context carries; the
    same for the saved context of [getcontext]. [returns_to_getcontext uc]
    says that installing [uc] continues at the return of the [getcontext]
    call that captured it. [have_getcontext] is the build condition of the
    current-thread branch (glibc or uClibc, not Android). *)
Class Arch := {
  GumRegs : Type;
  GumCpuContext : Type;
  ucontext_t : Type;
  gum_parse_regs : GumRegs -> GumCpuContext;
  gum_unparse_regs : GumCpuContext -> GumRegs -> GumRegs;
  gum_linux_parse_ucontext : ucontext_t -> GumCpuContext;
  gum_linux_unparse_ucontext : GumCpuContext -> ucontext_t -> ucontext_t;
  returns_to_getcontext : ucontext_t -> bool;
  have_getcontext : bool
}.

(** Kernel requests issued through [gum_libc_syscall_4] and libc. *)
Inductive Syscall `{Arch} :=
| SysPtrace (request : ptrace_request) (pid : Z) (addr : Z) (data : Z)
| SysPtraceRegs (request : ptrace_request) (pid : Z) (addr : Z) (regs : pointer GumRegs)
| SysWaitpid (pid : Z) (options : Z)
| SysPrctl (option arg : Z)
| SysSocketpair
| SysClone
| SysGetcontext.

(** What comes back: the value in the result register (a negated errno on
    failure, as [gum_libc_syscall_4] hands it on unchanged) and the buffers
    that were filled. *)
Record Reply `{Arch} := {
  reply_ret : Z;
  reply_regs : GumRegs;
  reply_status : Z;
  reply_ucontext : ucontext_t
}.

(** The kernel: any state and any answers. *)
Class Kernel `{Arch} := {
  K : Type;
  kernel_call : Syscall -> K -> Reply * K;
  gum_process_get_current_thread_id : Z
}.

Section ThreadControl.
Context `{Kernel}.

Record World := {
  kernel : K;
  gum_is_regset_supported : bool;
  gum_dumpable_refcount : Z;
  gum_dumpable_previous : Z;
  (** [ctx.cpu_context] of the session, shared through CLONE_VM *)
  cpu_context : GumCpuContext;
  (** kernel requests with their results, newest first *)
  syscalls : list (Syscall * Z);
  (** contexts the user callback was invoked on, newest first *)
  func_calls : list GumCpuContext
}.

Definition set_kernel (k : K) (w : World) : World :=
  {| kernel := k; gum_is_regset_supported := gum_is_regset_supported w;
     gum_dumpable_refcount := gum_dumpable_refcount w;
     gum_dumpable_previous := gum_dumpable_previous w;
     cpu_context := cpu_context w; syscalls := syscalls w;
     func_calls := func_calls w |}.

Definition set_regset_supported (b : bool) (w : World) : World :=
  {| kernel := kernel w; gum_is_regset_supported := b;
     gum_dumpable_refcount := gum_dumpable_refcount w;
     gum_dumpable_previous := gum_dumpable_previous w;
     cpu_context := cpu_context w; syscalls := syscalls w;
     func_calls := func_calls w |}.

Definition set_dumpable (refcount previous : Z) (w : World) : World :=
  {| kernel := kernel w; gum_is_regset_supported := gum_is_regset_supported w;
     gum_dumpable_refcount := refcount;
     gum_dumpable_previous := previous;
     cpu_context := cpu_context w; syscalls := syscalls w;
     func_calls := func_calls w |}.

Definition set_cpu_context (c : GumCpuContext) (w : World) : World :=
  {| kernel := kernel w; gum_is_regset_supported := gum_is_regset_supported w;
     gum_dumpable_refcount := gum_dumpable_refcount w;
     gum_dumpable_previous := gum_dumpable_previous w;
     cpu_context := c; syscalls := syscalls w;
     func_calls := func_calls w |}.

Definition set_syscalls (l : list (Syscall * Z)) (w : World) : World :=
  {| kernel := kernel w; gum_is_regset_supported := gum_is_regset_supported w;
     gum_dumpable_refcount := gum_dumpable_refcount w;
     gum_dumpable_previous := gum_dumpable_previous w;
     cpu_context := cpu_context w; syscalls := l;
     func_calls := func_calls w |}.

Definition set_func_calls (l : list GumCpuContext) (w : World) : World :=
  {| kernel := kernel w; gum_is_regset_supported := gum_is_regset_supported w;
     gum_dumpable_refcount := gum_dumpable_refcount w;
     gum_dumpable_previous := gum_dumpable_previous w;
     cpu_context := cpu_context w; syscalls := syscalls w;
     func_calls := l |}.

(** One kernel request: the kernel answers, the request is logged. *)
Definition syscall (s : Syscall) (w : World) : Reply * World :=
  let '(r, k) := kernel_call s (kernel w) in
  (r, set_syscalls ((s, reply_ret r) :: syscalls w) (set_kernel k w)).

Definition gum_libc_ptrace (request : ptrace_request) (pid addr data : Z)
    (w : World) : Z * World :=
  let '(r, w') := syscall (SysPtrace request pid addr data) w in
  (reply_ret r, w').

(** [gum_get_regs]: the result and the content of [*regs] afterwards. *)
Definition gum_get_regs (pid : Z) (w : World) : (Z * GumRegs) * World :=
  let legacy w :=
    let '(r, w') := syscall (SysPtraceRegs PTRACE_GETREGS pid 0 NULL) w in
    ((reply_ret r, reply_regs r), w') in
  if gum_is_regset_supported w then
    let '(r, w1) := syscall (SysPtraceRegs PTRACE_GETREGSET pid NT_PRSTATUS NULL) w in
    let ret := reply_ret r in
    if 0 <=? ret then ((ret, reply_regs r), w1)
    else if (ret =? - EPERM) || (ret =? - ESRCH) then ((ret, reply_regs r), w1)
    else legacy (set_regset_supported false w1)
  else legacy w.

Definition gum_set_regs (pid : Z) (regs : GumRegs) (w : World) : Z * World :=
  let legacy w :=
    let '(r, w') := syscall (SysPtraceRegs PTRACE_SETREGS pid 0 (Ptr regs)) w in
    (reply_ret r, w') in
  if gum_is_regset_supported w then
    let '(r, w1) :=
      syscall (SysPtraceRegs PTRACE_SETREGSET pid NT_PRSTATUS (Ptr regs)) w in
    let ret := reply_ret r in
    if 0 <=? ret then (ret, w1)
    else if (ret =? - EPERM) || (ret =? - ESRCH) then (ret, w1)
    else legacy (set_regset_supported false w1)
  else legacy w.

Definition gum_acquire_dumpability (w : World) : unit * World :=
  let refcount := gum_dumpable_refcount w + 1 in
  let w := set_dumpable refcount (gum_dumpable_previous w) w in
  if refcount =? 1 then
    let '(r, w) := syscall (SysPrctl PR_GET_DUMPABLE 0) w in
    let previous := reply_ret r in
    let w := set_dumpable refcount previous w in
    if negb (previous =? -1) && negb (previous =? 1)
    then (tt, snd (syscall (SysPrctl PR_SET_DUMPABLE 1) w))
    else (tt, w)
  else (tt, w).

Definition gum_release_dumpability (w : World) : unit * World :=
  let refcount := gum_dumpable_refcount w - 1 in
  let w := set_dumpable refcount (gum_dumpable_previous w) w in
  if refcount =? 0 then
    let previous := gum_dumpable_previous w in
    if negb (previous =? -1) && negb (previous =? 1)
    then (tt, snd (syscall (SysPrctl PR_SET_DUMPABLE previous) w))
    else (tt, w)
  else (tt, w).

(** A thread of the session as a tree: actions on the shared [World], one
    byte written to or read from the socket pair, the spawning of the helper
    and the wait for its exit. [ChanRead] hands over the result of the read
    and the byte. *)
Inductive Proc : Type :=
| Ret (r : Z)
| Act (A : Type) (m : World -> A * World) (k : A -> Proc)
| ChanWrite (value : Z) (k : Proc)
| ChanRead (k : Z -> Z -> Proc)
| Clone (k : Z -> Proc)
| WaitChild (k : Proc).
Arguments Act {A} m k.

Definition gum_await_ack (expected_ack : Z) (k : bool -> Proc) : Proc :=
  ChanRead (fun res value =>
    if res =? -1 then k false
    else k (value =? expected_ack)).

Definition gum_put_ack (ack : Z) (k : Proc) : Proc := ChanWrite ack k.

(** The [beach] label of [gum_do_modify_thread]. *)
Definition helper_beach (attached : bool) (thread_id : Z) : Proc :=
  if attached then
    Act (gum_libc_ptrace PTRACE_DETACH thread_id 0 SIGCONT) (fun _ => Ret 0)
  else Ret 0.

Definition gum_do_modify_thread (thread_id : Z) : Proc :=
  let attached := false in
  gum_await_ack GUM_ACK_READY (fun _ =>
  Act (gum_libc_ptrace PTRACE_ATTACH thread_id 0 0) (fun res =>
  if res =? -1 then
    gum_put_ack GUM_ACK_FAILED_TO_ATTACH (helper_beach attached thread_id)
  else
  let attached := true in
  Act (syscall (SysWaitpid thread_id __WALL)) (fun r =>
  let wait_result := reply_ret r in
  let status := reply_status r in
  if negb (gsize_of wait_result =? thread_id) then
    gum_put_ack GUM_ACK_FAILED_TO_WAIT (helper_beach attached thread_id)
  else if negb (WIFSTOPPED status) then
    gum_put_ack GUM_ACK_FAILED_TO_STOP (helper_beach attached thread_id)
  else
  Act (gum_get_regs thread_id) (fun got =>
  let '(res, regs) := got in
  if res =? -1 then
    gum_put_ack GUM_ACK_FAILED_TO_READ (helper_beach attached thread_id)
  else
  Act (fun w => (tt, set_cpu_context (gum_parse_regs regs) w)) (fun _ =>
  gum_put_ack GUM_ACK_READ_CONTEXT (
  gum_await_ack GUM_ACK_MODIFIED_CONTEXT (fun _ =>
  Act (fun w => gum_set_regs thread_id (gum_unparse_regs (cpu_context w) regs) w)
    (fun res =>
  if res =? -1 then
    gum_put_ack GUM_ACK_FAILED_TO_WRITE (helper_beach attached thread_id)
  else
  Act (gum_libc_ptrace PTRACE_DETACH thread_id 0 SIGCONT) (fun res =>
  let attached := false in
  if res =? -1 then
    gum_put_ack GUM_ACK_FAILED_TO_DETACH (helper_beach attached thread_id)
  else
    gum_put_ack GUM_ACK_WROTE_CONTEXT (helper_beach attached thread_id)))))))))).

(** The user callback [func (thread_id, &cpu_context, user_data)]: it may
    rewrite the context in place. *)
Definition invoke (func : Z -> GumCpuContext -> GumCpuContext) (thread_id : Z)
    (context : GumCpuContext) (w : World) : GumCpuContext * World :=
  (func thread_id context, set_func_calls (context :: func_calls w) w).

(** The branch of [gum_process_modify_thread] for another thread. *)
Definition modify_other_thread (thread_id : Z)
    (func : Z -> GumCpuContext -> GumCpuContext) : Proc :=
  Act (syscall SysSocketpair) (fun r =>
  if negb (reply_ret r =? 0) then Ret 0
  else
  Clone (fun child =>
  if child =? -1 then Ret 0
  else
  let finish (success : bool) :=
    Act gum_release_dumpability (fun _ =>
    WaitChild (Ret (if success then 1 else 0))) in
  Act gum_acquire_dumpability (fun _ =>
  Act (syscall (SysPrctl PR_SET_PTRACER child)) (fun _ =>
  gum_put_ack GUM_ACK_READY (
  gum_await_ack GUM_ACK_READ_CONTEXT (fun got =>
  if got then
    Act (fun w =>
           let '(c, w') := invoke func thread_id (cpu_context w) w in
           (tt, set_cpu_context c w')) (fun _ =>
    gum_put_ack GUM_ACK_MODIFIED_CONTEXT (
    gum_await_ack GUM_ACK_WROTE_CONTEXT (fun success => finish success)))
  else finish false)))))).

(** *** Running a session

    The socket pair is two byte queues. A thread runs until it reads from an
    empty queue or exits; a read returns 1 and the next byte (retries after
    EINTR are not visible at this level). *)
Inductive paused :=
| Waiting (p : Proc)
| Exited (r : Z).

Fixpoint run_thread (p : Proc) (w : World) (inbox outbox : list Z)
    : paused * World * list Z * list Z :=
  match p with
  | Ret r => (Exited r, w, inbox, outbox)
  | Act m k => let '(a, w') := m w in run_thread (k a) w' inbox outbox
  | ChanWrite v k => run_thread k w inbox (outbox ++ [v])
  | ChanRead k =>
      match inbox with
      | v :: rest => run_thread (k 1 v) w rest outbox
      | [] => (Waiting p, w, inbox, outbox)
      end
  | Clone k => run_thread (k (-1)) w inbox outbox
  | WaitChild k => run_thread k w inbox outbox
  end.

Inductive run_result :=
| Returned (success : bool) (w : World)
| Blocked (w : World)
| Diverted (uc : ucontext_t) (w : World)
| OutOfFuel.

(** What a session leaves behind: the outcome for the caller, the bytes the
    caller read from the helper and the bytes the helper wrote. *)
Record Session := {
  outcome_of : run_result;
  received : list Z;
  sent : list Z
}.

(** The caller's thread. The helper exists once [clone] has returned a
    thread id; it is given the processor whenever the caller has to wait,
    which is one of the interleavings of the two threads (they exchange data
    only through the queues and, between READ_CONTEXT and MODIFIED_CONTEXT,
    through [cpu_context]). The pages for the helper's stack and TLS and the
    closing of the descriptors play no part in the protocol and are left
    out. *)
Fixpoint run_caller (child_func : Proc) (p : Proc) (child : option paused)
    (w : World) (to_caller to_child : list Z) (tags wrote : list Z) : Session :=
  let resume c w to_child :=
    match c with
    | Some (Waiting c) =>
        let '(c', w', to_child', produced) := run_thread c w to_child [] in
        (Some c', w', to_child', produced)
    | other => (other, w, to_child, [])
    end in
  match p with
  | Ret r =>
      {| outcome_of := Returned (negb (r =? 0)) w; received := tags; sent := wrote |}
  | Act m k =>
      let '(a, w') := m w in
      run_caller child_func (k a) child w' to_caller to_child tags wrote
  | ChanWrite v k =>
      run_caller child_func k child w to_caller (to_child ++ [v]) tags wrote
  | ChanRead k =>
      match to_caller with
      | v :: rest =>
          run_caller child_func (k 1 v) child w rest to_child (tags ++ [v]) wrote
      | [] =>
          let '(child', w', to_child', produced) := resume child w to_child in
          match produced with
          | v :: rest =>
              run_caller child_func (k 1 v) child' w' rest to_child'
                (tags ++ [v]) (wrote ++ produced)
          | [] => {| outcome_of := Blocked w'; received := tags; sent := wrote |}
          end
      end
  | Clone k =>
      let '(r, w') := syscall SysClone w in
      let tid := reply_ret r in
      run_caller child_func (k tid)
        (if 0 <? tid then Some (Waiting child_func) else None)
        w' to_caller to_child tags wrote
  | WaitChild k =>
      let '(child', w', to_child', produced) := resume child w to_child in
      match child' with
      | Some (Waiting _) =>
          {| outcome_of := Blocked w'; received := tags; sent := wrote ++ produced |}
      | _ =>
          run_caller child_func k child' w' (to_caller ++ produced) to_child'
            tags (wrote ++ produced)
      end
  end.

(** The branch for the calling thread: what happens from the return of
    [getcontext] on, with [modified] as the stack holds it. [setcontext]
    with an unchanged program counter returns from [getcontext] once more. *)
Fixpoint after_getcontext (fuel : nat) (thread_id : Z)
    (func : Z -> GumCpuContext -> GumCpuContext)
    (modified : bool) (uc : ucontext_t) (w : World) : run_result :=
  if negb modified then
    let context := gum_linux_parse_ucontext uc in
    let '(context', w') := invoke func thread_id context w in
    let uc' := gum_linux_unparse_ucontext context' uc in
    let modified := true in
    if returns_to_getcontext uc' then
      match fuel with
      | O => OutOfFuel
      | S fuel' => after_getcontext fuel' thread_id func modified uc' w'
      end
    else Diverted uc' w'
  else Returned true w.

Definition gum_process_modify_thread (fuel : nat) (thread_id : Z)
    (func : Z -> GumCpuContext -> GumCpuContext) (flags : Z) (w : World)
    : Session :=
  if thread_id =? gum_process_get_current_thread_id then
    if have_getcontext then
      let '(r, w') := syscall SysGetcontext w in
      {| outcome_of := after_getcontext fuel thread_id func false (reply_ucontext r) w';
         received := []; sent := [] |}
    else {| outcome_of := Returned false w; received := []; sent := [] |}
  else
    run_caller (gum_do_modify_thread thread_id)
      (modify_other_thread thread_id func) None w [] [] [] [].

End ThreadControl.

(** ** Ghost state of the allocator: the slices handed out

    The C code keeps no record of the slices it has handed out. [live] is
    that record, kept beside the state: a slice enters it when an allocation
    returns it and leaves it when it is freed. *)

Fixpoint slices_of (p : positive) (l : list GumCodeSliceElement) : Z :=
  match l with
  | [] => 0
  | e :: l' => (if decide (element_pages e = p) then 1 else 0) + slices_of p l'
  end.

Definition refs {M} (st : State M) (p : positive) : Z :=
  match pages_heap st !! p with
  | Some pages => ref_count pages
  | None => 0
  end.

Definition batch_invariant {M} (st : State M) (live : list GumCodeSliceElement) : Prop :=
  0 <= slices_per_page (allocator st)
  /\ forall p, refs st p = slices_of p live + slices_of p (free_slices (allocator st)).

Inductive reachable {M} `{GumMemory M} : State M -> list GumCodeSliceElement -> Prop :=
| reach_init st0 size st :
    pages_heap st0 = ∅ ->
    gum_code_allocator_init size st0 = Returns (tt, st) ->
    reachable st []
| reach_alloc st live spec alignment e st' :
    reachable st live ->
    gum_code_allocator_try_alloc_slice_near spec alignment st = Returns (Ptr e, st') ->
    reachable st' (e :: live)
| reach_alloc_none st live spec alignment st' :
    reachable st live ->
    gum_code_allocator_try_alloc_slice_near spec alignment st = Returns (NULL, st') ->
    reachable st' live
| reach_free st live e st' :
    reachable st live ->
    e ∈ live ->
    gum_code_slice_free (Ptr e) st = Returns (tt, st') ->
    reachable st' (remove_first e live)
| reach_commit st live st' :
    reachable st live ->
    gum_code_allocator_commit st = Returns (tt, st') ->
    reachable st' live.

Definition within_reach (spec : GumAddressSpec) (slice : GumCodeSlice) : Prop :=
  Z.abs (near_address spec - slice_data slice) <= max_distance spec
  /\ Z.abs (near_address spec - (slice_data slice + slice_size_of slice - 1))
     <= max_distance spec.

Definition in_lower_half (spec : GumAddressSpec) (slice : GumCodeSlice) : Prop :=
  0 <= near_address spec < half_modulus
  /\ 0 <= slice_data slice
  /\ 1 <= slice_size_of slice
  /\ slice_data slice + slice_size_of slice - 1 < half_modulus.

Definition is_cache_flush (e : Event) : bool :=
  match e with
  | EvClearCache _ _ => true
  | _ => false
  end.

Definition cache_flushes (t : list Event) : nat := length (List.filter is_cache_flush t).

(** A link that fails the test of the scan. *)
Definition rejected {M} (spec : pointer GumAddressSpec) (alignment : Z) (st : State M)
    (e : GumCodeSliceElement) : Prop :=
  exists slice,
    load_slice e st = Returns (slice, st)
    /\ gum_code_slice_is_near slice spec && gum_code_slice_is_aligned slice alignment
       = false.


Definition slices_loadable {M} (st : State M) (live : list GumCodeSliceElement) : Prop :=
  (forall p pages, pages_heap st !! p = Some pages ->
     length (elements pages) = Z.to_nat (slices_per_page (allocator st)))
  /\ (forall e, e ∈ live ++ free_slices (allocator st) ->
        (element_index e < Z.to_nat (slices_per_page (allocator st)))%nat).

Definition heap_shrinks {M} (st st' : State M) : Prop :=
  forall q pages', pages_heap st' !! q = Some pages' ->
    exists pages, pages_heap st !! q = Some pages /\ elements pages' = elements pages.

(** The allocation claim read literally: whatever slice a constrained
    allocation returns has its first and its last byte within reach. *)
Definition near_slice_always_within_reach : Prop :=
  forall (M : Type) (G : GumMemory M) (st : State M) live spec alignment e st' slice,
    reachable st live ->
    gum_code_allocator_try_alloc_slice_near (Ptr spec) alignment st = Returns (Ptr e, st') ->
    load_slice e st' = Returns (slice, st') ->
    within_reach spec slice.

(** The counting claim read literally: the reference count of a batch is the
    number of its slices that are handed out. *)
Definition ref_count_counts_live_slices : Prop :=
  forall (M : Type) (G : GumMemory M) (st : State M) live p pages,
    reachable st live ->
    pages_heap st !! p = Some pages ->
    ref_count pages = slices_of p live.

(** A memory layer for the examples. Pages are handed out upwards from a
    counter; a page asked for near an address is the page that holds that
    address; the executable ranges of the process are given. The build is
    not an ARM one. *)
Definition example_memory (rwx : bool) (ranges : list GumMemoryRange) : GumMemory Z :=
  {| gum_query_page_size := 4096;
     gum_query_is_rwx_supported := rwx;
     gum_try_alloc_n_pages_near := fun n prot spec m =>
       (near_address spec / 4096 * 4096, m);
     gum_alloc_n_pages := fun n prot m => (Some m, m + n * 4096);
     gum_free_pages := fun addr m => m;
     gum_code_segment_new := fun size spec m =>
       match spec with
       | Ptr spec' =>
           (Ptr {| segment_address := near_address spec' / 4096 * 4096;
                   segment_virtual_size := size |}, m)
       | NULL =>
           (Ptr {| segment_address := m; segment_virtual_size := size |}, m + size)
       end;
     gum_process_enumerate_ranges := fun prot m => ranges;
     HAVE_ARM := false;
     thumb_relay := fun _ => [] |}.

(** Two ELF images, at 0x10000 and at 0x30000: the magic number at the
    base, zero bytes after it. *)
Definition two_images : list GumMemoryRange :=
  [{| base_address := 0x10000; range_size := 4096 |};
   {| base_address := 0x30000; range_size := 4096 |}].

Definition image_bytes : gmap Z Z :=
  write_bytes (write_bytes ∅ 0x10000 ELFMAG) 0x30000 ELFMAG.

(** A process before [gum_code_allocator_init]. *)
Definition boot : State Z :=
  {| backend := 0x100000;
     self_handle := 1%positive;
     allocator := {| slice_size := 0; slices_per_page := 0; uncommitted_pages := [];
                     dirty_pages := ∅; free_slices := []; dispatchers := [] |};
     pages_heap := ∅;
     dispatcher_heap := ∅;
     deflector_heap := ∅;
     memory := image_bytes;
     trace := [] |}.

(** The state a call leaves, and what it returned. *)
Definition state_after {M A} (m : Gum M A) (st : State M) : State M :=
  match m st with
  | Returns (_, st') => st'
  | _ => st
  end.

Definition value_of {M A} (m : Gum M A) (st : State M) : option A :=
  match m st with
  | Returns (a, _) => Some a
  | _ => None
  end.

(** An allocator of 1024-byte slices on a platform with RWX pages, and the
    states after one unconstrained allocation and after one allocation near
    0x10000 with reach 256. *)
Definition rwx_memory : GumMemory Z := example_memory true two_images.

Definition initialised : State Z :=
  state_after (@gum_code_allocator_init Z rwx_memory 1024) boot.

Definition after_alloc_slice : State Z :=
  state_after (@gum_code_allocator_alloc_slice Z rwx_memory) initialised.

Definition near_0x10000 : GumAddressSpec :=
  {| near_address := 0x10000; max_distance := 256 |}.

Definition after_alloc_near : State Z :=
  state_after (@gum_code_allocator_try_alloc_slice_near Z rwx_memory (Ptr near_0x10000) 0)
    initialised.

Definition first_slice : GumCodeSliceElement :=
  {| element_pages := 1%positive; element_index := 0%nat |}.

(** ** Deflectors: range, registrations, and the states of the examples *)

(** The test of [gum_code_allocator_alloc_deflector] on one dispatcher. *)
Definition in_range_of (caller : GumAddressSpec) (d : GumCodeDeflectorDispatcher) : bool :=
  address_distance (address d) (near_address caller) <=? max_distance caller.

(** The deflector [f] is live and [d] is the first dispatcher of the list
    that holds it: the one [gum_code_deflector_free] stops at. *)
Definition registered_with {M} (st : State M) (f d : positive)
    (D : GumCodeDeflectorDispatcher) : Prop :=
  exists impl before after,
    deflector_heap st !! f = Some impl
    /\ dispatchers (allocator st) = before ++ d :: after
    /\ dispatcher_heap st !! d = Some D
    /\ f ∈ callers D
    /\ Forall (fun e => exists De, dispatcher_heap st !! e = Some De /\ f ∉ callers De)
         before.

(** The sharing claim read literally: two calls whose callers are both
    within range of one dispatcher of the list create no dispatcher and
    return deflectors with one trampoline. *)
Definition callers_in_range_share_trampoline : Prop :=
  forall (M : Type) (G : GumMemory M) (st st1 st2 : State M) d D
         caller1 caller2 ra1 ra2 target1 target2 f1 f2 impl1 impl2,
    d ∈ dispatchers (allocator st) ->
    dispatcher_heap st !! d = Some D ->
    in_range_of caller1 D = true ->
    in_range_of caller2 D = true ->
    gum_code_allocator_alloc_deflector caller1 ra1 target1 st = Returns (Ptr f1, st1) ->
    gum_code_allocator_alloc_deflector caller2 ra2 target2 st1 = Returns (Ptr f2, st2) ->
    deflector_heap st2 !! f1 = Some impl1 ->
    deflector_heap st2 !! f2 = Some impl2 ->
    dispatchers (allocator st2) = dispatchers (allocator st)
    /\ trampoline (parent impl1) = trampoline (parent impl2).

(** Callers near the first image, near the second, and one that reaches
    both. *)
Definition near_first_image : GumAddressSpec :=
  {| near_address := 0x10100; max_distance := 0x1000 |}.

Definition near_second_image : GumAddressSpec :=
  {| near_address := 0x30100; max_distance := 0x1000 |}.

Definition between_images : GumAddressSpec :=
  {| near_address := 0x20000; max_distance := 0x20000 |}.

(** A dispatcher in the cave of each image: the first call installs one at
    0x10008, the second one at 0x30008, which goes to the head of the list. *)
Definition one_dispatcher : State Z :=
  state_after
    (@gum_code_allocator_alloc_deflector Z rwx_memory near_first_image 0xa0 0xa1)
    initialised.

Definition two_dispatchers : State Z :=
  state_after
    (@gum_code_allocator_alloc_deflector Z rwx_memory near_second_image 0xb0 0xb1)
    one_dispatcher.

(** A second registration with the dispatcher of the first image. *)
Definition two_registrations : State Z :=
  state_after
    (@gum_code_allocator_alloc_deflector Z rwx_memory near_first_image 0xc0 0xc1)
    one_dispatcher.

(** The dispatcher of the first image, with one registration and with two. *)
Definition first_image_dispatcher (registrations : list positive)
    : GumCodeDeflectorDispatcher :=
  {| callers := registrations; address := 0x10008; dispatcher_trampoline := 0x10008;
     thunk := 0x100000; original_data := [0; 0; 0; 0; 0; 0; 0; 0]; original_size := 8 |}.

(** The dispatcher of the second image. *)
Definition second_image_dispatcher (registrations : list positive)
    : GumCodeDeflectorDispatcher :=
  {| callers := registrations; address := 0x30008; dispatcher_trampoline := 0x30008;
     thunk := 0x101000; original_data := [0; 0; 0; 0; 0; 0; 0; 0]; original_size := 8 |}.

(** The state after a commit that follows one allocation. *)
Definition after_commit : State Z :=
  state_after (@gum_code_allocator_commit Z rwx_memory) after_alloc_slice.

(** ** Properties as the specification words them, for comparison *)

(** Register access, read literally: any failing answer to the register-set
    transfer ("unsupported or refused") switches the process to the legacy
    transfer. *)
Definition regset_latches_on_any_failure : Prop :=
  forall (A : Arch) (KI : Kernel) (pid : Z) (w : World),
    gum_is_regset_supported w = true ->
    reply_ret (fst (kernel_call (SysPtraceRegs PTRACE_GETREGSET pid NT_PRSTATUS NULL)
                      (kernel w))) < 0 ->
    gum_is_regset_supported (snd (gum_get_regs pid w)) = false.

(** A sequence of register reads and writes of the process. *)
Inductive reg_access `{Arch} :=
| ReadRegs (pid : Z)
| WriteRegs (pid : Z) (regs : GumRegs).

Definition access_regs `{Kernel} (op : reg_access) (w : World) : World :=
  match op with
  | ReadRegs pid => snd (gum_get_regs pid w)
  | WriteRegs pid regs => snd (gum_set_regs pid regs w)
  end.

Definition is_regset_request `{Arch} (s : Syscall) : bool :=
  match s with
  | SysPtraceRegs PTRACE_GETREGSET _ _ _ => true
  | SysPtraceRegs PTRACE_SETREGSET _ _ _ => true
  | _ => false
  end.

Definition is_legacy_request `{Arch} (s : Syscall) : bool :=
  match s with
  | SysPtraceRegs PTRACE_GETREGS _ _ _ => true
  | SysPtraceRegs PTRACE_SETREGS _ _ _ => true
  | _ => false
  end.

(** *** Reading the request log *)

(** Attach and detach requests. *)
Definition is_control_request `{Arch} (e : Syscall * Z) : bool :=
  match fst e with
  | SysPtrace _ _ _ _ => true
  | _ => false
  end.

Definition is_ptrace_request `{Arch} (e : Syscall * Z) : bool :=
  match fst e with
  | SysPtrace _ _ _ _ => true
  | SysPtraceRegs _ _ _ _ => true
  | _ => false
  end.

(** A request that writes the register file [regs] to thread [pid]. *)
Definition is_write_back `{Arch} (pid : Z) (regs : GumRegs) (e : Syscall * Z) : Prop :=
  exists request addr,
    fst e = SysPtraceRegs request pid addr (Ptr regs)
    /\ (request = PTRACE_SETREGSET \/ request = PTRACE_SETREGS).

(** A register write that the kernel accepted: only then does the target
    resume with the registers that were sent. *)
Definition is_accepted_write `{Arch} (e : Syscall * Z) : bool :=
  match fst e with
  | SysPtraceRegs PTRACE_SETREGS _ _ _ => 0 <=? snd e
  | SysPtraceRegs PTRACE_SETREGSET _ _ _ => 0 <=? snd e
  | _ => false
  end.

(** Scanning the log from the newest request: [thread_id] is the only
    thread attached to or detached from, and every attach that the helper
    took as successful (a result other than -1, which covers every result
    >= 0) has a PTRACE_DETACH of [thread_id] with SIGCONT after it. *)
Fixpoint attaches_resolved `{Arch} (thread_id : Z) (detach_seen : bool)
    (log : list (Syscall * Z)) : bool :=
  match log with
  | [] => true
  | (SysPtrace PTRACE_DETACH pid _ data, _) :: older =>
      (pid =? thread_id)
      && attaches_resolved thread_id (detach_seen || (data =? SIGCONT)) older
  | (SysPtrace PTRACE_ATTACH pid _ _, ret) :: older =>
      (pid =? thread_id) && (detach_seen || (ret =? -1))
      && attaches_resolved thread_id detach_seen older
  | _ :: older => attaches_resolved thread_id detach_seen older
  end.

Definition world_of `{Kernel} (r : run_result) : option World :=
  match r with
  | Returned _ w => Some w
  | Blocked w => Some w
  | Diverted _ w => Some w
  | OutOfFuel => None
  end.

(** The shapes a session with another thread can take: [w] is the world
    before, [w'] after, [new] the requests issued in between (newest first). *)
Definition no_helper_case `{Kernel} (w : World) (s : Session) (w' : World)
    (new : list (Syscall * Z)) : Prop :=
  sent s = []
  /\ (outcome_of s = Returned false w' \/ outcome_of s = Blocked w')
  /\ func_calls w' = func_calls w
  /\ List.filter is_control_request new = [].

Definition attach_refused_case `{Kernel} (thread_id : Z) (w : World) (s : Session)
    (w' : World) (new : list (Syscall * Z)) : Prop :=
  sent s = [GUM_ACK_FAILED_TO_ATTACH]
  /\ outcome_of s = Returned false w'
  /\ func_calls w' = func_calls w
  /\ List.filter is_control_request new = [(SysPtrace PTRACE_ATTACH thread_id 0 0, -1)].

Definition early_failure_case `{Kernel} (thread_id : Z) (w : World) (s : Session)
    (w' : World) (new : list (Syscall * Z)) : Prop :=
  exists tag ra rd,
    sent s = [tag]
    /\ (tag = GUM_ACK_FAILED_TO_WAIT \/ tag = GUM_ACK_FAILED_TO_STOP
        \/ tag = GUM_ACK_FAILED_TO_READ)
    /\ outcome_of s = Returned false w'
    /\ func_calls w' = func_calls w
    /\ List.filter is_control_request new
       = [(SysPtrace PTRACE_DETACH thread_id 0 SIGCONT, rd);
          (SysPtrace PTRACE_ATTACH thread_id 0 0, ra)].

Definition callback_case `{Kernel} (thread_id : Z)
    (func : Z -> GumCpuContext -> GumCpuContext) (w : World) (s : Session)
    (w' : World) (new : list (Syscall * Z)) : Prop :=
  exists regs tag ra rd after writes before,
    let context := gum_parse_regs regs in
    sent s = [GUM_ACK_READ_CONTEXT; tag]
    /\ new = after ++ (SysPtrace PTRACE_DETACH thread_id 0 SIGCONT, rd)
                   :: writes ++ before
    /\ func_calls w' = context :: func_calls w
    /\ List.filter is_control_request new
       = [(SysPtrace PTRACE_DETACH thread_id 0 SIGCONT, rd);
          (SysPtrace PTRACE_ATTACH thread_id 0 0, ra)]
    /\ List.filter is_ptrace_request after = []
    /\ writes <> []
    /\ Forall (is_write_back thread_id (gum_unparse_regs (func thread_id context) regs))
         writes
    /\ (tag = GUM_ACK_FAILED_TO_WRITE /\ outcome_of s = Returned false w'
        \/ tag = GUM_ACK_FAILED_TO_DETACH /\ rd = -1 /\ outcome_of s = Returned false w'
        \/ tag = GUM_ACK_WROTE_CONTEXT /\ rd <> -1
           /\ outcome_of s = Returned true w').

(** ** Concrete platforms for the examples *)

(** One register: the program counter. *)
Definition pc_only_arch : Arch :=
  {| GumRegs := Z;
     GumCpuContext := Z;
     ucontext_t := Z;
     gum_parse_regs := fun regs => regs;
     gum_unparse_regs := fun context _ => context;
     gum_linux_parse_ucontext := fun uc => uc;
     gum_linux_unparse_ucontext := fun context _ => context;
     returns_to_getcontext := fun uc => uc =? 4096;
     have_getcontext := true |}.

Definition reply (ret regs status : Z) : @Reply pc_only_arch :=
  @Build_Reply pc_only_arch ret regs status 4096.

(** A kernel that answers from a script, one entry per request. *)
Definition scripted_kernel : @Kernel pc_only_arch :=
  @Build_Kernel pc_only_arch (list (@Reply pc_only_arch))
    (fun _ script =>
       match script with
       | r :: rest => (r, rest)
       | [] => (reply 0 0 0, [])
       end)
    1.

Definition fresh_world (script : list (@Reply pc_only_arch))
    : @World pc_only_arch scripted_kernel :=
  @Build_World pc_only_arch scripted_kernel script true 0 0 0 [] [].

Definition EIO : Z := 5.

(** Requests on the one-register platform. *)
Definition regs_request (request : ptrace_request) (pid addr : Z) (regs : pointer Z)
    : @Syscall pc_only_arch :=
  @SysPtraceRegs pc_only_arch request pid addr regs.

Definition control_request (request : ptrace_request) (pid addr data : Z)
    : @Syscall pc_only_arch :=
  @SysPtrace pc_only_arch request pid addr data.

(** A session in which the kernel accepts everything up to the write-back
    and then answers -EIO to both register writes: socketpair, clone,
    PR_GET_DUMPABLE, PR_SET_PTRACER, attach, waitpid (stopped by SIGSTOP),
    PTRACE_GETREGSET (pc = 40), PTRACE_SETREGSET, PTRACE_SETREGS, detach. *)
Definition refused_write_back_script : list (@Reply pc_only_arch) :=
  [reply 0 0 0; reply 500 0 0; reply 1 0 0; reply 0 0 0; reply 0 0 0;
   reply 77 0 0x137f; reply 0 40 0; reply (- EIO) 0 0; reply (- EIO) 0 0;
   reply 0 0 0].

(** A session in which the target is reported as not stopped. *)
Definition not_stopped_script : list (@Reply pc_only_arch) :=
  [reply 0 0 0; reply 500 0 0; reply 1 0 0; reply 0 0 0; reply 0 0 0;
   reply 77 0 0; reply 0 0 0].

(** A session in which every request succeeds. *)
Definition accepting_script : list (@Reply pc_only_arch) :=
  [reply 0 0 0; reply 500 0 0; reply 1 0 0; reply 0 0 0; reply 0 0 0;
   reply 77 0 0x137f; reply 0 40 0; reply 0 0 0; reply 0 0 0].

(** * Further parts of the two files *)

(** ** gumcodeallocator.c: the end of an allocator *)

Section CodeAllocatorFree.
Context {M : Type} `{GumMemory M}.

Local Open Scope gum_scope.

(** [g_slist_foreach (allocator->dispatchers,
    gum_code_deflector_dispatcher_free, NULL)]: the list is walked as it was
    when the walk began. *)
Fixpoint free_each_dispatcher (free_dispatcher : positive -> Gum M unit)
    (l : list positive) : Gum M unit :=
  match l with
  | [] => gum_ret tt
  | dispatcher :: next =>
      free_dispatcher dispatcher ;; free_each_dispatcher free_dispatcher next
  end.

Definition gum_code_allocator_free_upto (depth : nat) : Gum M unit :=
  a <- self ;;
  free_each_dispatcher
    (gum_code_deflector_dispatcher_free (gum_code_deflector_free_in depth) [])
    (dispatchers a) ;;
  update_self (set_dispatchers []) ;;
  a <- self ;;
  unref_each (free_slices a) ;;
  update_self (set_uncommitted_pages []) ;;
  update_self (set_dirty_pages ∅) ;;
  update_self (set_free_slices []).

End CodeAllocatorFree.

(** ** Shape of the batches *)

(** The bytes of a slice: [slice_data, slice_data + slice_size_of). *)
Definition slice_end (slice : GumCodeSlice) : Z := slice_data slice + slice_size_of slice.

Definition slices_apart (s t : GumCodeSlice) : Prop :=
  slice_end s <= slice_data t \/ slice_end t <= slice_data s.

Definition slice_inside (pages : GumCodePages) (s : GumCodeSlice) : Prop :=
  pages_data pages <= slice_data s /\ slice_end s <= pages_data pages + pages_size pages.

(** Two records of one batch: all but the count agree. *)
Definition same_batch (pages pages' : GumCodePages) : Prop :=
  pages_data pages' = pages_data pages
  /\ pages_size pages' = pages_size pages
  /\ elements pages' = elements pages.

(** Every batch is one page cut into [slices_per_page] slices of
    [slice_size] bytes, and (where a page holds at least one slice) is
    referenced. *)
Definition batches_carved {M} `{GumMemory M} (st : State M) : Prop :=
  forall p pages, pages_heap st !! p = Some pages ->
    elements pages
    = map (slice_at (pages_data pages) (slice_size (allocator st)))
        (seq 0 (Z.to_nat (slices_per_page (allocator st))))
    /\ pages_size pages = 1 * gum_query_page_size
    /\ (1 <= slices_per_page (allocator st) -> 1 <= ref_count pages).

Definition allocator_shape {M} `{GumMemory M} (st : State M)
    (live : list GumCodeSliceElement) : Prop :=
  NoDup (live ++ free_slices (allocator st))
  /\ batches_carved st
  /\ slices_per_page (allocator st)
     = gsize_of (gum_query_page_size / slice_size (allocator st)).

(** ** gumprocess-linux.c: module paths *)

(** C strings are the lists of their bytes, without the terminating zero. *)
Definition cstring := list Z.

(** [strrchr (s, c) + 1]: what follows the last [c], or nothing when [c]
    does not occur. *)
Fixpoint after_last (c : Z) (s : cstring) : option cstring :=
  match s with
  | [] => None
  | x :: rest =>
      match after_last c rest with
      | Some tail => Some tail
      | None => if x =? c then Some rest else None
      end
  end.

Definition strcmp_is_0 (a b : cstring) : bool := bool_decide (a = b).

Definition slash : Z := 47.

Definition gum_linux_module_path_matches (path name_or_path : cstring) : bool :=
  if bool_decide (head name_or_path = Some slash) then strcmp_is_0 name_or_path path
  else
    match after_last slash path with
    | Some s_plus_1 => strcmp_is_0 name_or_path s_plus_1
    | None => strcmp_is_0 name_or_path path
    end.

(** ** gumprocess-linux.c: the CPU type of a file and of a process *)

Inductive GumCpuType :=
| GUM_CPU_IA32
| GUM_CPU_AMD64
| GUM_CPU_ARM
| GUM_CPU_ARM64
| GUM_CPU_MIPS.

Inductive GumErrorCode :=
| GUM_ERROR_FAILED
| GUM_ERROR_NOT_FOUND
| GUM_ERROR_PERMISSION_DENIED
| GUM_ERROR_NOT_SUPPORTED.

(** Constants of <errno.h> and <elf.h>. *)
Definition ENOENT : Z := 2.
Definition EACCES : Z := 13.
Definition EI_DATA : nat := 5.
Definition ELFDATA2LSB : Z := 1.
Definition ELFDATA2MSB : Z := 2.

(** [fseek (file, offset, SEEK_SET)] followed by
    [fread (&x, size, 1, file)]: the item, or nothing when the file ends
    before the item does. *)
Definition fread_at (file : list Z) (offset size : nat) : option (list Z) :=
  if (offset + size <=? length file)%nat then Some (take size (drop offset file))
  else None.

(** A [guint16] read from two bytes of memory, and the byte-order macros of
    GLib, on a host of either byte order. *)
Definition guint16_in_memory (host_le : bool) (bytes : list Z) : Z :=
  match bytes with
  | [b0; b1] => if host_le then b0 + 256 * b1 else 256 * b0 + b1
  | _ => 0
  end.

Definition GUINT16_SWAP_LE_BE (x : Z) : Z := (x mod 256) * 256 + x / 256.

Definition GUINT16_FROM_LE (host_le : bool) (x : Z) : Z :=
  if host_le then x else GUINT16_SWAP_LE_BE x.

Definition GUINT16_FROM_BE (host_le : bool) (x : Z) : Z :=
  if host_le then GUINT16_SWAP_LE_BE x else x.

(** [fopen_result] is the content of the file, or [errno] when [fopen]
    fails. The result is the CPU type, or the error that is set when the
    function returns -1. *)
Definition gum_linux_cpu_type_from_file (host_le : bool) (fopen_result : Z + list Z)
    : GumErrorCode + GumCpuType :=
  match fopen_result with
  | inl errno =>
      if errno =? ENOENT then inl GUM_ERROR_NOT_FOUND
      else if errno =? EACCES then inl GUM_ERROR_PERMISSION_DENIED
      else inl GUM_ERROR_FAILED
  | inr file =>
      match fread_at file EI_DATA 1 with
      | None => inl GUM_ERROR_NOT_SUPPORTED
      | Some ei_data_bytes =>
          let ei_data := nth 0 ei_data_bytes 0 in
          match fread_at file 0x12 2 with
          | None => inl GUM_ERROR_NOT_SUPPORTED
          | Some e_machine_bytes =>
              let e_machine := guint16_in_memory host_le e_machine_bytes in
              let decode e_machine :=
                if e_machine =? 0x0003 then inr GUM_CPU_IA32
                else if e_machine =? 0x003e then inr GUM_CPU_AMD64
                else if e_machine =? 0x0028 then inr GUM_CPU_ARM
                else if e_machine =? 0x00b7 then inr GUM_CPU_ARM64
                else if e_machine =? 0x0008 then inr GUM_CPU_MIPS
                else inl GUM_ERROR_NOT_SUPPORTED in
              if ei_data =? ELFDATA2LSB then decode (GUINT16_FROM_LE host_le e_machine)
              else if ei_data =? ELFDATA2MSB then decode (GUINT16_FROM_BE host_le e_machine)
              else inl GUM_ERROR_NOT_SUPPORTED
          end
      end
  end.

(** A [guint64] read from memory on a little-endian host (the i386 and ARM
    builds). *)
Definition guint64_in_memory (bytes : list Z) : Z :=
  fold_right (fun b acc => b + 256 * acc) 0 bytes.

Section CpuTypeFromAuxv.
(** [cpu32] and [cpu64] of the build: IA32 and AMD64, ARM and ARM64, or MIPS
    twice. *)
Variables cpu32 cpu64 : GumCpuType.

(** The loop of [gum_linux_cpu_type_from_auxv] from offset [i] on; [fuel]
    bounds the number of rounds. *)
Fixpoint auxv_types_from (fuel : nat) (auxv : list Z) (i : nat) : GumCpuType :=
  match fuel with
  | O => cpu64
  | S fuel' =>
      if (i + 8 <=? length auxv)%nat then
        let auxv_type := guint64_in_memory (take 8 (drop i auxv)) in
        if negb (Z.land auxv_type 0xffffffff00000000 =? 0) then cpu32
        else auxv_types_from fuel' auxv (i + 16)
      else cpu64
  end.

Definition gum_linux_cpu_type_from_auxv (auxv : list Z) : GumCpuType :=
  if (length auxv <? 2 * 8)%nat then cpu32
  else auxv_types_from (length auxv) auxv 0.

End CpuTypeFromAuxv.

(** The auxiliary vector of a 32-bit process as the kernel lays it out:
    type and value, four bytes each, least significant byte first. *)
Definition guint32_bytes (v : Z) : list Z :=
  [v mod 256; v / 256 mod 256; v / 65536 mod 256; v / 16777216 mod 256].

Definition Elf32_auxv (entries : list (Z * Z)) : list Z :=
  flat_map (fun e => guint32_bytes (fst e) ++ guint32_bytes (snd e)) entries.

(** The entries with an even index. *)
Fixpoint even_entries {A} (l : list A) : list A :=
  match l with
  | x :: _ :: rest => x :: even_entries rest
  | [x] => [x]
  | [] => []
  end.

(** The auxiliary vector of a 64-bit process: type and value, eight bytes
    each, least significant byte first. *)
Definition guint64_bytes (v : Z) : list Z :=
  guint32_bytes (v mod 4294967296) ++ guint32_bytes (v / 4294967296).

Definition Elf64_auxv (entries : list (Z * Z)) : list Z :=
  flat_map (fun e => guint64_bytes (fst e) ++ guint64_bytes (snd e)) entries.

(** ** gumprocess-linux.c: reading /proc/<pid>/maps line by line *)

(** The iterator: [read_cursor] and [write_cursor] are offsets into
    [buffer], whose length is [sizeof (iter->buffer)]. *)
Record GumProcMapsIter := {
  iter_fd : Z;
  buffer : list Z;
  read_cursor : nat;
  write_cursor : nat
}.

(** What [read] answers: the bytes it stored (none at the end of the file)
    or an error number. *)
Inductive read_reply :=
| ReadBytes (data : list Z)
| ReadError (errno : positive).

Definition EINTR : Z := 4.

(** [GUM_TEMP_FAILURE_RETRY (gum_libc_read (...))] against the answers the
    kernel is going to give: the call is repeated while the answer is
    -EINTR. The file has ended when the answers have run out. *)
Fixpoint read_retrying (answers : list read_reply) : read_reply * list read_reply :=
  match answers with
  | [] => (ReadBytes [], [])
  | ReadError errno :: later =>
      if Z.neg errno =? - EINTR then read_retrying later else (ReadError errno, later)
  | ReadBytes data :: later => (ReadBytes data, later)
  end.

(** [strchr (s, c)] for a [c] other than zero, [s] being the bytes from the
    starting point to the end of the buffer and [i] the offset of the
    starting point: the offset of the first [c], nothing when a zero byte
    comes first, and a read past the buffer when neither occurs. *)
Inductive strchr_result :=
| FoundAt (i : nat)
| NotFound
| PastTheEnd.

Fixpoint strchr_from (s : list Z) (c : Z) (i : nat) : strchr_result :=
  match s with
  | [] => PastTheEnd
  | x :: rest =>
      if x =? c then FoundAt i
      else if x =? 0 then NotFound
      else strchr_from rest c (S i)
  end.

Definition newline : Z := 10.

(** Bytes stored at an offset of the buffer. *)
Definition store_at (buf : list Z) (offset : nat) (data : list Z) : list Z :=
  take offset buf ++ data ++ drop (offset + length data) buf.

(** [guint] *)
Definition guint_of (z : Z) : Z := z mod 4294967296.

(** The end of [gum_proc_maps_iter_next]: the line is the string at
    [read_cursor] once the newline has been overwritten with a zero. *)
Definition take_line (it : GumProcMapsIter) (next_newline : nat)
    : list Z * GumProcMapsIter :=
  (take (next_newline - read_cursor it) (drop (read_cursor it) (buffer it)),
   {| iter_fd := iter_fd it;
      buffer := store_at (buffer it) next_newline [0];
      read_cursor := next_newline + 1;
      write_cursor := write_cursor it |}).

(** The result is the line, or nothing for FALSE, with the iterator and the
    answers that are left. The kernel stores no more bytes than it was
    offered space for; an answer that is longer would run over the buffer
    and counts as a fault. *)
Definition gum_proc_maps_iter_next (it : GumProcMapsIter) (answers : list read_reply)
    : outcome (option (list Z) * GumProcMapsIter * list read_reply) :=
  if iter_fd it =? -1 then Returns (None, it, answers)
  else
    let available :=
      guint_of (Z.of_nat (write_cursor it) - Z.of_nat (read_cursor it)) in
    let next_newline :=
      if available =? 0 then NotFound
      else strchr_from (drop (read_cursor it) (buffer it)) newline (read_cursor it) in
    match next_newline with
    | PastTheEnd => Faults
    | FoundAt i => let '(line, it') := take_line it i in Returns (Some line, it', answers)
    | NotFound =>
        let offset := read_cursor it in
        let moved :=
          if (0 <? offset)%nat then
            if (offset + Z.to_nat available <=? length (buffer it))%nat then
              Some {| iter_fd := iter_fd it;
                      buffer := store_at (buffer it) 0
                                  (take (Z.to_nat available) (drop offset (buffer it)));
                      read_cursor := read_cursor it - offset;
                      write_cursor := write_cursor it - offset |}
            else None
          else Some it in
        match moved with
        | None => Faults
        | Some it1 =>
            let count :=
              gsize_of (Z.of_nat (length (buffer it1)) - 1 - Z.of_nat (write_cursor it1)) in
            let '(reply, later) := read_retrying answers in
            match reply with
            | ReadError errno => Returns (None, it1, later)
            | ReadBytes [] => Returns (None, it1, later)
            | ReadBytes data =>
                let res := length data in
                if (Z.of_nat res <=? count)
                   && (write_cursor it1 + res + 1 <=? length (buffer it1))%nat
                then
                  let it2 :=
                    {| iter_fd := iter_fd it1;
                       buffer := store_at (store_at (buffer it1) (write_cursor it1) data)
                                   (write_cursor it1 + res) [0];
                       read_cursor := read_cursor it1;
                       write_cursor := write_cursor it1 + res |} in
                  match strchr_from (drop (read_cursor it2) (buffer it2)) newline
                          (read_cursor it2) with
                  | FoundAt i =>
                      let '(line, it') := take_line it2 i in
                      Returns (Some line, it', later)
                  | NotFound => Faults
                  | PastTheEnd => Faults
                  end
                else Faults
            end
        end
    end.

(** [gum_proc_maps_iter_init_for_path] with the result of [open]: the
    buffer holds whatever it held. *)
Definition gum_proc_maps_iter_init_for_path (stale : list Z) (open_result : Z)
    : GumProcMapsIter :=
  {| iter_fd := open_result; buffer := stale; read_cursor := 0; write_cursor := 0 |}.

(** A loop of the kind all users of the iterator run:
    [while (gum_proc_maps_iter_next (&iter, &line)) ...], collecting the
    lines. *)
Fixpoint lines_until_false (rounds : nat) (it : GumProcMapsIter)
    (answers : list read_reply) : outcome (list (list Z)) :=
  match rounds with
  | O => Unfinished
  | S rounds' =>
      match gum_proc_maps_iter_next it answers with
      | Returns (None, _, _) => Returns []
      | Returns (Some line, it', later) =>
          match lines_until_false rounds' it' later with
          | Returns rest => Returns (line :: rest)
          | other => other
          end
      | Aborts => Aborts
      | Faults => Faults
      | Unfinished => Unfinished
      end
  end.

(** Lines as the kernel writes them: each followed by a newline. *)
Definition with_newlines (lines : list (list Z)) : list Z :=
  flat_map (fun line => line ++ [newline]) lines.

Definition plain (line : list Z) : Prop := (newline ∉ line) /\ (0 ∉ line).

(** The iterator holds [lines], not yet returned, after [before]. *)
Definition holds_lines (it : GumProcMapsIter) (size : nat) (before : list Z)
    (lines : list (list Z)) : Prop :=
  exists after,
    buffer it = before ++ with_newlines lines ++ 0 :: after
    /\ read_cursor it = length before
    /\ write_cursor it = (length before + length (with_newlines lines))%nat
    /\ length (buffer it) = size
    /\ iter_fd it <> -1.

Definition interrupted (r : read_reply) : bool :=
  match r with
  | ReadError errno => Z.pos errno =? EINTR
  | ReadBytes _ => false
  end.


(** ** The range of an ELF image (gumprocess-linux.c)

    [ElfW(Phdr)] of the 64-bit build, with the fields the code reads. The
    program headers are the [phdr_count] entries found at [phdrs],
    [phdr_size] bytes apart; [phdrs] is their address. *)
Record Elf_Phdr := {
  p_type : Z;
  p_offset : Z;
  p_vaddr : Z;
  p_memsz : Z
}.

Definition PT_LOAD : Z := 1.
Definition PT_PHDR : Z := 6.

(** GLib's [MIN (a, b)] is [(((a) < (b)) ? (a) : (b))], [MAX (a, b)] is
    [(((a) > (b)) ? (a) : (b))]. *)
Definition MIN (a b : Z) : Z := if a <? b then a else b.
Definition MAX (a b : Z) : Z := if a >? b then a else b.

(** [~x] at type [GumAddress] (guint64). *)
Definition guint64_not (x : Z) : Z := Z.lxor x (Z.ones word_bits).

(** [GUM_PAGE_START (value, page_size)] is
    [(GUM_ADDRESS (value) & ~GUM_ADDRESS (page_size - 1))]. *)
Definition GUM_PAGE_START (value page_size : Z) : Z :=
  Z.land (gsize_of value) (guint64_not (gsize_of (page_size - 1))).

(** The locals of [gum_compute_elf_range_from_phdrs] that the loop updates. *)
Record elf_scan := {
  scan_base_address : Z;
  lowest : Z;
  highest : Z
}.

(** One round of the loop. *)
Definition scan_phdr (phdrs page_size : Z) (s : elf_scan) (phdr : Elf_Phdr)
    : elf_scan :=
  let base :=
    if p_type phdr =? PT_PHDR then gsize_of (phdrs - p_offset phdr)
    else scan_base_address s in
  let base :=
    if (p_type phdr =? PT_LOAD) && (p_offset phdr =? 0) then
      if base =? 0 then p_vaddr phdr else base
    else base in
  if p_type phdr =? PT_LOAD then
    {| scan_base_address := base;
       lowest := MIN (GUM_PAGE_START (p_vaddr phdr) page_size) (lowest s);
       highest := MAX (gsize_of (p_vaddr phdr + p_memsz phdr)) (highest s) |}
  else
    {| scan_base_address := base; lowest := lowest s; highest := highest s |}.

Definition gum_compute_elf_range_from_phdrs (phdrs : Z) (headers : list Elf_Phdr)
    (page_size base_address : Z) : GumMemoryRange :=
  let s := fold_left (scan_phdr phdrs page_size) headers
             {| scan_base_address := 0; lowest := gsize_of (-1); highest := 0 |} in
  let base :=
    if scan_base_address s =? 0 then
      if negb (base_address =? 0) then base_address
      else GUM_PAGE_START phdrs page_size
    else scan_base_address s in
  {| base_address := base; range_size := gsize_of (highest s - lowest s) |}.

(** [ElfW(Ehdr)] at address [ehdr_address], with the program headers its
    [e_phoff], [e_phentsize] and [e_phnum] designate. *)
Record Elf_Ehdr := {
  ehdr_address : Z;
  e_phoff : Z;
  program_headers : list Elf_Phdr
}.

Definition gum_compute_elf_range_from_ehdr (ehdr : pointer Elf_Ehdr)
    (page_size : Z) : GumMemoryRange :=
  match ehdr with
  | NULL => {| base_address := 0; range_size := 0 |}
  | Ptr e =>
      gum_compute_elf_range_from_phdrs (gsize_of (ehdr_address e + e_phoff e))
        (program_headers e) page_size (ehdr_address e)
  end.

Definition loadable (phdr : Elf_Phdr) : Prop := p_type phdr = PT_LOAD.

(** A loadable segment whose end does not wrap around. *)
Definition segment_in_memory (phdr : Elf_Phdr) : Prop :=
  loadable phdr -> 0 <= p_vaddr phdr /\ 0 <= p_memsz phdr
                   /\ p_vaddr phdr + p_memsz phdr < modulus.


(** ** The saved context of the x86-64 build (HAVE_I386, 8-byte pointers)

    [GumCpuContext] is [GumX64CpuContext], seventeen [guint64] fields;
    [uc->uc_mcontext.gregs] is an array of [NGREG] values of the signed type
    [greg_t], indexed by the REG_ constants of <sys/ucontext.h>. The array is
    a list here; the code indexes it with constants below [NGREG] only. *)
Module X64.

Record GumCpuContext := {
  rip : Z;
  r15 : Z; r14 : Z; r13 : Z; r12 : Z; r11 : Z; r10 : Z; r9 : Z; r8 : Z;
  rdi : Z; rsi : Z; rbp : Z; rsp : Z; rbx : Z; rdx : Z; rcx : Z; rax : Z
}.

Definition NGREG : nat := 23.
Definition REG_R8 : nat := 0.
Definition REG_R9 : nat := 1.
Definition REG_R10 : nat := 2.
Definition REG_R11 : nat := 3.
Definition REG_R12 : nat := 4.
Definition REG_R13 : nat := 5.
Definition REG_R14 : nat := 6.
Definition REG_R15 : nat := 7.
Definition REG_RDI : nat := 8.
Definition REG_RSI : nat := 9.
Definition REG_RBP : nat := 10.
Definition REG_RBX : nat := 11.
Definition REG_RDX : nat := 12.
Definition REG_RAX : nat := 13.
Definition REG_RCX : nat := 14.
Definition REG_RSP : nat := 15.
Definition REG_RIP : nat := 16.

(** Each assignment converts [greg_t] to [guint64]. *)
Definition gum_linux_parse_ucontext (gr : list Z) : GumCpuContext :=
  {| rip := gsize_of (gr !!! REG_RIP);
     r15 := gsize_of (gr !!! REG_R15);
     r14 := gsize_of (gr !!! REG_R14);
     r13 := gsize_of (gr !!! REG_R13);
     r12 := gsize_of (gr !!! REG_R12);
     r11 := gsize_of (gr !!! REG_R11);
     r10 := gsize_of (gr !!! REG_R10);
     r9 := gsize_of (gr !!! REG_R9);
     r8 := gsize_of (gr !!! REG_R8);
     rdi := gsize_of (gr !!! REG_RDI);
     rsi := gsize_of (gr !!! REG_RSI);
     rbp := gsize_of (gr !!! REG_RBP);
     rsp := gsize_of (gr !!! REG_RSP);
     rbx := gsize_of (gr !!! REG_RBX);
     rdx := gsize_of (gr !!! REG_RDX);
     rcx := gsize_of (gr !!! REG_RCX);
     rax := gsize_of (gr !!! REG_RAX) |}.

(** Each assignment converts [guint64] to [greg_t]. *)
Definition gum_linux_unparse_ucontext (ctx : GumCpuContext) (gr : list Z) : list Z :=
  let gr := <[REG_RIP := gssize_of (rip ctx)]> gr in
  let gr := <[REG_R15 := gssize_of (r15 ctx)]> gr in
  let gr := <[REG_R14 := gssize_of (r14 ctx)]> gr in
  let gr := <[REG_R13 := gssize_of (r13 ctx)]> gr in
  let gr := <[REG_R12 := gssize_of (r12 ctx)]> gr in
  let gr := <[REG_R11 := gssize_of (r11 ctx)]> gr in
  let gr := <[REG_R10 := gssize_of (r10 ctx)]> gr in
  let gr := <[REG_R9 := gssize_of (r9 ctx)]> gr in
  let gr := <[REG_R8 := gssize_of (r8 ctx)]> gr in
  let gr := <[REG_RDI := gssize_of (rdi ctx)]> gr in
  let gr := <[REG_RSI := gssize_of (rsi ctx)]> gr in
  let gr := <[REG_RBP := gssize_of (rbp ctx)]> gr in
  let gr := <[REG_RSP := gssize_of (rsp ctx)]> gr in
  let gr := <[REG_RBX := gssize_of (rbx ctx)]> gr in
  let gr := <[REG_RDX := gssize_of (rdx ctx)]> gr in
  let gr := <[REG_RCX := gssize_of (rcx ctx)]> gr in
  <[REG_RAX := gssize_of (rax ctx)]> gr.

(** The values a [guint64] field and a [greg_t] entry can hold. *)
Definition is_guint64 (z : Z) : Prop := 0 <= z < modulus.
Definition is_greg (z : Z) : Prop := - half_modulus <= z < half_modulus.

Definition context_fields (ctx : GumCpuContext) : list Z :=
  [rip ctx; r15 ctx; r14 ctx; r13 ctx; r12 ctx; r11 ctx; r10 ctx; r9 ctx; r8 ctx;
   rdi ctx; rsi ctx; rbp ctx; rsp ctx; rbx ctx; rdx ctx; rcx ctx; rax ctx].

End X64.


(** ** States and inputs of the further examples *)

Definition second_slice : GumCodeSliceElement :=
  {| element_pages := 1%positive; element_index := 1%nat |}.

(** The first slice handed out and freed again. *)
Definition after_free : State Z :=
  state_after (@gum_code_slice_free Z rwx_memory (Ptr first_slice)) after_alloc_slice.

(** The same process on a platform without RWX pages: an allocator of
    1024-byte slices after one allocation, and an allocator whose slices
    take a whole page. *)
Definition rw_memory : GumMemory Z := example_memory false two_images.

Definition rw_initialised : State Z :=
  state_after (@gum_code_allocator_init Z rw_memory 1024) boot.

Definition rw_after_alloc : State Z :=
  state_after (@gum_code_allocator_alloc_slice Z rw_memory) rw_initialised.

Definition rw_after_commit : State Z :=
  state_after (@gum_code_allocator_commit Z rw_memory) rw_after_alloc.

Definition rw_whole_page : State Z :=
  state_after (@gum_code_allocator_init Z rw_memory 4096) boot.

(** The registration of [one_dispatcher]. *)
Definition first_registration : GumCodeDeflectorImpl :=
  {| parent := {| return_address := 0xa0; target := 0xa1; trampoline := 0x10008 |};
     impl_allocator := 1%positive |}.

(** The bytes of [/usr/lib] and of [libc.so]. *)
Definition usr_lib : cstring := [47; 117; 115; 114; 47; 108; 105; 98].
Definition libc_so : cstring := [108; 105; 98; 99; 46; 115; 111].

(** The first twenty bytes of an x86-64 executable. *)
Definition amd64_header : list Z :=
  [0x7f; 0x45; 0x4c; 0x46; 2; 1; 1; 0; 0; 0; 0; 0; 0; 0; 0; 0; 3; 0; 0x3e; 0].

(** A maps file of three lines that the kernel hands over in two reads, the
    first of them interrupted once; the buffer has 16 bytes. *)
Definition maps_chunks : list (list (list Z)) :=
  [[[97; 98]; [99]]; [[100; 101; 102]]].

Definition maps_answers : list read_reply :=
  [ReadError 4; ReadBytes [97; 98; 10; 99; 10]; ReadBytes [100; 101; 102; 10]].

(** An iterator that has returned the line [x] and holds the start [ab] of
    the next one: 16 bytes, the cursors at 2 and 4. *)
Definition pending_iter : GumProcMapsIter :=
  {| iter_fd := 3;
     buffer := [120; 0; 97; 98; 0] ++ repeat 0 11;
     read_cursor := 2;
     write_cursor := 4 |}.

(** The program headers of a small executable loaded at 0x400000. *)
Definition small_executable : list Elf_Phdr :=
  [{| p_type := PT_PHDR; p_offset := 0x40; p_vaddr := 0x400040; p_memsz := 0x2d8 |};
   {| p_type := PT_LOAD; p_offset := 0; p_vaddr := 0x400000; p_memsz := 0x1000 |};
   {| p_type := PT_LOAD; p_offset := 0x2e10; p_vaddr := 0x403e10; p_memsz := 0x248 |}].

(** A header without program headers at 0x7f0000. *)
Definition bare_header : Elf_Ehdr :=
  {| ehdr_address := 0x7f0000; e_phoff := 0x40; program_headers := [] |}.

(** A context and a register array of the x86-64 build. *)
Definition counting_context : X64.GumCpuContext :=
  {| X64.rip := 0x401000;
     X64.r15 := 15; X64.r14 := 14; X64.r13 := 13; X64.r12 := 12; X64.r11 := 11;
     X64.r10 := 10; X64.r9 := 9; X64.r8 := 8;
     X64.rdi := 1; X64.rsi := 2; X64.rbp := 3; X64.rsp := 0x7ffc00000000;
     X64.rbx := 4; X64.rdx := 5; X64.rcx := 6;
     X64.rax := 0xffffffffffffffff |}.

Definition zeroed_gregs : list Z := repeat 0 X64.NGREG.

(** A vector of two entries, AT_PHDR = 3 with a value and AT_NULL. *)
Definition short_auxv : list (Z * Z) := [(3, 0x400040); (0, 0)].

(** The state after [gum_code_deflector_dispatcher_new] for a caller near
    the first image. *)
Definition after_dispatcher_new : State Z :=
  state_after (@gum_code_deflector_dispatcher_new Z rwx_memory near_first_image)
    initialised.

(** A process whose dumpable flag reads 0. *)
Definition not_dumpable_script : list (@Reply pc_only_arch) :=
  [reply 0 0 0; reply 0 0 0; reply 0 0 0].

(** * Facts *)

Section AllocatorFacts.
Context {M : Type} `{GumMemory M}.

Lemma gssize_of_small z : - half_modulus <= z < half_modulus -> gssize_of z = z.
Proof.
  intros Hz. unfold gssize_of.
  assert (Hm : modulus = 2 * half_modulus) by reflexivity.
  assert (Hh : 0 < half_modulus) by reflexivity.
  rewrite Z.mod_small by lia. lia.
Qed.

Lemma gsize_of_small z : 0 <= z < modulus -> gsize_of z = z.
Proof. intros Hz. unfold gsize_of. now rewrite Z.mod_small. Qed.

(** Away from the wrap-around the distance the code computes is the
    mathematical one. *)
Lemma distance_exact a b :
  0 <= a < half_modulus -> 0 <= b < half_modulus ->
  gsize_of (ABS (gssize_of (gssize_of a - gssize_of b))) = Z.abs (a - b).
Proof.
  intros Ha Hb.
  assert (Hm : modulus = 2 * half_modulus) by reflexivity.
  assert (Hh : 0 < half_modulus) by reflexivity.
  rewrite (gssize_of_small a), (gssize_of_small b) by lia.
  rewrite (gssize_of_small (a - b)) by lia.
  unfold ABS. destruct (Z.ltb_spec (a - b) 0).
  - rewrite gssize_of_small by lia. rewrite gsize_of_small by lia. lia.
  - rewrite gsize_of_small by lia. lia.
Qed.

Lemma gum_code_slice_is_near_iff spec slice :
  in_lower_half spec slice ->
  gum_code_slice_is_near slice (Ptr spec) = true <-> within_reach spec slice.
Proof.
  intros (Hn & Hd & Hs & He).
  assert (Hh : 0 < half_modulus) by reflexivity.
  unfold gum_code_slice_is_near, within_reach.
  rewrite (gssize_of_small (slice_data slice)) by lia.
  rewrite <- (gssize_of_small (slice_data slice)) at 1 by lia.
  rewrite distance_exact by lia.
  rewrite <- (gssize_of_small (slice_data slice + slice_size_of slice - 1)) at 1 by lia.
  rewrite (gssize_of_small (gssize_of _)) by (rewrite gssize_of_small; lia).
  rewrite distance_exact by lia.
  rewrite andb_true_iff, !Z.leb_le. reflexivity.
Qed.

Lemma bind_returns {A B} (m : Gum M A) (f : A -> Gum M B) st r :
  gum_bind m f st = Returns r ->
  exists a st', m st = Returns (a, st') /\ f a st' = Returns r.
Proof.
  unfold gum_bind. destruct (m st) as [[a st'] | | |]; try discriminate. eauto.
Qed.

Tactic Notation "inv_bind" hyp(E) "as" simple_intropattern(pat) :=
  apply bind_returns in E; destruct E as pat.

Tactic Notation "inv_ret" hyp(E) :=
  unfold gum_ret in E; inversion E; subst; clear E.

Lemma slices_of_app p l1 l2 : slices_of p (l1 ++ l2) = slices_of p l1 + slices_of p l2.
Proof. induction l1 as [| e l1 IH]; simpl; [reflexivity | rewrite IH; lia]. Qed.

Lemma slices_of_nonneg p l : 0 <= slices_of p l.
Proof. induction l as [| e l IH]; simpl; [lia | destruct (decide _); lia]. Qed.

Lemma slices_of_remove_first p e l :
  e ∈ l ->
  slices_of p (remove_first e l) + (if decide (element_pages e = p) then 1 else 0)
  = slices_of p l.
Proof.
  induction l as [| x l IH]; intros Hin; [inversion Hin |].
  simpl. destruct (decide (e = x)) as [-> | Hne]; [lia |].
  simpl. apply elem_of_cons in Hin as [-> | Hin]; [contradiction |].
  specialize (IH Hin). lia.
Qed.

Lemma load_pages_returns p (st : State M) pages st' :
  load_pages p st = Returns (pages, st') ->
  st' = st /\ pages_heap st !! p = Some pages.
Proof.
  unfold load_pages. destruct (pages_heap st !! p); intros E; inversion E; auto.
Qed.

Lemma load_slice_returns e (st : State M) slice st' :
  load_slice e st = Returns (slice, st') ->
  st' = st /\ exists pages, pages_heap st !! element_pages e = Some pages
                    /\ elements pages !! element_index e = Some slice.
Proof.
  unfold load_slice. intros E. inv_bind E as (pages & st1 & Hload & Hrest).
  apply load_pages_returns in Hload as [-> Hp].
  destruct (elements pages !! element_index e) eqn:Hs; [| discriminate].
  inv_ret Hrest. eauto.
Qed.

Lemma gum_code_pages_unref_spec p (st : State M) st' :
  gum_code_pages_unref p st = Returns (tt, st') ->
  refs st' p = refs st p - 1
  /\ (forall q, q <> p -> refs st' q = refs st q)
  /\ allocator st' = allocator st.
Proof.
  unfold gum_code_pages_unref. intros E. inv_bind E as (pages & st1 & Hload & E).
  apply load_pages_returns in Hload as [-> Hp].
  inv_bind E as ([] & st2 & Hstore & E). unfold store_pages in Hstore. inv_ret Hstore.
  destruct (ref_count pages - 1 =? 0) eqn:Hz.
  - inv_bind E as ([] & st3 & Hfree & E).
    assert (Hfr : allocator st3 = allocator st
                  /\ pages_heap st3
                     = <[p := set_ref_count (ref_count pages - 1) pages]> (pages_heap st)).
    { destruct (segment pages); [unfold call_free_pages in Hfree | unfold emit in Hfree];
        inv_ret Hfree; auto. }
    destruct Hfr as [Ha Hh]. unfold g_slice_free_pages in E. inv_ret E.
    unfold refs. simpl. rewrite Hh, Hp.
    repeat split; auto.
    + rewrite lookup_delete_eq. apply Z.eqb_eq in Hz. lia.
    + intros q Hq. rewrite lookup_delete_ne by auto.
      rewrite lookup_insert_ne by auto. reflexivity.
  - inv_ret E. unfold refs. simpl. rewrite Hp.
    repeat split; auto.
    + rewrite lookup_insert_eq. reflexivity.
    + intros q Hq. rewrite lookup_insert_ne by auto. reflexivity.
Qed.

Lemma unref_each_spec l (st : State M) st' :
  unref_each l st = Returns (tt, st') ->
  (forall p, refs st' p = refs st p - slices_of p l)
  /\ allocator st' = allocator st.
Proof.
  revert st. induction l as [| e l IH]; intros st E; simpl in E.
  - inv_ret E. split; [intros; simpl; lia | reflexivity].
  - inv_bind E as ([] & st1 & Hun & E).
    apply gum_code_pages_unref_spec in Hun as (Hp & Hq & Ha).
    apply IH in E as (Hr & Ha'). split; [| congruence].
    intros p. rewrite Hr. simpl. destruct (decide (element_pages e = p)) as [<- | Hne].
    + rewrite Hp. lia.
    + rewrite Hq by auto. lia.
Qed.


Lemma emit_returns e (st : State M) u st' :
  emit e st = Returns (u, st') ->
  allocator st' = allocator st /\ pages_heap st' = pages_heap st
  /\ trace st' = e :: trace st.
Proof. unfold emit. intros E. inv_ret E. auto. Qed.

Lemma update_self_returns f (st : State M) u st' :
  update_self f st = Returns (u, st') ->
  allocator st' = f (allocator st) /\ pages_heap st' = pages_heap st
  /\ trace st' = trace st /\ backend st' = backend st.
Proof. unfold update_self. intros E. inv_ret E. auto. Qed.

Lemma self_returns (st : State M) a st' :
  self st = Returns (a, st') -> st' = st /\ a = allocator st.
Proof. unfold self. intros E. inv_ret E. auto. Qed.

Lemma realize_each_frame l (st : State M) st' :
  realize_each l st = Returns (tt, st') ->
  allocator st' = allocator st /\ pages_heap st' = pages_heap st.
Proof.
  revert st. induction l as [| p l IH]; intros st E; simpl in E.
  - inv_ret E. auto.
  - inv_bind E as (pages & st1 & Hload & E).
    apply load_pages_returns in Hload as [-> _].
    destruct (segment pages); [discriminate |].
    inv_bind E as ([] & st2 & H1 & E). apply emit_returns in H1 as (Ha1 & Hh1 & _).
    inv_bind E as ([] & st3 & H2 & E). apply emit_returns in H2 as (Ha2 & Hh2 & _).
    apply IH in E as (Ha & Hh). split; congruence.
Qed.

Lemma clear_cache_each_frame l (st : State M) st' :
  clear_cache_each l st = Returns (tt, st') ->
  allocator st' = allocator st /\ pages_heap st' = pages_heap st.
Proof.
  revert st. induction l as [| p l IH]; intros st E; simpl in E.
  - inv_ret E. auto.
  - inv_bind E as (pages & st1 & Hload & E).
    apply load_pages_returns in Hload as [-> _].
    inv_bind E as ([] & st2 & H1 & E). apply emit_returns in H1 as (Ha1 & Hh1 & _).
    apply IH in E as (Ha & Hh). split; congruence.
Qed.

(** What [gum_code_allocator_commit] leaves behind. *)
Lemma gum_code_allocator_commit_spec (st : State M) st' :
  gum_code_allocator_commit st = Returns (tt, st') ->
  uncommitted_pages (allocator st') = []
  /\ dirty_pages (allocator st') = ∅
  /\ slices_per_page (allocator st') = slices_per_page (allocator st)
  /\ (if gum_query_is_rwx_supported
      then free_slices (allocator st') = free_slices (allocator st)
           /\ pages_heap st' = pages_heap st
      else free_slices (allocator st') = []
           /\ forall p, refs st' p = refs st p - slices_of p (free_slices (allocator st))).
Proof.
  unfold gum_code_allocator_commit. intros E.
  inv_bind E as (a0 & st1 & Hself & E). apply self_returns in Hself as [-> ->].
  inv_bind E as ([] & st2 & Hreal & E). apply realize_each_frame in Hreal as (Ha2 & Hh2).
  inv_bind E as ([] & st3 & Hup & E). apply update_self_returns in Hup as (Ha3 & Hh3 & _).
  inv_bind E as ([] & st4 & Hcl & E). apply clear_cache_each_frame in Hcl as (Ha4 & Hh4).
  inv_bind E as ([] & st5 & Hup & E). apply update_self_returns in Hup as (Ha5 & Hh5 & _).
  destruct gum_query_is_rwx_supported.
  - inv_ret E. rewrite Ha5, Ha4, Ha3, Ha2. simpl.
    repeat split; congruence.
  - inv_bind E as (a1 & st6 & Hself & E). apply self_returns in Hself as [-> ->].
    inv_bind E as ([] & st7 & Hun & E). apply unref_each_spec in Hun as (Hrefs & Ha7).
    apply update_self_returns in E as (Ha8 & Hh8 & _).
    rewrite Ha8, Ha7, Ha5, Ha4, Ha3, Ha2. simpl. repeat split.
    intros p. unfold refs at 1. rewrite Hh8. fold (refs st7 p). rewrite Hrefs.
    rewrite Ha5, Ha4, Ha3, Ha2. simpl.
    unfold refs. rewrite Hh5, Hh4, Hh3, Hh2. reflexivity.
Qed.


(** The scan either passes every link (each fails the test) or stops at the
    first link that passes it and unlinks it. *)
Lemma scan_free_slices_spec spec alignment cur before (st : State M) r st' :
  scan_free_slices spec alignment before cur st = Returns (r, st') ->
  (r = NULL /\ st' = st /\ Forall (rejected spec alignment st) cur)
  \/ (exists e passed next slice,
        r = Ptr e /\ cur = passed ++ e :: next
        /\ Forall (rejected spec alignment st) passed
        /\ load_slice e st = Returns (slice, st)
        /\ gum_code_slice_is_near slice spec = true
        /\ gum_code_slice_is_aligned slice alignment = true
        /\ free_slices (allocator st') = before ++ passed ++ next
        /\ pages_heap st' = pages_heap st
        /\ slices_per_page (allocator st') = slices_per_page (allocator st)
        /\ slice_size (allocator st') = slice_size (allocator st)
        /\ backend st' = backend st
        /\ trace st' = trace st).
Proof.
  revert before st. induction cur as [| e cur IH]; intros before st E; simpl in E.
  - inv_ret E. left. auto.
  - inv_bind E as (slice & st1 & Hload & E).
    destruct (load_slice_returns _ _ _ _ Hload) as [-> _].
    destruct (gum_code_slice_is_near slice spec
              && gum_code_slice_is_aligned slice alignment) eqn:Htest.
    + inv_bind E as ([] & st2 & Hup & E).
      apply update_self_returns in Hup as (Ha2 & Hh2 & Ht2 & Hb2).
      inv_bind E as ([] & st3 & Hup & E).
      apply update_self_returns in Hup as (Ha3 & Hh3 & Ht3 & Hb3).
      inv_ret E. right. exists e, [], cur, slice.
      apply andb_true_iff in Htest as [Hnear Halign].
      rewrite Ha3, Ha2. simpl. repeat split; auto; congruence.
    + assert (Hrej : rejected spec alignment st e) by (exists slice; auto).
      apply IH in E
        as [(-> & -> & Hall)
           | (e' & passed & next & slice' & -> & -> & Hpass & Hl & Hn & Hal & Hfree & Hrest)].
      * left. repeat split; auto.
      * right. exists e', (e :: passed), next, slice'.
        rewrite Hfree, <- app_assoc. simpl. repeat split; auto; apply Hrest.
Qed.

Lemma slices_of_carve q pages n free :
  slices_of q (carve_slices pages n free)
  = (if decide (pages = q) then Z.of_nat (Nat.pred n) else 0) + slices_of q free.
Proof.
  revert free. induction n as [| n IH]; intros free; simpl.
  - destruct (decide _); lia.
  - rewrite IH. destruct n as [| n]; simpl.
    + destruct (decide _); lia.
    + destruct (decide (pages = q)); lia.
Qed.


Lemma alloc_batch_memory_frame spec (st : State M) got st' :
  alloc_batch_memory spec st = Returns (got, st') ->
  allocator st' = allocator st /\ pages_heap st' = pages_heap st
  /\ trace st' = trace st.
Proof.
  unfold alloc_batch_memory. intros E.
  destruct gum_query_is_rwx_supported; [destruct spec as [| spec'] |].
  - destruct (gum_alloc_n_pages _ _ _) as [[data |] m]; [| discriminate]. inv_ret E. auto.
  - destruct (gum_try_alloc_n_pages_near _ _ _ _) as [data m]. inv_ret E. auto.
  - destruct (gum_code_segment_new _ _ _) as [[| seg] m]; inv_ret E; auto.
Qed.

(** A fresh batch: the page is recorded with [ref_count = slices_per_page],
    slice 0 is the result and the other slices go to the free list. *)
Lemma gum_code_allocator_try_alloc_batch_near_spec spec (st : State M) r st' :
  gum_code_allocator_try_alloc_batch_near spec st = Returns (r, st') ->
  exists got st1,
    alloc_batch_memory spec st = Returns (got, st1)
    /\ match got with
       | None => r = NULL /\ st' = st1
       | Some (seg, data) =>
           let pages := fresh (dom (pages_heap st)) in
           let n := Z.to_nat (slices_per_page (allocator st)) in
           r = match n with
               | O => NULL
               | S _ => Ptr {| element_pages := pages; element_index := O |}
               end
           /\ pages_heap st'
              = <[pages := {| ref_count := slices_per_page (allocator st);
                              segment := seg;
                              pages_data := data;
                              pages_size := 1 * gum_query_page_size;
                              pages_allocator := self_handle st;
                              elements := map (slice_at data (slice_size (allocator st)))
                                              (seq 0 n) |}]> (pages_heap st)
           /\ free_slices (allocator st')
              = carve_slices pages n (free_slices (allocator st))
           /\ slice_size (allocator st') = slice_size (allocator st)
           /\ slices_per_page (allocator st') = slices_per_page (allocator st)
       end.
Proof.
  unfold gum_code_allocator_try_alloc_batch_near. intros E.
  inv_bind E as (got & st1 & Hmem & E). exists got, st1. split; [exact Hmem |].
  destruct (alloc_batch_memory_frame _ _ _ _ Hmem) as (Ha1 & Hh1 & _).
  assert (Hs1 : self_handle st1 = self_handle st).
  { clear E. unfold alloc_batch_memory in Hmem.
    destruct gum_query_is_rwx_supported; [destruct spec as [| spec'] |].
    - destruct (gum_alloc_n_pages _ _ _) as [[data |] m]; [| discriminate].
      inv_ret Hmem. reflexivity.
    - destruct (gum_try_alloc_n_pages_near _ _ _ _) as [data m]. inv_ret Hmem. reflexivity.
    - destruct (gum_code_segment_new _ _ _) as [[| seg] m]; inv_ret Hmem; reflexivity. }
  destruct got as [[seg data] |]; [| inv_ret E; auto].
  inv_bind E as (a & st2 & Hself & E). apply self_returns in Hself as [-> ->].
  inv_bind E as (pages & st2 & Hfresh & E). unfold g_slice_alloc_pages in Hfresh.
  inv_ret Hfresh.
  inv_bind E as (me & st3 & Hme & E). inv_ret Hme.
  inv_bind E as ([] & st4 & Hstore & E). unfold store_pages in Hstore. inv_ret Hstore.
  inv_bind E as ([] & st5 & Hup & E). apply update_self_returns in Hup as (Ha5 & Hh5 & _).
  inv_bind E as ([] & st6 & Hunc & E).
  assert (H6 : free_slices (allocator st6) = free_slices (allocator st5)
               /\ slice_size (allocator st6) = slice_size (allocator st5)
               /\ slices_per_page (allocator st6) = slices_per_page (allocator st5)
               /\ pages_heap st6 = pages_heap st5).
  { destruct gum_query_is_rwx_supported.
    - inv_ret Hunc. auto.
    - apply update_self_returns in Hunc as (Ha6 & Hh6 & _). rewrite Ha6. auto. }
  destruct H6 as (Hf6 & Hss6 & Hsp6 & Hh6).
  inv_bind E as ([] & st7 & Hup & E). apply update_self_returns in Hup as (Ha7 & Hh7 & _).
  inv_ret E. cbn zeta.
  rewrite Ha7. simpl. rewrite Hf6, Hss6, Hsp6, Ha5, Hh7, Hh6, Hh5. simpl.
  rewrite Ha1, Hh1, Hs1. auto.
Qed.


Lemma gum_code_slice_free_spec e (st : State M) st' :
  gum_code_slice_free (Ptr e) st = Returns (tt, st') ->
  slices_per_page (allocator st') = slices_per_page (allocator st)
  /\ if gum_query_is_rwx_supported
     then free_slices (allocator st') = e :: free_slices (allocator st)
          /\ pages_heap st' = pages_heap st
     else free_slices (allocator st') = free_slices (allocator st)
          /\ refs st' (element_pages e) = refs st (element_pages e) - 1
          /\ forall q, q <> element_pages e -> refs st' q = refs st q.
Proof.
  unfold gum_code_slice_free. intros E.
  inv_bind E as (slice & st1 & Hload & E).
  apply load_slice_returns in Hload as [-> _].
  destruct gum_query_is_rwx_supported.
  - inv_bind E as (pages & st1 & Hload & E).
    apply load_pages_returns in Hload as [-> _].
    apply update_self_returns in E as (Ha & Hh & _). rewrite Ha. simpl. auto.
  - apply gum_code_pages_unref_spec in E as (Hp & Hq & Ha). rewrite Ha. auto.
Qed.

Lemma refs_same_heap (st st' : State M) p :
  pages_heap st' = pages_heap st -> refs st' p = refs st p.
Proof. unfold refs. now intros ->. Qed.

Lemma gum_code_allocator_try_alloc_slice_near_cases spec alignment (st : State M) r st' :
  gum_code_allocator_try_alloc_slice_near spec alignment st = Returns (r, st') ->
  (exists e passed next slice,
      r = Ptr e /\ free_slices (allocator st) = passed ++ e :: next
      /\ Forall (rejected spec alignment st) passed
      /\ load_slice e st = Returns (slice, st)
      /\ gum_code_slice_is_near slice spec = true
      /\ gum_code_slice_is_aligned slice alignment = true
      /\ free_slices (allocator st') = passed ++ next
      /\ pages_heap st' = pages_heap st
      /\ slices_per_page (allocator st') = slices_per_page (allocator st))
  \/ (Forall (rejected spec alignment st) (free_slices (allocator st))
      /\ gum_code_allocator_try_alloc_batch_near spec st = Returns (r, st')).
Proof.
  unfold gum_code_allocator_try_alloc_slice_near. intros E.
  inv_bind E as (a & st1 & Hself & E). apply self_returns in Hself as [-> ->].
  inv_bind E as (found & st1 & Hscan & E).
  apply scan_free_slices_spec in Hscan
    as [(-> & -> & Hall)
       | (e & passed & next & slice & -> & Hcur & Hpass & Hl & Hn & Hal & Hfree & Hh & Hk & _)].
  - right. auto.
  - inv_ret E. left. exists e, passed, next, slice. simpl in Hfree. auto 10.
Qed.

(** Every operation keeps the count. *)
Lemma batch_invariant_reachable (st : State M) live :
  reachable st live -> batch_invariant st live.
Proof.
  induction 1 as [st0 size st Hempty Hinit
                 | st live spec alignment e st' Hreach IH Halloc
                 | st live spec alignment st' Hreach IH Halloc
                 | st live e st' Hreach IH Hin Hfree
                 | st live st' Hreach IH Hcommit].
  - unfold gum_code_allocator_init in Hinit.
    destruct (size =? 0); [discriminate Hinit |].
    apply update_self_returns in Hinit as (Ha & Hh & _).
    split.
    + rewrite Ha. simpl. unfold gsize_of. apply Z.mod_pos_bound. reflexivity.
    + intros p. unfold refs. rewrite Hh, Hempty, lookup_empty, Ha. reflexivity.
  - destruct IH as [Hk IH].
    apply gum_code_allocator_try_alloc_slice_near_cases in Halloc
      as [(e' & passed & next & slice & Hr & Hold & _ & _ & _ & _ & Hnew & Hh & Hk')
         | (_ & Hbatch)].
    + inversion Hr; subst e'. split; [congruence |].
      intros p. rewrite (refs_same_heap _ _ _ Hh), IH, Hold, Hnew.
      rewrite !slices_of_app. simpl. lia.
    + apply gum_code_allocator_try_alloc_batch_near_spec in Hbatch
        as (got & st1 & Hmem & Hgot).
      destruct got as [[seg data] |]; [| destruct Hgot; discriminate].
      cbn zeta in Hgot. destruct Hgot as (Hr & Hh & Hf & _ & Hk').
      split; [congruence |].
      destruct (Z.to_nat (slices_per_page (allocator st))) as [| n] eqn:Hn;
        [discriminate |].
      inversion Hr; subst e. intros p. rewrite Hf, slices_of_carve. simpl.
      unfold refs at 1. rewrite Hh.
      destruct (decide (fresh (dom (pages_heap st)) = p)) as [<- | Hne].
      * rewrite lookup_insert_eq. simpl.
        assert (Hzero : refs st (fresh (dom (pages_heap st))) = 0).
        { unfold refs.
          rewrite (proj1 (not_elem_of_dom (pages_heap st) _) (is_fresh _)). reflexivity. }
        rewrite IH in Hzero.
        pose proof (slices_of_nonneg (fresh (dom (pages_heap st))) live).
        pose proof (slices_of_nonneg (fresh (dom (pages_heap st)))
                      (free_slices (allocator st))).
        lia.
      * rewrite lookup_insert_ne by auto. fold (refs st p). rewrite IH. lia.
  - destruct IH as [Hk IH].
    apply gum_code_allocator_try_alloc_slice_near_cases in Halloc
      as [(e' & passed & next & slice & Hr & _) | (_ & Hbatch)]; [discriminate |].
    apply gum_code_allocator_try_alloc_batch_near_spec in Hbatch
      as (got & st1 & Hmem & Hgot).
    apply alloc_batch_memory_frame in Hmem as (Ha1 & Hh1 & _).
    destruct got as [[seg data] |].
    + cbn zeta in Hgot. destruct Hgot as (Hr & Hh & Hf & _ & Hk').
      split; [congruence |].
      destruct (Z.to_nat (slices_per_page (allocator st))) as [| n] eqn:Hn;
        [| discriminate].
      intros p. rewrite Hf. simpl. unfold refs at 1. rewrite Hh.
      destruct (decide (fresh (dom (pages_heap st)) = p)) as [<- | Hne].
      * rewrite lookup_insert_eq. simpl.
        assert (Hzero : refs st (fresh (dom (pages_heap st))) = 0).
        { unfold refs.
          rewrite (proj1 (not_elem_of_dom (pages_heap st) _) (is_fresh _)). reflexivity. }
        rewrite IH in Hzero. lia.
      * rewrite lookup_insert_ne by auto. fold (refs st p). apply IH.
    + destruct Hgot as [_ ->]. split; [congruence |].
      intros p. rewrite (refs_same_heap _ _ _ Hh1), Ha1. apply IH.
  - destruct IH as [Hk IH].
    apply gum_code_slice_free_spec in Hfree as (Hk' & Hfree).
    split; [congruence |]. intros p.
    pose proof (slices_of_remove_first p e live Hin) as Hrem.
    destruct gum_query_is_rwx_supported.
    + destruct Hfree as (Hf & Hh). rewrite (refs_same_heap _ _ _ Hh), Hf, IH. simpl. lia.
    + destruct Hfree as (Hf & Hp & Hq). rewrite Hf.
      destruct (decide (element_pages e = p)) as [<- | Hne].
      * rewrite Hp, IH. lia.
      * rewrite Hq by auto. rewrite IH. lia.
  - destruct IH as [Hk IH].
    apply gum_code_allocator_commit_spec in Hcommit as (_ & _ & Hk' & Hc).
    split; [congruence |]. intros p.
    destruct gum_query_is_rwx_supported.
    + destruct Hc as (Hf & Hh). rewrite (refs_same_heap _ _ _ Hh), Hf. apply IH.
    + destruct Hc as (Hf & Hrefs). rewrite Hrefs, Hf, IH. simpl. lia.
Qed.


Lemma gum_code_pages_unref_shrinks p (st : State M) st' :
  gum_code_pages_unref p st = Returns (tt, st') -> heap_shrinks st st'.
Proof.
  unfold gum_code_pages_unref. intros E. inv_bind E as (pages & st1 & Hload & E).
  apply load_pages_returns in Hload as [-> Hp].
  inv_bind E as ([] & st2 & Hstore & E). unfold store_pages in Hstore. inv_ret Hstore.
  assert (Hins : forall q pages',
            <[p := set_ref_count (ref_count pages - 1) pages]> (pages_heap st) !! q
            = Some pages' ->
            exists pages0, pages_heap st !! q = Some pages0
                           /\ elements pages' = elements pages0).
  { intros q pages' Hq. destruct (decide (p = q)) as [<- | Hne].
    - rewrite lookup_insert_eq in Hq. inversion Hq; subst. eauto.
    - rewrite lookup_insert_ne in Hq by auto. eauto. }
  destruct (ref_count pages - 1 =? 0).
  - inv_bind E as ([] & st3 & Hfree & E).
    assert (Hh : pages_heap st3
                 = <[p := set_ref_count (ref_count pages - 1) pages]> (pages_heap st)).
    { destruct (segment pages); [unfold call_free_pages in Hfree | unfold emit in Hfree];
        inv_ret Hfree; auto. }
    unfold g_slice_free_pages in E. inv_ret E.
    intros q pages' Hq. simpl in Hq. rewrite Hh in Hq.
    destruct (decide (p = q)) as [<- | Hne].
    + rewrite lookup_delete_eq in Hq. discriminate.
    + rewrite lookup_delete_ne in Hq by auto. eauto.
  - inv_ret E. intros q pages' Hq. simpl in Hq. eauto.
Qed.

Lemma unref_each_shrinks l (st : State M) st' :
  unref_each l st = Returns (tt, st') -> heap_shrinks st st'.
Proof.
  revert st. induction l as [| e l IH]; intros st E; simpl in E.
  - inv_ret E. intros q pages' Hq. eauto.
  - inv_bind E as ([] & st1 & Hun & E).
    apply gum_code_pages_unref_shrinks in Hun. apply IH in E.
    intros q pages' Hq. destruct (E _ _ Hq) as (pages1 & Hq1 & He1).
    destruct (Hun _ _ Hq1) as (pages0 & Hq0 & He0). exists pages0. split; congruence.
Qed.

Lemma slices_of_elem e l : e ∈ l -> 1 <= slices_of (element_pages e) l.
Proof.
  induction l as [| x l IH]; intros Hin; [inversion Hin |].
  simpl. apply elem_of_cons in Hin as [<- | Hin].
  - rewrite decide_True by reflexivity. pose proof (slices_of_nonneg (element_pages e) l). lia.
  - specialize (IH Hin). destruct (decide _); lia.
Qed.

Lemma elem_of_carve e pages n free :
  e ∈ carve_slices pages n free ->
  e ∈ free \/ (element_pages e = pages /\ (element_index e < n)%nat).
Proof.
  revert free. induction n as [| n IH]; intros free Hin; simpl in Hin; [auto |].
  apply IH in Hin as [Hin | [Hp Hi]]; [| right; split; [auto | lia]].
  destruct n as [| n]; [auto |].
  apply elem_of_cons in Hin as [-> | Hin]; [right; simpl; split; [auto | lia] | auto].
Qed.

Lemma elem_of_remove_first (e x : GumCodeSliceElement) l :
  x ∈ remove_first e l -> x ∈ l.
Proof.
  induction l as [| y l IH]; simpl; [auto |].
  destruct (decide (e = y)); intros Hin.
  - apply elem_of_cons. auto.
  - apply elem_of_cons in Hin as [-> | Hin]; apply elem_of_cons; auto.
Qed.

Lemma slices_loadable_reachable (st : State M) live :
  reachable st live -> slices_loadable st live.
Proof.
  induction 1 as [st0 size st Hempty Hinit
                 | st live spec alignment e st' Hreach IH Halloc
                 | st live spec alignment st' Hreach IH Halloc
                 | st live e st' Hreach IH Hin Hfree
                 | st live st' Hreach IH Hcommit].
  all: unfold slices_loadable in *.
  - unfold gum_code_allocator_init in Hinit.
    destruct (size =? 0); [discriminate Hinit |].
    apply update_self_returns in Hinit as (Ha & Hh & _).
    split.
    + intros p pages Hp. rewrite Hh, Hempty, lookup_empty in Hp. discriminate.
    + intros e He. rewrite Ha in He. simpl in He. inversion He.
  - destruct IH as [Hlen Hidx].
    apply gum_code_allocator_try_alloc_slice_near_cases in Halloc
      as [(e' & passed & next & slice & Hr & Hold & _ & _ & _ & _ & Hnew & Hh & Hk')
         | (_ & Hbatch)].
    + inversion Hr; subst e'. split.
      * intros p pages Hp. rewrite Hh in Hp. rewrite Hk'. eauto.
      * intros x Hx. rewrite Hk'. apply Hidx. rewrite Hold.
        rewrite Hnew in Hx. set_solver.
    + apply gum_code_allocator_try_alloc_batch_near_spec in Hbatch
        as (got & st1 & Hmem & Hgot).
      destruct got as [[seg data] |]; [| destruct Hgot; discriminate].
      cbn zeta in Hgot. destruct Hgot as (Hr & Hh & Hf & _ & Hk').
      destruct (Z.to_nat (slices_per_page (allocator st))) as [| n] eqn:Hn;
        [discriminate |].
      inversion Hr; subst e. rewrite Hk', Hn. split.
      * intros p pages Hp. rewrite Hh in Hp.
        destruct (decide (fresh (dom (pages_heap st)) = p)) as [<- | Hne].
        -- rewrite lookup_insert_eq in Hp. inversion Hp; subst. simpl.
           rewrite length_map, length_seq. reflexivity.
        -- rewrite lookup_insert_ne in Hp by auto. eauto.
      * intros x Hx. rewrite Hf in Hx.
        apply elem_of_app in Hx as [Hx | Hx].
        -- apply elem_of_cons in Hx as [-> | Hx]; [simpl; lia |].
           apply Hidx. set_solver.
        -- apply elem_of_carve in Hx as [Hx | [_ Hx]]; [| exact Hx].
           apply Hidx. set_solver.
  - destruct IH as [Hlen Hidx].
    apply gum_code_allocator_try_alloc_slice_near_cases in Halloc
      as [(e' & passed & next & slice & Hr & _) | (_ & Hbatch)]; [discriminate |].
    apply gum_code_allocator_try_alloc_batch_near_spec in Hbatch
      as (got & st1 & Hmem & Hgot).
    apply alloc_batch_memory_frame in Hmem as (Ha1 & Hh1 & _).
    destruct got as [[seg data] |].
    + cbn zeta in Hgot. destruct Hgot as (Hr & Hh & Hf & _ & Hk').
      destruct (Z.to_nat (slices_per_page (allocator st))) as [| n] eqn:Hn;
        [| discriminate].
      rewrite Hk', Hn. split.
      * intros p pages Hp. rewrite Hh in Hp.
        destruct (decide (fresh (dom (pages_heap st)) = p)) as [<- | Hne].
        -- rewrite lookup_insert_eq in Hp. inversion Hp; subst. reflexivity.
        -- rewrite lookup_insert_ne in Hp by auto. eauto.
      * intros x Hx. rewrite Hf in Hx. simpl in Hx. auto.
    + destruct Hgot as [_ ->]. rewrite Ha1. split.
      * intros p pages Hp. rewrite Hh1 in Hp. eauto.
      * exact Hidx.
  - destruct IH as [Hlen Hidx].
    pose proof Hfree as Hfree0.
    apply gum_code_slice_free_spec in Hfree as (Hk' & Hfree).
    rewrite Hk'. split.
    + intros p pages Hp.
      assert (Hshr : heap_shrinks st st').
      { unfold gum_code_slice_free in Hfree0.
        inv_bind Hfree0 as (slice & st1 & Hload & E).
        apply load_slice_returns in Hload as [-> _].
        destruct gum_query_is_rwx_supported.
        - destruct Hfree as [_ Hh]. intros q pages' Hq. rewrite Hh in Hq. eauto.
        - apply gum_code_pages_unref_shrinks in E. exact E. }
      destruct (Hshr _ _ Hp) as (pages0 & Hp0 & He0). rewrite He0. eauto.
    + intros x Hx. apply Hidx.
      destruct gum_query_is_rwx_supported.
      * destruct Hfree as [Hf _]. rewrite Hf in Hx.
        apply elem_of_app in Hx as [Hx | Hx].
        -- apply elem_of_remove_first in Hx. set_solver.
        -- apply elem_of_cons in Hx as [-> | Hx]; set_solver.
      * destruct Hfree as [Hf _]. rewrite Hf in Hx.
        apply elem_of_app in Hx as [Hx | Hx]; [| set_solver].
        apply elem_of_remove_first in Hx. set_solver.
  - destruct IH as [Hlen Hidx].
    pose proof Hcommit as Hcommit0.
    apply gum_code_allocator_commit_spec in Hcommit as (_ & _ & Hk' & Hc).
    rewrite Hk'. split.
    + intros p pages Hp.
      assert (Hshr : heap_shrinks st st').
      { unfold gum_code_allocator_commit in Hcommit0.
        inv_bind Hcommit0 as (a0 & st1 & Hself & E). apply self_returns in Hself as [-> ->].
        inv_bind E as ([] & st2 & Hreal & E).
        apply realize_each_frame in Hreal as (Ha2 & Hh2).
        inv_bind E as ([] & st3 & Hup & E).
        apply update_self_returns in Hup as (Ha3 & Hh3 & _).
        inv_bind E as ([] & st4 & Hcl & E).
        apply clear_cache_each_frame in Hcl as (Ha4 & Hh4).
        inv_bind E as ([] & st5 & Hup & E).
        apply update_self_returns in Hup as (Ha5 & Hh5 & _).
        assert (H5 : pages_heap st5 = pages_heap st) by congruence.
        destruct gum_query_is_rwx_supported.
        - inv_ret E. intros q pages' Hq. rewrite H5 in Hq. eauto.
        - inv_bind E as (a1 & st6 & Hself & E). apply self_returns in Hself as [-> ->].
          inv_bind E as ([] & st7 & Hun & E). apply unref_each_shrinks in Hun.
          apply update_self_returns in E as (_ & Hh8 & _).
          intros q pages' Hq. rewrite Hh8 in Hq.
          destruct (Hun _ _ Hq) as (pages0 & Hq0 & He0). rewrite H5 in Hq0. eauto. }
      destruct (Hshr _ _ Hp) as (pages0 & Hp0 & He0). rewrite He0. eauto.
    + intros x Hx. apply Hidx.
      destruct gum_query_is_rwx_supported.
      * destruct Hc as [Hf _]. rewrite Hf in Hx. exact Hx.
      * destruct Hc as [Hf _]. rewrite Hf in Hx. set_solver.
Qed.

(** In a reachable state every slice on the free list can be read. *)
Lemma free_slices_loadable (st : State M) live :
  reachable st live ->
  Forall (fun e => exists slice, load_slice e st = Returns (slice, st))
    (free_slices (allocator st)).
Proof.
  intros Hreach.
  destruct (batch_invariant_reachable _ _ Hreach) as [_ Hinv].
  destruct (slices_loadable_reachable _ _ Hreach) as [Hlen Hidx].
  apply Forall_forall. intros e He.
  pose proof (slices_of_elem e _ He) as Hone.
  pose proof (slices_of_nonneg (element_pages e) live) as Hlive.
  specialize (Hinv (element_pages e)). unfold refs in Hinv.
  destruct (pages_heap st !! element_pages e) as [pages |] eqn:Hp; [| lia].
  assert (Hi : (element_index e < length (elements pages))%nat).
  { rewrite (Hlen _ _ Hp). apply Hidx. set_solver. }
  apply lookup_lt_is_Some_2 in Hi as [slice Hs].
  exists slice. unfold load_slice, gum_bind, load_pages. rewrite Hp, Hs. reflexivity.
Qed.

Lemma alloc_slice_unconstrained (st : State M) :
  Forall (fun e => exists slice, load_slice e st = Returns (slice, st))
    (free_slices (allocator st)) ->
  1 <= slices_per_page (allocator st) ->
  match gum_code_allocator_alloc_slice st with
  | Returns (Ptr e, st') => True
  | Returns (NULL, st') =>
      free_slices (allocator st) = []
      /\ gum_query_is_rwx_supported = false
      /\ fst (gum_code_segment_new (1 * gum_query_page_size) NULL (backend st)) = NULL
  | Aborts =>
      free_slices (allocator st) = []
      /\ gum_query_is_rwx_supported = true
      /\ fst (gum_alloc_n_pages 1 GUM_PAGE_RWX (backend st)) = None
  | Faults | Unfinished => False
  end.
Proof.
  intros Hload Hspp.
  unfold gum_code_allocator_alloc_slice, gum_code_allocator_try_alloc_slice_near.
  destruct (free_slices (allocator st)) as [| e rest] eqn:Hfree.
  - unfold gum_code_allocator_try_alloc_batch_near, alloc_batch_memory.
    destruct (Z.to_nat (slices_per_page (allocator st))) as [| n] eqn:Hn; [lia |].
    cbv [gum_bind self gum_ret]. rewrite Hfree. cbn [scan_free_slices].
    destruct gum_query_is_rwx_supported eqn:Hrwx.
    + destruct (gum_alloc_n_pages 1 GUM_PAGE_RWX (backend st)) as [[data |] m] eqn:Hp;
        cbn; rewrite Hp; cbn; [rewrite Hn; exact I | auto].
    + destruct (gum_code_segment_new (1 * gum_query_page_size) NULL (backend st))
        as [[| seg] m] eqn:Hp; cbn; rewrite Hp; cbn; [auto | rewrite Hn; exact I].
  - inversion Hload as [| e' rest' [slice Hslice] _]; subst.
    cbv [gum_bind self]. rewrite Hfree. cbn [scan_free_slices].
    cbv [gum_bind]. rewrite Hslice. cbn. exact I.
Qed.

(** C4, amended. In every state the allocator can reach, the reference
    count of a batch is the number of its slices that are handed out plus
    the number of its slices on the free list; and no slice, handed out or
    free, belongs to a batch that is gone. Batch creation, allocation, free
    and commit all keep this. *)
Theorem ref_count_is_live_plus_free (st : State M) live p :
  reachable st live ->
  match pages_heap st !! p with
  | Some pages =>
      ref_count pages = slices_of p live + slices_of p (free_slices (allocator st))
  | None => slices_of p live = 0 /\ slices_of p (free_slices (allocator st)) = 0
  end.
Proof.
  intros Hreach. destruct (batch_invariant_reachable _ _ Hreach) as [_ Hinv].
  specialize (Hinv p). unfold refs in Hinv.
  destruct (pages_heap st !! p); [exact Hinv |].
  pose proof (slices_of_nonneg p live).
  pose proof (slices_of_nonneg p (free_slices (allocator st))). lia.
Qed.

(** The two paths of a constrained allocation. A constrained allocation
    that returns a slice either took
    it from the free list, and then the slice passed
    [gum_code_slice_is_near]: its first and last byte are within
    [max_distance] of [near_address]; or it carved it from a fresh batch, and
    then the slice is the first [slice_size] bytes of the page that the
    memory layer returned for the spec, handed out without that test. In a
    reachable state with at least one slice per page an unconstrained
    allocation returns a slice unless the free list is empty and the memory
    layer fails: then it returns NULL (no segment) or does not return (no
    page); it never reads a batch that is gone. *)
Theorem near_slice_is_tested_or_fresh (st : State M) :
  (forall spec alignment e st',
     gum_code_allocator_try_alloc_slice_near (Ptr spec) alignment st
     = Returns (Ptr e, st') ->
     (e ∈ free_slices (allocator st)
      /\ exists slice,
           load_slice e st = Returns (slice, st)
           /\ gum_code_slice_is_near slice (Ptr spec) = true
           /\ (in_lower_half spec slice -> within_reach spec slice))
     \/ (Forall (rejected (Ptr spec) alignment st) (free_slices (allocator st))
         /\ exists seg data st1,
              alloc_batch_memory (Ptr spec) st = Returns (Some (seg, data), st1)
              /\ load_slice e st'
                 = Returns ({| slice_data := data;
                               slice_size_of := slice_size (allocator st) |}, st')))
  /\ (forall live,
        reachable st live ->
        1 <= slices_per_page (allocator st) ->
        match gum_code_allocator_alloc_slice st with
        | Returns (Ptr e, st') => True
        | Returns (NULL, st') =>
            free_slices (allocator st) = []
            /\ gum_query_is_rwx_supported = false
            /\ fst (gum_code_segment_new (1 * gum_query_page_size) NULL (backend st)) = NULL
        | Aborts =>
            free_slices (allocator st) = []
            /\ gum_query_is_rwx_supported = true
            /\ fst (gum_alloc_n_pages 1 GUM_PAGE_RWX (backend st)) = None
        | Faults | Unfinished => False
        end).
Proof.
  split.
  - intros spec alignment e st' Halloc.
    apply gum_code_allocator_try_alloc_slice_near_cases in Halloc
      as [(e' & passed & next & slice & Hr & Hold & _ & Hload & Hnear & _)
         | (Hrej & Hbatch)].
    + inversion Hr; subst e'. left. split; [rewrite Hold; set_solver |].
      exists slice. split; [exact Hload |]. split; [exact Hnear |].
      intros Hlow. apply gum_code_slice_is_near_iff; assumption.
    + right. split; [exact Hrej |].
      apply gum_code_allocator_try_alloc_batch_near_spec in Hbatch
        as (got & st1 & Hmem & Hgot).
      destruct got as [[seg data] |]; [| destruct Hgot; discriminate].
      cbn zeta in Hgot. destruct Hgot as (Hr & Hh & _).
      destruct (Z.to_nat (slices_per_page (allocator st))) as [| n] eqn:Hn;
        [discriminate |].
      inversion Hr; subst e. exists seg, data, st1. split; [exact Hmem |].
      unfold load_slice, gum_bind, load_pages. simpl.
      rewrite Hh, lookup_insert_eq. simpl.
      unfold slice_at. simpl. rewrite Z.add_0_r. reflexivity.
  - intros live Hreach Hspp.
    apply alloc_slice_unconstrained; [| exact Hspp].
    eapply free_slices_loadable. exact Hreach.
Qed.

(** C9. When a call of [gum_code_allocator_commit] has returned, the set
    of dirty batches and the list of uncommitted batches are empty, and a
    second call that follows at once returns without any call into the
    memory layer: no instruction-cache flush. *)
Theorem second_commit_flushes_nothing (st st1 : State M) :
  gum_code_allocator_commit st = Returns (tt, st1) ->
  dirty_pages (allocator st1) = ∅
  /\ uncommitted_pages (allocator st1) = []
  /\ exists st2,
       gum_code_allocator_commit st1 = Returns (tt, st2)
       /\ trace st2 = trace st1
       /\ cache_flushes (trace st2) = cache_flushes (trace st1).
Proof.
  intros Hfirst.
  apply gum_code_allocator_commit_spec in Hfirst as (Hunc & Hdirty & _ & Hfree).
  split; [exact Hdirty |]. split; [exact Hunc |].
  unfold gum_code_allocator_commit, gum_bind, self. simpl.
  rewrite Hunc. simpl. rewrite Hdirty, elements_empty. simpl.
  destruct gum_query_is_rwx_supported.
  - eexists. split; [reflexivity |]. simpl. auto.
  - destruct Hfree as [Hf _]. simpl. rewrite Hf. simpl.
    eexists. split; [reflexivity |]. simpl. auto.
Qed.

(** C10. [gum_code_slice_free (NULL)] returns and leaves the state as it
    was. [gum_code_deflector_free (NULL)] reads [impl->allocator] through
    the null pointer before it compares [deflector] with NULL. *)
Theorem free_of_null (st : State M) (depth : nat) :
  gum_code_slice_free NULL st = Returns (tt, st)
  /\ gum_code_deflector_free_upto depth NULL st = Faults.
Proof.
  split; [reflexivity |]. unfold gum_code_deflector_free_upto.
  destruct depth; reflexivity.
Qed.

End AllocatorFacts.

(** The states of the examples are reachable. *)
Lemma initialised_reachable : @reachable Z rwx_memory initialised [].
Proof.
  apply (@reach_init Z rwx_memory boot 1024 initialised); [reflexivity |].
  vm_compute. reflexivity.
Qed.

Lemma after_alloc_slice_reachable :
  @reachable Z rwx_memory after_alloc_slice [first_slice].
Proof.
  apply (@reach_alloc Z rwx_memory initialised [] NULL 0 first_slice after_alloc_slice).
  - exact initialised_reachable.
  - vm_compute. reflexivity.
Qed.

(** C4, as the specification words it, fails: after the first allocation
    from a page of four slices one slice is handed out and the count of the
    batch is four. *)
Lemma ref_count_counts_free_slices_too : ~ ref_count_counts_live_slices.
Proof.
  intros Hclaim.
  specialize (Hclaim Z rwx_memory after_alloc_slice [first_slice] 1%positive
                {| ref_count := 4; segment := NULL; pages_data := 0x100000;
                   pages_size := 4096; pages_allocator := 1%positive;
                   elements := map (slice_at 0x100000 1024) (seq 0 4) |}
                after_alloc_slice_reachable).
  assert (Hpages : 4 = 1) by (apply Hclaim; vm_compute; reflexivity).
  discriminate Hpages.
Qed.

(** A run of the theorem for C4 on that state: 4 = 1 + 3. *)
Lemma ref_count_witness :
  match pages_heap after_alloc_slice !! 1%positive with
  | Some pages =>
      ref_count pages
      = slices_of 1%positive [first_slice]
        + slices_of 1%positive (free_slices (allocator after_alloc_slice))
  | None =>
      slices_of 1%positive [first_slice] = 0
      /\ slices_of 1%positive (free_slices (allocator after_alloc_slice)) = 0
  end.
Proof.
  exact (@ref_count_is_live_plus_free Z rwx_memory after_alloc_slice [first_slice]
           1%positive after_alloc_slice_reachable).
Defined.

(** The allocation claim read literally fails: with slices of 1024 bytes, a
    request near 0x10000 with reach 256 on an empty free list gets the first
    slice of the page at 0x10000, whose last byte is 1023 bytes away. *)
Lemma fresh_slice_out_of_reach : ~ near_slice_always_within_reach.
Proof.
  intros Hclaim.
  specialize (Hclaim Z rwx_memory initialised [] near_0x10000 0 first_slice
                after_alloc_near {| slice_data := 0x10000; slice_size_of := 1024 |}
                initialised_reachable).
  destruct Hclaim as [_ Hend]; [vm_compute; reflexivity | vm_compute; reflexivity |].
  vm_compute in Hend. apply Hend. reflexivity.
Qed.

(** The slice of that request comes from a fresh batch. *)
Lemma near_slice_witness :
  exists seg data st1,
    @alloc_batch_memory Z rwx_memory (Ptr near_0x10000) initialised
    = Returns (Some (seg, data), st1)
    /\ @load_slice Z first_slice after_alloc_near
       = Returns ({| slice_data := data;
                     slice_size_of := slice_size (allocator initialised) |},
                  after_alloc_near).
Proof.
  destruct (@near_slice_is_tested_or_fresh Z rwx_memory initialised) as [Hnear _].
  destruct (Hnear near_0x10000 0 first_slice after_alloc_near) as [[Hin _] | [_ Hfresh]].
  - vm_compute. reflexivity.
  - exfalso. vm_compute in Hin. inversion Hin.
  - exact Hfresh.
Defined.

(** C3. The fresh-batch path hands out a slice that the near-distance test
    rejects. On an allocator of 1024-byte slices with an empty free list, a
    request near 0x10000 with reach 256 returns the first slice of the page
    the memory layer placed at 0x10000. [gum_code_slice_is_near], which the
    free-list path applies to every slice before it returns it, answers
    FALSE for this slice and this spec: the first byte is at distance 0, the
    last byte, at 0x103ff, at distance 1023. *)
Theorem fresh_batch_slice_fails_the_near_test :
  let slice := {| slice_data := 0x10000; slice_size_of := 1024 |} in
  free_slices (allocator initialised) = []
  /\ @gum_code_allocator_try_alloc_slice_near Z rwx_memory (Ptr near_0x10000) 0 initialised
     = Returns (Ptr first_slice, after_alloc_near)
  /\ @load_slice Z first_slice after_alloc_near = Returns (slice, after_alloc_near)
  /\ gum_code_slice_is_near slice (Ptr near_0x10000) = false
  /\ Z.abs (near_address near_0x10000 - slice_data slice) = 0
  /\ Z.abs (near_address near_0x10000 - (slice_data slice + slice_size_of slice - 1))
     = 1023
  /\ ~ within_reach near_0x10000 slice.
Proof.
  cbv zeta. repeat (split; [vm_compute; reflexivity |]).
  intros [_ Hend]. vm_compute in Hend. apply Hend. reflexivity.
Qed.

(** ** Deflectors *)

Section DeflectorFacts.
Context {M : Type} `{GumMemory M}.

Lemma write_bytes_outside bytes : forall (mem : gmap Z Z) addr a,
  a < addr \/ addr + Z.of_nat (length bytes) <= a ->
  read_byte (write_bytes mem addr bytes) a = read_byte mem a.
Proof.
  induction bytes as [| b bytes IH]; intros mem addr a Ha; [reflexivity |].
  cbn [write_bytes]. rewrite IH by (cbn [length] in Ha; lia).
  unfold read_byte. rewrite lookup_insert_ne by (cbn [length] in Ha; lia).
  reflexivity.
Qed.

Lemma write_bytes_inside bytes : forall (mem : gmap Z Z) addr (i : nat),
  (i < length bytes)%nat ->
  read_byte (write_bytes mem addr bytes) (addr + Z.of_nat i) = nth i bytes 0.
Proof.
  induction bytes as [| b bytes IH]; intros mem addr i Hi; [cbn [length] in Hi; lia |].
  cbn [write_bytes]. destruct i as [| i].
  - rewrite write_bytes_outside by lia.
    unfold read_byte. replace (addr + Z.of_nat 0) with addr by lia.
    rewrite lookup_insert_eq. reflexivity.
  - replace (addr + Z.of_nat (S i)) with (addr + 1 + Z.of_nat i) by lia.
    rewrite IH by (cbn [length] in Hi; lia). reflexivity.
Qed.

Lemma read_bytes_length (mem : gmap Z Z) addr n : length (read_bytes mem addr n) = n.
Proof. unfold read_bytes. rewrite length_map, length_seq. reflexivity. Qed.

Lemma read_bytes_nth (mem : gmap Z Z) addr n i :
  (i < n)%nat -> nth i (read_bytes mem addr n) 0 = read_byte mem (addr + Z.of_nat i).
Proof.
  intros Hi. unfold read_bytes.
  rewrite (nth_indep _ 0 (read_byte mem (addr + Z.of_nat 0)))
    by (rewrite length_map, length_seq; exact Hi).
  rewrite (map_nth (fun i => read_byte mem (addr + Z.of_nat i))).
  rewrite seq_nth by exact Hi. reflexivity.
Qed.

(** A copy of the cave written back over the cave gives the bytes the copy
    was taken from. *)
Lemma restore_reads_saved (mem mem0 : gmap Z Z) addr n i :
  (i < n)%nat ->
  read_byte (write_bytes mem addr (take n (read_bytes mem0 addr n))) (addr + Z.of_nat i)
  = read_byte mem0 (addr + Z.of_nat i).
Proof.
  intros Hi. rewrite take_ge by (rewrite read_bytes_length; lia).
  rewrite write_bytes_inside by (rewrite read_bytes_length; exact Hi).
  apply read_bytes_nth. exact Hi.
Qed.

Lemma free_in_dispatchers_skip fd f before rest (st : State M) :
  Forall (fun e => exists De, dispatcher_heap st !! e = Some De /\ f ∉ callers De) before ->
  free_in_dispatchers fd f (before ++ rest) st = free_in_dispatchers fd f rest st.
Proof.
  induction 1 as [| e before (De & He & Hnot) _ IH]; [reflexivity |].
  simpl. unfold gum_bind at 1. unfold load_dispatcher. rewrite He.
  rewrite bool_decide_eq_false_2 by exact Hnot. exact IH.
Qed.

Lemma remove_first_two {A} `{EqDecision A} (f other : A) l :
  other <> f -> l = [f; other] \/ l = [other; f] -> remove_first f l = [other].
Proof.
  intros Hne [-> | ->]; simpl.
  - destruct (decide (f = f)); [reflexivity | contradiction].
  - destruct (decide (f = other)); [subst; contradiction |].
    destruct (decide (f = f)); [reflexivity | contradiction].
Qed.

Lemma free_keeps_other_registration depth f d D other io (st : State M) :
  registered_with st f d D ->
  callers D = [f; other] \/ callers D = [other; f] ->
  other <> f ->
  deflector_heap st !! other = Some io ->
  let st' :=
    with_dispatcher_heap (<[d := set_callers [other] D]> (dispatcher_heap st))
      (with_deflector_heap (delete f (deflector_heap st)) st) in
  gum_code_deflector_free_upto depth (Ptr f) st = Returns (tt, st')
  /\ gum_code_deflector_dispatcher_lookup d (return_address (parent io)) st'
     = Returns (target (parent io), st').
Proof.
  intros (impl & before & after & Hf & Hl & Hd & Hin & Hbefore) Hcallers Hne Hother st'.
  split.
  - unfold gum_code_deflector_free_upto.
    destruct depth; simpl; unfold gum_bind at 1; unfold load_deflector; rewrite Hf;
      unfold gum_bind at 1; unfold self; rewrite Hl;
      rewrite (free_in_dispatchers_skip _ _ _ _ _ Hbefore);
      simpl; unfold gum_bind at 1; unfold load_dispatcher at 1; rewrite Hd;
      rewrite bool_decide_eq_true_2 by exact Hin;
      rewrite (remove_first_two f other _ Hne Hcallers); reflexivity.
  - unfold gum_code_deflector_dispatcher_lookup, gum_bind at 1, load_dispatcher.
    subst st'. cbn [dispatcher_heap with_dispatcher_heap]. rewrite lookup_insert_eq.
    cbn. unfold gum_bind, load_deflector. cbn.
    rewrite lookup_delete_ne by (intros ->; contradiction).
    rewrite Hother. rewrite Z.eqb_refl. reflexivity.
Qed.

Lemma free_of_last_registration depth f d D (st : State M) :
  registered_with st f d D ->
  callers D = [f] ->
  exists st',
    gum_code_deflector_free_upto depth (Ptr f) st = Returns (tt, st')
    /\ memory st'
       = write_bytes (memory st) (address D)
           (take (Z.to_nat (original_size D)) (original_data D))
    /\ trace st'
       = EvFreePages (thunk D)
         :: EvMprotect (address D) (original_size D) GUM_PAGE_RX
         :: EvMprotect (address D) (original_size D)
              (if gum_query_is_rwx_supported then GUM_PAGE_RWX else GUM_PAGE_RW)
         :: trace st
    /\ backend st' = gum_free_pages (thunk D) (backend st)
    /\ dispatcher_heap st' = delete d (dispatcher_heap st)
    /\ deflector_heap st' = delete f (deflector_heap st)
    /\ dispatchers (allocator st') = remove_first d (dispatchers (allocator st)).
Proof.
  intros (impl & before & after & Hf & Hl & Hd & Hin & Hbefore) Hcallers.
  eexists. split.
  - unfold gum_code_deflector_free_upto.
    destruct depth; simpl; unfold gum_bind at 1; unfold load_deflector; rewrite Hf;
      unfold gum_bind at 1; unfold self; rewrite Hl;
      rewrite (free_in_dispatchers_skip _ _ _ _ _ Hbefore);
      simpl; unfold gum_bind at 1; unfold load_dispatcher at 1; rewrite Hd;
      rewrite bool_decide_eq_true_2 by exact Hin;
      rewrite Hcallers; simpl; (destruct (decide (f = f)); [| contradiction]);
      unfold gum_bind, store_dispatcher, gum_code_deflector_dispatcher_free, gum_bind,
        load_dispatcher; cbn; rewrite lookup_insert_eq;
      rewrite bool_decide_eq_false_2 by apply not_elem_of_nil;
      cbn; rewrite lookup_insert_eq; reflexivity.
  - cbn. rewrite Hl, delete_insert_eq. repeat split.
Qed.

(** The cave that the probe finds is eight bytes long. *)
Lemma enumerate_for_code_cave_size mem caller ranges :
  base_address (enumerate_for_code_cave mem caller ranges) <> 0 ->
  range_size (enumerate_for_code_cave mem caller ranges) = 8.
Proof.
  induction ranges as [| details next IH]; simpl; [contradiction |].
  unfold gum_probe_range_for_code_cave.
  repeat match goal with |- context [if ?c then _ else _] => destruct c end;
    try exact IH. reflexivity.
Qed.

(** [gum_code_deflector_dispatcher_new] keeps a copy of the cave as it was
    before anything is written to it, and writes to the cave only. *)
Lemma dispatcher_new_saves_cave caller d (st st1 : State M) :
  gum_code_deflector_dispatcher_new caller st = Returns (Ptr d, st1) ->
  exists D,
    dispatcher_heap st1 = <[d := D]> (dispatcher_heap st)
    /\ dispatcher_heap st !! d = None
    /\ callers D = []
    /\ original_size D = 8
    /\ original_data D
       = read_bytes (memory st) (address D) (Z.to_nat (original_size D))
    /\ (forall a, a < address D \/ address D + original_size D <= a ->
          read_byte (memory st1) a = read_byte (memory st) a)
    /\ deflector_heap st1 = deflector_heap st
    /\ allocator st1 = allocator st.
Proof.
  unfold gum_code_deflector_dispatcher_new, gum_bind at 1.
  set (cave := enumerate_for_code_cave _ _ _).
  destruct (Z.eqb_spec (base_address cave) 0) as [| Hfound]; [discriminate |].
  pose proof (enumerate_for_code_cave_size _ _ _ Hfound) as Hsize.
  fold cave in Hsize.
  unfold gum_bind at 1. unfold gum_bind at 1. unfold call_alloc_n_pages.
  destruct (gum_alloc_n_pages 1 GUM_PAGE_RW (backend st)) as [[data |] m]; [| discriminate].
  unfold gum_bind at 1. unfold gum_bind at 1.
  assert (Hfresh : dispatcher_heap st !! fresh (dom (dispatcher_heap st)) = None)
    by (apply not_elem_of_dom, is_fresh).
  destruct HAVE_ARM.
  - unfold gum_bind at 1. unfold gum_bind at 1. unfold gum_bind at 1.
    cbn [gum_code_deflector_dispatcher_ensure_rw call_mprotect emit original_size address].
    cbn [memory with_trace with_backend with_memory].
    destruct (Z.leb_spec (Z.of_nat (length (thumb_relay data))) (range_size cave))
      as [Hfits |]; [| discriminate].
    cbn. intros E. inversion E; subst; clear E. eexists. cbn.
    split; [reflexivity |]. split; [exact Hfresh |]. split; [reflexivity |].
    split; [exact Hsize |]. split; [reflexivity |]. split; [| split; reflexivity].
    intros a Ha. cbn in Ha. apply write_bytes_outside. lia.
  - cbn. intros E. inversion E; subst; clear E. eexists. cbn.
    split; [reflexivity |]. split; [exact Hfresh |]. split; [reflexivity |].
    split; [exact Hsize |]. split; [reflexivity |]. split; [| split; reflexivity].
    intros a _. reflexivity.
Qed.

Lemma find_dispatcher_skip caller before rest (st : State M) :
  Forall (fun e => exists De, dispatcher_heap st !! e = Some De
                              /\ in_range_of caller De = false) before ->
  find_dispatcher caller (before ++ rest) st = find_dispatcher caller rest st.
Proof.
  induction 1 as [| e before (De & He & Hout) _ IH]; [reflexivity |].
  simpl. unfold gum_bind at 1. unfold load_dispatcher. rewrite He.
  unfold in_range_of in Hout. rewrite Hout. exact IH.
Qed.

(** A call whose caller is out of range of the dispatchers before [d] and
    within range of [d] registers with [d]. *)
Lemma alloc_deflector_reuses caller ra tgt before d after D (st : State M) :
  dispatchers (allocator st) = before ++ d :: after ->
  dispatcher_heap st !! d = Some D ->
  Forall (fun e => exists De, dispatcher_heap st !! e = Some De
                              /\ in_range_of caller De = false) before ->
  in_range_of caller D = true ->
  let f := fresh (dom (deflector_heap st)) in
  gum_code_allocator_alloc_deflector caller ra tgt st
  = Returns (Ptr f,
      with_dispatcher_heap (<[d := set_callers (f :: callers D) D]> (dispatcher_heap st))
        (with_deflector_heap
           (<[f := {| parent := {| return_address := ra; target := tgt;
                                   trampoline := dispatcher_trampoline D |};
                      impl_allocator := self_handle st |}]> (deflector_heap st)) st)).
Proof.
  intros Hl Hd Hbefore Hin f.
  unfold gum_code_allocator_alloc_deflector, gum_bind at 1, self. rewrite Hl.
  unfold gum_bind at 1. rewrite (find_dispatcher_skip _ _ _ _ Hbefore).
  simpl find_dispatcher. unfold gum_bind at 1, load_dispatcher at 1. rewrite Hd.
  unfold in_range_of in Hin. rewrite Hin.
  unfold gum_ret at 1. unfold gum_bind at 1. unfold gum_ret at 1.
  unfold gum_bind, load_dispatcher, store_dispatcher, gum_ret. rewrite Hd. reflexivity.
Qed.

(** C7. Take a live deflector and the dispatcher it is registered with.
    If the dispatcher holds this registration and one other,
    [gum_code_deflector_free] returns, removes this registration alone:
    allocator, memory and the other dispatchers stay as they were, and the
    dispatcher still answers the return address of the other registration
    with its target. If this registration is the only one,
    [gum_code_deflector_free] returns, every byte of the cave again equals
    the byte of the image the dispatcher's copy was taken from and no byte
    outside the cave changes, the thunk page went to [gum_free_pages], and
    the dispatcher is gone from the heap and from the allocator's list. *)
Theorem free_keeps_other_and_last_free_restores_cave (st : State M) f d D depth :
  registered_with st f d D ->
  (forall other impl_other,
     callers D = [f; other] \/ callers D = [other; f] ->
     other <> f ->
     deflector_heap st !! other = Some impl_other ->
     exists st',
       gum_code_deflector_free_upto depth (Ptr f) st = Returns (tt, st')
       /\ deflector_heap st' = delete f (deflector_heap st)
       /\ dispatcher_heap st' = <[d := set_callers [other] D]> (dispatcher_heap st)
       /\ allocator st' = allocator st
       /\ memory st' = memory st
       /\ trace st' = trace st
       /\ gum_code_deflector_dispatcher_lookup d (return_address (parent impl_other)) st'
          = Returns (target (parent impl_other), st'))
  /\ (forall mem0,
        callers D = [f] ->
        original_data D = read_bytes mem0 (address D) (Z.to_nat (original_size D)) ->
        exists st',
          gum_code_deflector_free_upto depth (Ptr f) st = Returns (tt, st')
          /\ (forall i, (i < Z.to_nat (original_size D))%nat ->
                read_byte (memory st') (address D + Z.of_nat i)
                = read_byte mem0 (address D + Z.of_nat i))
          /\ (forall a, a < address D \/ address D + original_size D <= a ->
                read_byte (memory st') a = read_byte (memory st) a)
          /\ trace st'
             = EvFreePages (thunk D)
               :: EvMprotect (address D) (original_size D) GUM_PAGE_RX
               :: EvMprotect (address D) (original_size D)
                    (if gum_query_is_rwx_supported then GUM_PAGE_RWX else GUM_PAGE_RW)
               :: trace st
          /\ backend st' = gum_free_pages (thunk D) (backend st)
          /\ dispatcher_heap st' !! d = None
          /\ dispatchers (allocator st') = remove_first d (dispatchers (allocator st))
          /\ deflector_heap st' = delete f (deflector_heap st)).
Proof.
  intros Hreg. split.
  - intros other impl_other Hcallers Hne Hother.
    destruct (free_keeps_other_registration depth f d D other impl_other st
                Hreg Hcallers Hne Hother) as [Hfree Hlookup].
    eexists. split; [exact Hfree |]. cbn.
    split; [reflexivity |]. split; [reflexivity |]. split; [reflexivity |].
    split; [reflexivity |]. split; [reflexivity |]. exact Hlookup.
  - intros mem0 Hcallers Hsaved.
    destruct (free_of_last_registration depth f d D st Hreg Hcallers)
      as (st' & Hfree & Hmem & Htrace & Hbackend & Hheap & Hdefl & Hlist).
    exists st'. split; [exact Hfree |].
    split; [| split; [| split; [exact Htrace | split; [exact Hbackend |
      split; [| split; [exact Hlist | exact Hdefl]]]]]].
    + intros i Hi. rewrite Hmem, Hsaved. apply restore_reads_saved. exact Hi.
    + intros a Ha. rewrite Hmem. apply write_bytes_outside.
      rewrite length_take. lia.
    + rewrite Hheap. apply lookup_delete_eq.
Qed.

(** C8, amended. [gum_code_allocator_alloc_deflector] registers a caller
    with the first dispatcher of the allocator's list, newest first, whose
    address is within [max_distance] of the caller. Two calls whose callers
    each have such a dispatcher return two different deflectors and create
    no dispatcher; each deflector is registered with the first dispatcher in
    range of its own caller and carries that dispatcher's trampoline. When
    that dispatcher is the same for both callers the two deflectors carry
    one trampoline; when it is not, their trampolines are those of two
    different dispatchers and are equal only if those are. *)
Theorem first_dispatcher_in_range_is_shared (st : State M)
    before1 d1 after1 D1 before2 d2 after2 D2
    caller1 caller2 ra1 ra2 target1 target2 :
  dispatchers (allocator st) = before1 ++ d1 :: after1 ->
  dispatchers (allocator st) = before2 ++ d2 :: after2 ->
  dispatcher_heap st !! d1 = Some D1 ->
  dispatcher_heap st !! d2 = Some D2 ->
  Forall (fun e => exists De, dispatcher_heap st !! e = Some De
                              /\ in_range_of caller1 De = false) before1 ->
  Forall (fun e => exists De, dispatcher_heap st !! e = Some De
                              /\ in_range_of caller2 De = false) before2 ->
  in_range_of caller1 D1 = true ->
  in_range_of caller2 D2 = true ->
  exists f1 st1 f2 st2 impl1 impl2,
    gum_code_allocator_alloc_deflector caller1 ra1 target1 st = Returns (Ptr f1, st1)
    /\ gum_code_allocator_alloc_deflector caller2 ra2 target2 st1 = Returns (Ptr f2, st2)
    /\ f1 <> f2
    /\ dispatchers (allocator st2) = dispatchers (allocator st)
    /\ deflector_heap st2 !! f1 = Some impl1
    /\ deflector_heap st2 !! f2 = Some impl2
    /\ trampoline (parent impl1) = dispatcher_trampoline D1
    /\ trampoline (parent impl2) = dispatcher_trampoline D2
    /\ (d1 = d2 ->
        dispatcher_heap st2
        = <[d1 := set_callers (f2 :: f1 :: callers D1) D1]> (dispatcher_heap st)
        /\ trampoline (parent impl1) = trampoline (parent impl2))
    /\ (d1 <> d2 ->
        dispatcher_heap st2
        = <[d2 := set_callers (f2 :: callers D2) D2]>
            (<[d1 := set_callers (f1 :: callers D1) D1]> (dispatcher_heap st))
        /\ (trampoline (parent impl1) = trampoline (parent impl2)
            <-> dispatcher_trampoline D1 = dispatcher_trampoline D2)).
Proof.
  intros Hl1 Hl2 Hd1 Hd2 Hb1 Hb2 Hin1 Hin2.
  pose proof (alloc_deflector_reuses caller1 ra1 target1 before1 d1 after1 D1 st
                Hl1 Hd1 Hb1 Hin1) as Hfirst.
  cbv zeta in Hfirst.
  set (f1 := fresh (dom (deflector_heap st))) in *.
  match type of Hfirst with _ = Returns (_, ?s) => set (st1 := s) in * end.
  set (D2' := if decide (d1 = d2) then set_callers (f1 :: callers D1) D1 else D2).
  assert (Hsame : d1 = d2 -> D1 = D2)
    by (intros <-; rewrite Hd1 in Hd2; inversion Hd2; reflexivity).
  assert (Hd2' : dispatcher_heap st1 !! d2 = Some D2').
  { subst st1 D2'. cbn. destruct (decide (d1 = d2)) as [<- | Hne].
    - apply lookup_insert_eq.
    - rewrite lookup_insert_ne by exact Hne. exact Hd2. }
  assert (Hin2' : in_range_of caller2 D2' = true).
  { subst D2'. destruct (decide (d1 = d2)) as [Heq | _]; [| exact Hin2].
    rewrite (Hsame Heq). exact Hin2. }
  assert (Hb2' : Forall (fun e => exists De, dispatcher_heap st1 !! e = Some De
                                  /\ in_range_of caller2 De = false) before2).
  { rewrite Forall_forall in Hb2. apply Forall_forall. intros e He.
    destruct (Hb2 e He) as (De & Hde & Ho). subst st1. cbn.
    destruct (decide (d1 = e)) as [<- | Hne].
    - rewrite lookup_insert_eq. rewrite Hd1 in Hde. inversion Hde; subst De.
      eexists. split; [reflexivity | exact Ho].
    - rewrite lookup_insert_ne by exact Hne. eauto. }
  pose proof (alloc_deflector_reuses caller2 ra2 target2 before2 d2 after2 D2' st1
                Hl2 Hd2' Hb2' Hin2') as Hsecond.
  cbv zeta in Hsecond.
  set (f2 := fresh (dom (deflector_heap st1))) in *.
  assert (Hf : f1 <> f2).
  { intros Heq. apply (is_fresh (dom (deflector_heap st1))). fold f2. rewrite <- Heq.
    apply elem_of_dom. subst st1. cbn. rewrite lookup_insert_eq. eauto. }
  assert (Ht2 : dispatcher_trampoline D2' = dispatcher_trampoline D2).
  { subst D2'. destruct (decide (d1 = d2)) as [Heq | _]; [| reflexivity].
    rewrite (Hsame Heq). reflexivity. }
  do 6 eexists. split; [exact Hfirst |]. split; [exact Hsecond |].
  split; [exact Hf |]. cbn.
  split; [reflexivity |].
  split; [rewrite lookup_insert_ne by (intros Heq; exact (Hf (eq_sym Heq)));
          subst st1; cbn; apply lookup_insert_eq |].
  split; [apply lookup_insert_eq |].
  split; [reflexivity |]. split; [exact Ht2 |].
  split.
  - intros Heq. subst D2' st1. cbn. destruct (decide (d1 = d2)); [| contradiction].
    subst d2. rewrite insert_insert_eq. rewrite (Hsame eq_refl). split; reflexivity.
  - intros Hne. subst D2' st1. cbn. destruct (decide (d1 = d2)); [contradiction |].
    split; reflexivity.
Qed.

End DeflectorFacts.

(** A run of the theorem for C9: the commit after the first allocation
    flushes the page of the batch; the commit after that one adds nothing to
    the log. *)
Lemma second_commit_witness :
  dirty_pages (allocator after_commit) = ∅
  /\ uncommitted_pages (allocator after_commit) = []
  /\ exists st2,
       @gum_code_allocator_commit Z rwx_memory after_commit = Returns (tt, st2)
       /\ trace st2 = trace after_commit
       /\ cache_flushes (trace st2) = cache_flushes (trace after_commit).
Proof.
  apply (@second_commit_flushes_nothing Z rwx_memory after_alloc_slice after_commit).
  vm_compute. reflexivity.
Defined.

Lemma registered_in_two_registrations :
  registered_with two_registrations 2 1 (first_image_dispatcher [2; 1]%positive).
Proof.
  exists {| parent := {| return_address := 0xc0; target := 0xc1; trampoline := 0x10008 |};
            impl_allocator := 1 |}, [], [].
  split; [vm_compute; reflexivity |]. split; [vm_compute; reflexivity |].
  split; [vm_compute; reflexivity |]. split; [| constructor].
  apply list_elem_of_here.
Qed.

Lemma registered_in_one_dispatcher :
  registered_with one_dispatcher 1 1 (first_image_dispatcher [1%positive]).
Proof.
  exists {| parent := {| return_address := 0xa0; target := 0xa1; trampoline := 0x10008 |};
            impl_allocator := 1 |}, [], [].
  split; [vm_compute; reflexivity |]. split; [vm_compute; reflexivity |].
  split; [vm_compute; reflexivity |]. split; [| constructor].
  apply list_elem_of_here.
Qed.

(** A run of the theorem for C7. With registrations 0xa0 -> 0xa1 and
    0xc0 -> 0xc1 on the dispatcher of the first image, freeing the second
    leaves 0xa0 answered with 0xa1. With the first alone, freeing it leaves
    the cave at 0x10008 as in the image and the dispatcher gone. *)
Lemma free_registrations_witness :
  (exists st',
     @gum_code_deflector_free_upto Z rwx_memory 0 (Ptr 2%positive) two_registrations
     = Returns (tt, st')
     /\ @gum_code_deflector_dispatcher_lookup Z 1%positive 0xa0 st' = Returns (0xa1, st'))
  /\ (exists st',
        @gum_code_deflector_free_upto Z rwx_memory 0 (Ptr 1%positive) one_dispatcher
        = Returns (tt, st')
        /\ (forall i, (i < 8)%nat ->
              read_byte (memory st') (0x10008 + Z.of_nat i)
              = read_byte image_bytes (0x10008 + Z.of_nat i))
        /\ dispatcher_heap st' !! 1%positive = None
        /\ dispatchers (allocator st') = []).
Proof.
  split.
  - destruct (@free_keeps_other_and_last_free_restores_cave Z rwx_memory
                two_registrations 2 1 (first_image_dispatcher [2; 1]%positive) 0%nat
                registered_in_two_registrations) as [Hkeep _].
    destruct (Hkeep 1%positive
                {| parent := {| return_address := 0xa0; target := 0xa1;
                                trampoline := 0x10008 |};
                   impl_allocator := 1 |})
      as (st' & Hfree & _ & _ & _ & _ & _ & Hlookup).
    + left. reflexivity.
    + discriminate.
    + vm_compute. reflexivity.
    + exists st'. split; [exact Hfree | exact Hlookup].
  - destruct (@free_keeps_other_and_last_free_restores_cave Z rwx_memory
                one_dispatcher 1 1 (first_image_dispatcher [1%positive]) 0%nat
                registered_in_one_dispatcher) as [_ Hlast].
    destruct (Hlast image_bytes)
      as (st' & Hfree & Hcave & _ & _ & _ & Hgone & Hlist & _).
    + reflexivity.
    + vm_compute. reflexivity.
    + exists st'. split; [exact Hfree |]. split; [exact Hcave |].
      split; [exact Hgone |]. rewrite Hlist. vm_compute. reflexivity.
Defined.

(** C8, as the specification words it, fails. The list holds the
    dispatcher of the second image and then that of the first; both callers
    below are within range of the dispatcher of the first image. The caller
    between the images is served by the head of the list, at 0x30008, the
    caller near the first image by the dispatcher at 0x10008. *)
Lemma range_sharing_depends_on_list_order : ~ callers_in_range_share_trampoline.
Proof.
  intros Hclaim.
  specialize (Hclaim Z rwx_memory two_dispatchers
    (state_after
       (@gum_code_allocator_alloc_deflector Z rwx_memory between_images 0xd0 0xd1)
       two_dispatchers)
    (state_after
       (@gum_code_allocator_alloc_deflector Z rwx_memory near_first_image 0xe0 0xe1)
       (state_after
          (@gum_code_allocator_alloc_deflector Z rwx_memory between_images 0xd0 0xd1)
          two_dispatchers))
    1%positive (first_image_dispatcher [1%positive])
    between_images near_first_image 0xd0 0xe0 0xd1 0xe1 3%positive 4%positive
    {| parent := {| return_address := 0xd0; target := 0xd1; trampoline := 0x30008 |};
       impl_allocator := 1 |}
    {| parent := {| return_address := 0xe0; target := 0xe1; trampoline := 0x10008 |};
       impl_allocator := 1 |}).
  destruct Hclaim as [_ Hsame]; try (vm_compute; reflexivity).
  - replace (dispatchers (allocator two_dispatchers)) with [2; 1]%positive
      by (vm_compute; reflexivity).
    apply list_elem_of_further, list_elem_of_here.
  - discriminate Hsame.
Qed.

(** Runs of the theorem for C8 on the state with the dispatcher of the
    second image ahead of that of the first. Two callers near the first
    image, out of range of the dispatcher of the second image, share the
    dispatcher at 0x10008. The caller between the images is served by the
    head of the list and the caller near the first image by the dispatcher
    of the first image: the deflectors carry 0x30008 and 0x10008. *)
Lemma first_dispatcher_witness :
  (exists f1 st1 f2 st2 impl1 impl2,
     @gum_code_allocator_alloc_deflector Z rwx_memory near_first_image 0xd0 0xd1
       two_dispatchers = Returns (Ptr f1, st1)
     /\ @gum_code_allocator_alloc_deflector Z rwx_memory near_first_image 0xe0 0xe1 st1
        = Returns (Ptr f2, st2)
     /\ f1 <> f2
     /\ dispatchers (allocator st2) = dispatchers (allocator two_dispatchers)
     /\ dispatcher_heap st2
        = <[1%positive := set_callers (f2 :: f1 :: [1%positive])
                            (first_image_dispatcher [1%positive])]>
            (dispatcher_heap two_dispatchers)
     /\ deflector_heap st2 !! f1 = Some impl1
     /\ deflector_heap st2 !! f2 = Some impl2
     /\ trampoline (parent impl1) = 0x10008
     /\ trampoline (parent impl2) = 0x10008)
  /\ (exists f1 st1 f2 st2 impl1 impl2,
        @gum_code_allocator_alloc_deflector Z rwx_memory between_images 0xd0 0xd1
          two_dispatchers = Returns (Ptr f1, st1)
        /\ @gum_code_allocator_alloc_deflector Z rwx_memory near_first_image 0xe0 0xe1 st1
           = Returns (Ptr f2, st2)
        /\ deflector_heap st2 !! f1 = Some impl1
        /\ deflector_heap st2 !! f2 = Some impl2
        /\ trampoline (parent impl1) = 0x30008
        /\ trampoline (parent impl2) = 0x10008
        /\ trampoline (parent impl1) <> trampoline (parent impl2)).
Proof.
  assert (Hout : Forall (fun e => exists De, dispatcher_heap two_dispatchers !! e = Some De
                                  /\ in_range_of near_first_image De = false)
                   [2%positive]).
  { constructor; [| constructor].
    exists (second_image_dispatcher [2%positive]).
    split; vm_compute; reflexivity. }
  split.
  - destruct (@first_dispatcher_in_range_is_shared Z rwx_memory two_dispatchers
                [2%positive] 1%positive [] (first_image_dispatcher [1%positive])
                [2%positive] 1%positive [] (first_image_dispatcher [1%positive])
                near_first_image near_first_image 0xd0 0xe0 0xd1 0xe1)
      as (f1 & st1 & f2 & st2 & impl1 & impl2 & H1 & H2 & Hne & Hl & Hi1 & Hi2 & Ht1 & Ht2
          & Hsame & _).
    + vm_compute. reflexivity.
    + vm_compute. reflexivity.
    + vm_compute. reflexivity.
    + vm_compute. reflexivity.
    + exact Hout.
    + exact Hout.
    + vm_compute. reflexivity.
    + vm_compute. reflexivity.
    + destruct (Hsame eq_refl) as [Hheap _].
      exists f1, st1, f2, st2, impl1, impl2. auto 10.
  - destruct (@first_dispatcher_in_range_is_shared Z rwx_memory two_dispatchers
                [] 2%positive [1%positive] (second_image_dispatcher [2%positive])
                [2%positive] 1%positive [] (first_image_dispatcher [1%positive])
                between_images near_first_image 0xd0 0xe0 0xd1 0xe1)
      as (f1 & st1 & f2 & st2 & impl1 & impl2 & H1 & H2 & Hne & Hl & Hi1 & Hi2 & Ht1 & Ht2
          & _ & Hdiff).
    + vm_compute. reflexivity.
    + vm_compute. reflexivity.
    + vm_compute. reflexivity.
    + vm_compute. reflexivity.
    + constructor.
    + exact Hout.
    + vm_compute. reflexivity.
    + vm_compute. reflexivity.
    + exists f1, st1, f2, st2, impl1, impl2.
      split; [exact H1 |]. split; [exact H2 |]. split; [exact Hi1 |]. split; [exact Hi2 |].
      split; [exact Ht1 |]. split; [exact Ht2 |].
      destruct Hdiff as [_ Hiff]; [discriminate |].
      intros Heq. apply Hiff in Heq. discriminate Heq.
Defined.

Section ThreadControlFacts.
Context `{Kernel}.

(** ** Register access ([gum_get_regs], [gum_set_regs]) *)

Lemma syscall_log (s : Syscall) (w : World) :
  syscalls (snd (syscall s w)) = (s, reply_ret (fst (syscall s w))) :: syscalls w
  /\ gum_is_regset_supported (snd (syscall s w)) = gum_is_regset_supported w
  /\ fst (syscall s w) = fst (kernel_call s (kernel w)).
Proof.
  unfold syscall. destruct (kernel_call s (kernel w)) as [r k]. simpl. auto.
Qed.

Lemma gum_get_regs_legacy (pid : Z) (w : World) :
  gum_is_regset_supported w = false ->
  gum_is_regset_supported (snd (gum_get_regs pid w)) = false
  /\ exists ret,
       syscalls (snd (gum_get_regs pid w))
       = (SysPtraceRegs PTRACE_GETREGS pid 0 NULL, ret) :: syscalls w
       /\ fst (fst (gum_get_regs pid w)) = ret.
Proof.
  intros Hoff. unfold gum_get_regs. rewrite Hoff.
  unfold syscall. destruct (kernel_call _ (kernel w)) as [r k]. simpl.
  split; [exact Hoff | eauto].
Qed.

Lemma gum_set_regs_legacy (pid : Z) (regs : GumRegs) (w : World) :
  gum_is_regset_supported w = false ->
  gum_is_regset_supported (snd (gum_set_regs pid regs w)) = false
  /\ exists ret,
       syscalls (snd (gum_set_regs pid regs w))
       = (SysPtraceRegs PTRACE_SETREGS pid 0 (Ptr regs), ret) :: syscalls w
       /\ fst (gum_set_regs pid regs w) = ret.
Proof.
  intros Hoff. unfold gum_set_regs. rewrite Hoff.
  unfold syscall. destruct (kernel_call _ (kernel w)) as [r k]. simpl.
  split; [exact Hoff | eauto].
Qed.

(** With the register-set transfer still enabled, [gum_get_regs] asks for it
    first; the answer decides what follows. *)
Lemma gum_get_regs_regset (pid : Z) (w : World) :
  gum_is_regset_supported w = true ->
  let ret := reply_ret (fst (kernel_call
               (SysPtraceRegs PTRACE_GETREGSET pid NT_PRSTATUS NULL) (kernel w))) in
  let w' := snd (gum_get_regs pid w) in
  (0 <= ret \/ ret = - EPERM \/ ret = - ESRCH ->
     gum_is_regset_supported w' = true
     /\ fst (fst (gum_get_regs pid w)) = ret
     /\ syscalls w' = (SysPtraceRegs PTRACE_GETREGSET pid NT_PRSTATUS NULL, ret) :: syscalls w)
  /\ (ret < 0 -> ret <> - EPERM -> ret <> - ESRCH ->
     gum_is_regset_supported w' = false
     /\ exists ret',
          fst (fst (gum_get_regs pid w)) = ret'
          /\ syscalls w' = (SysPtraceRegs PTRACE_GETREGS pid 0 NULL, ret')
               :: (SysPtraceRegs PTRACE_GETREGSET pid NT_PRSTATUS NULL, ret) :: syscalls w).
Proof.
  intros Hon. unfold gum_get_regs. rewrite Hon. unfold syscall.
  destruct (kernel_call _ (kernel w)) as [r k] eqn:E1. simpl.
  destruct (Z.leb_spec 0 (reply_ret r)) as [Hge | Hlt]; simpl.
  - split; [intros _; auto | intros; lia].
  - destruct (Z.eqb_spec (reply_ret r) (- EPERM)) as [He | He]; simpl.
    + split; [intros _; auto | intros; lia].
    + destruct (Z.eqb_spec (reply_ret r) (- ESRCH)) as [Hs | Hs]; simpl.
      * split; [intros _; auto | intros; lia].
      * destruct (kernel_call _ k) as [r2 k2]. simpl.
        split; [intros [? | [? | ?]]; lia | intros _ _ _; eauto].
Qed.

Lemma gum_set_regs_regset (pid : Z) (regs : GumRegs) (w : World) :
  gum_is_regset_supported w = true ->
  let ret := reply_ret (fst (kernel_call
               (SysPtraceRegs PTRACE_SETREGSET pid NT_PRSTATUS (Ptr regs)) (kernel w))) in
  let w' := snd (gum_set_regs pid regs w) in
  (0 <= ret \/ ret = - EPERM \/ ret = - ESRCH ->
     gum_is_regset_supported w' = true
     /\ fst (gum_set_regs pid regs w) = ret
     /\ syscalls w'
        = (SysPtraceRegs PTRACE_SETREGSET pid NT_PRSTATUS (Ptr regs), ret) :: syscalls w)
  /\ (ret < 0 -> ret <> - EPERM -> ret <> - ESRCH ->
     gum_is_regset_supported w' = false
     /\ exists ret',
          fst (gum_set_regs pid regs w) = ret'
          /\ syscalls w' = (SysPtraceRegs PTRACE_SETREGS pid 0 (Ptr regs), ret')
               :: (SysPtraceRegs PTRACE_SETREGSET pid NT_PRSTATUS (Ptr regs), ret)
               :: syscalls w).
Proof.
  intros Hon. unfold gum_set_regs. rewrite Hon. unfold syscall.
  destruct (kernel_call _ (kernel w)) as [r k] eqn:E1. simpl.
  destruct (Z.leb_spec 0 (reply_ret r)) as [Hge | Hlt]; simpl.
  - split; [intros _; auto | intros; lia].
  - destruct (Z.eqb_spec (reply_ret r) (- EPERM)) as [He | He]; simpl.
    + split; [intros _; auto | intros; lia].
    + destruct (Z.eqb_spec (reply_ret r) (- ESRCH)) as [Hs | Hs]; simpl.
      * split; [intros _; auto | intros; lia].
      * destruct (kernel_call _ k) as [r2 k2]. simpl.
        split; [intros [? | [? | ?]]; lia | intros _ _ _; eauto].
Qed.

(** Once the flag is off, no sequence of reads and writes turns it on again,
    and every request such a sequence issues is a legacy one. *)
Lemma regset_stays_off (ops : list reg_access) (w : World) :
  gum_is_regset_supported w = false ->
  gum_is_regset_supported (fold_left (fun w op => access_regs op w) ops w) = false
  /\ exists new,
       syscalls (fold_left (fun w op => access_regs op w) ops w) = new ++ syscalls w
       /\ forallb (fun e => is_legacy_request (fst e)) new = true.
Proof.
  revert w. induction ops as [| op ops IH]; intros w Hoff; simpl.
  - split; [exact Hoff | exists []; auto].
  - assert (Hstep : gum_is_regset_supported (access_regs op w) = false
                    /\ exists e, syscalls (access_regs op w) = e :: syscalls w
                                 /\ is_legacy_request (fst e) = true).
    { destruct op as [pid | pid regs]; simpl.
      - destruct (gum_get_regs_legacy pid w Hoff) as [Hf [ret [Hl _]]].
        split; [exact Hf | eexists; split; [exact Hl | reflexivity]].
      - destruct (gum_set_regs_legacy pid regs w Hoff) as [Hf [ret [Hl _]]].
        split; [exact Hf | eexists; split; [exact Hl | reflexivity]]. }
    destruct Hstep as [Hf [e [Hl He]]].
    destruct (IH _ Hf) as [Hf' [new [Hl' Hnew]]].
    split; [exact Hf' |].
    exists (new ++ [e]). rewrite Hl', Hl, <- app_assoc. split; [reflexivity |].
    rewrite forallb_app, Hnew. simpl. now rewrite He.
Qed.

(** ** What each action adds to the request log *)

Definition frame (w w' : World) : Prop :=
  func_calls w' = func_calls w /\ cpu_context w' = cpu_context w.

Lemma syscall_spec s w r w' :
  syscall s w = (r, w') ->
  syscalls w' = [(s, reply_ret r)] ++ syscalls w /\ frame w w'.
Proof.
  unfold syscall. destruct (kernel_call s (kernel w)) as [r0 k].
  intros E. inversion E; subst. simpl. repeat split.
Qed.

Lemma gum_libc_ptrace_spec req pid a d w res w' :
  gum_libc_ptrace req pid a d w = (res, w') ->
  syscalls w' = [(SysPtrace req pid a d, res)] ++ syscalls w /\ frame w w'.
Proof.
  unfold gum_libc_ptrace. destruct (syscall _ w) as [r w1] eqn:E1.
  intros E. inversion E; subst. now apply syscall_spec in E1.
Qed.

Lemma gum_get_regs_adds pid w res regs w' :
  gum_get_regs pid w = ((res, regs), w') ->
  exists new, syscalls w' = new ++ syscalls w
    /\ List.filter is_control_request new = []
    /\ frame w w'.
Proof.
  unfold gum_get_regs, syscall.
  destruct (gum_is_regset_supported w).
  - destruct (kernel_call _ (kernel w)) as [r k]. simpl.
    destruct (0 <=? reply_ret r); [| destruct (_ || _)].
    + intros E; inversion E; subst. eexists [_]. simpl. repeat split.
    + intros E; inversion E; subst. eexists [_]. simpl. repeat split.
    + simpl. destruct (kernel_call _ k) as [r2 k2].
      intros E; inversion E; subst. eexists [_; _]. simpl. repeat split.
  - destruct (kernel_call _ (kernel w)) as [r k].
    intros E; inversion E; subst. eexists [_]. simpl. repeat split.
Qed.

Lemma gum_set_regs_adds pid regs w res w' :
  gum_set_regs pid regs w = (res, w') ->
  exists new, syscalls w' = new ++ syscalls w
    /\ new <> []
    /\ Forall (is_write_back pid regs) new
    /\ List.filter is_control_request new = []
    /\ frame w w'.
Proof.
  assert (Hs : forall ret, is_write_back pid regs
             (SysPtraceRegs PTRACE_SETREGS pid 0 (Ptr regs), ret)).
  { intros ret. exists PTRACE_SETREGS, 0. simpl. auto. }
  assert (Hr : forall ret, is_write_back pid regs
             (SysPtraceRegs PTRACE_SETREGSET pid NT_PRSTATUS (Ptr regs), ret)).
  { intros ret. exists PTRACE_SETREGSET, NT_PRSTATUS. simpl. auto. }
  unfold gum_set_regs, syscall.
  destruct (gum_is_regset_supported w).
  - destruct (kernel_call _ (kernel w)) as [r k]. simpl.
    destruct (0 <=? reply_ret r); [| destruct (_ || _)].
    + intros E; inversion E; subst. eexists [_]. simpl.
      repeat split; try discriminate; repeat constructor; auto.
    + intros E; inversion E; subst. eexists [_]. simpl.
      repeat split; try discriminate; repeat constructor; auto.
    + simpl. destruct (kernel_call _ k) as [r2 k2].
      intros E; inversion E; subst. eexists [_; _]. simpl.
      repeat split; try discriminate; repeat constructor; auto.
  - destruct (kernel_call _ (kernel w)) as [r k].
    intros E; inversion E; subst. eexists [_]. simpl.
    repeat split; try discriminate; repeat constructor; auto.
Qed.

Lemma gum_acquire_dumpability_adds w u w' :
  gum_acquire_dumpability w = (u, w') ->
  exists new, syscalls w' = new ++ syscalls w
    /\ List.filter is_ptrace_request new = []
    /\ List.filter is_control_request new = []
    /\ frame w w'.
Proof.
  unfold gum_acquire_dumpability, syscall. simpl.
  destruct (_ =? 1).
  - destruct (kernel_call _ _) as [r k]. simpl.
    destruct (_ && _).
    + simpl. destruct (kernel_call _ _) as [r2 k2]. simpl.
      intros E; inversion E; subst. eexists [_; _]. simpl. repeat split.
    + intros E; inversion E; subst. eexists [_]. simpl. repeat split.
  - intros E; inversion E; subst. exists []. simpl. repeat split.
Qed.

Lemma gum_release_dumpability_adds w u w' :
  gum_release_dumpability w = (u, w') ->
  exists new, syscalls w' = new ++ syscalls w
    /\ List.filter is_ptrace_request new = []
    /\ List.filter is_control_request new = []
    /\ frame w w'.
Proof.
  unfold gum_release_dumpability, syscall. simpl.
  destruct (_ =? 0).
  - destruct (_ && _).
    + simpl. destruct (kernel_call _ _) as [r2 k2]. simpl.
      intros E; inversion E; subst. eexists [_]. simpl. repeat split.
    + intros E; inversion E; subst. exists []. simpl. repeat split.
  - intros E; inversion E; subst. exists []. simpl. repeat split.
Qed.

Lemma attaches_resolved_filter thread_id b log :
  attaches_resolved thread_id b (List.filter is_control_request log)
  = attaches_resolved thread_id b log.
Proof.
  revert b. induction log as [| [s ret] log IH]; intros b; [reflexivity |].
  destruct s as [req pid a d | | | | | |]; simpl; try apply IH.
  unfold is_control_request. simpl.
  destruct req; simpl; rewrite ?IH; reflexivity.
Qed.

(** ** The session with another thread, case by case *)

#[local] Arguments syscall : simpl never.
#[local] Arguments gum_libc_ptrace : simpl never.
#[local] Arguments gum_get_regs : simpl never.
#[local] Arguments gum_set_regs : simpl never.
#[local] Arguments gum_acquire_dumpability : simpl never.
#[local] Arguments gum_release_dumpability : simpl never.

Ltac run_step :=
  match goal with
  | |- context [syscall ?s ?w] => destruct (syscall s w) as [? ?] eqn:?; cbn
  | |- context [gum_libc_ptrace ?a ?b ?c ?d ?w] =>
      destruct (gum_libc_ptrace a b c d w) as [? ?] eqn:?; cbn
  | |- context [gum_get_regs ?p ?w] => destruct (gum_get_regs p w) as [[? ?] ?] eqn:?; cbn
  | |- context [gum_set_regs ?p ?r ?w] => destruct (gum_set_regs p r w) as [? ?] eqn:?; cbn
  | |- context [gum_acquire_dumpability ?w] =>
      destruct (gum_acquire_dumpability w) as [? ?] eqn:?; cbn
  | |- context [gum_release_dumpability ?w] =>
      destruct (gum_release_dumpability w) as [? ?] eqn:?; cbn
  | |- context [if ?b then _ else _] => destruct b eqn:?; cbn
  end.

Ltac summarize :=
  repeat match goal with
  | E : syscall _ _ = _ |- _ => apply syscall_spec in E; destruct E as (? & ? & ?)
  | E : gum_libc_ptrace _ _ _ _ _ = _ |- _ =>
      apply gum_libc_ptrace_spec in E; destruct E as (? & ? & ?)
  | E : gum_get_regs _ _ = _ |- _ =>
      apply gum_get_regs_adds in E; destruct E as (? & ? & ? & ? & ?)
  | E : gum_set_regs _ _ _ = _ |- _ =>
      apply gum_set_regs_adds in E; destruct E as (? & ? & ? & ? & ? & ? & ?)
  | E : gum_acquire_dumpability _ = _ |- _ =>
      apply gum_acquire_dumpability_adds in E; destruct E as (? & ? & ? & ? & ? & ?)
  | E : gum_release_dumpability _ = _ |- _ =>
      apply gum_release_dumpability_adds in E; destruct E as (? & ? & ? & ? & ? & ?)
  end;
  cbn [syscalls func_calls cpu_context set_cpu_context set_func_calls set_syscalls
       set_kernel set_regset_supported set_dumpable] in *.

Ltac chain_calls :=
  repeat match goal with Hf : func_calls _ = _ |- _ => rewrite Hf; clear Hf end.

Ltac filter_log :=
  repeat first
    [ rewrite List.filter_app
    | progress cbn [List.filter is_control_request is_ptrace_request fst app]
    | match goal with Hx : List.filter _ _ = [] |- _ => rewrite Hx end ].

Ltac early_failure_leaf :=
  right; right; left; unfold early_failure_case; cbn;
  do 3 eexists; split; [reflexivity |];
  repeat split; [auto | chain_calls; reflexivity | filter_log; reflexivity].

Ltac callback_leaf :=
  right; right; right; unfold callback_case; cbn;
  rewrite <- !app_assoc; cbn [app];
  do 7 eexists; split; [reflexivity |];
  split; [reflexivity |];
  split; [chain_calls; reflexivity |];
  split; [filter_log; reflexivity |];
  repeat (split; [assumption |]);
  auto 10.

Lemma session_cases thread_id func flags fuel w :
  (thread_id =? gum_process_get_current_thread_id) = false ->
  let s := gum_process_modify_thread fuel thread_id func flags w in
  exists w' new,
    world_of (outcome_of s) = Some w'
    /\ syscalls w' = new ++ syscalls w
    /\ received s = sent s
    /\ (no_helper_case w s w' new
        \/ attach_refused_case thread_id w s w' new
        \/ early_failure_case thread_id w s w' new
        \/ callback_case thread_id func w s w' new).
Proof.
  intros Hne. unfold gum_process_modify_thread. rewrite Hne.
  unfold modify_other_thread, gum_do_modify_thread, gum_await_ack, gum_put_ack, helper_beach.
  cbn.
  repeat run_step.
  all: summarize.
  all: eexists; eexists; split; [reflexivity |].
  all: split; [repeat match goal with Hs : syscalls _ = _ |- _ => rewrite Hs; clear Hs end;
               rewrite ?app_assoc; reflexivity |].
  all: split; [reflexivity |].
  all: repeat match goal with
         | Hb : (_ =? _) = true |- _ => apply Z.eqb_eq in Hb
         | Hb : (_ =? _) = false |- _ => apply Z.eqb_neq in Hb
         end.
  - left. unfold no_helper_case. cbn. repeat split; auto.
  - left. unfold no_helper_case. cbn. repeat split; auto. chain_calls. reflexivity.
  - right; left. unfold attach_refused_case. cbn. subst.
    repeat split; [chain_calls; reflexivity | filter_log; reflexivity].
  - early_failure_leaf.
  - early_failure_leaf.
  - early_failure_leaf.
  - callback_leaf.
  - callback_leaf.
  - callback_leaf.
  - left. unfold no_helper_case. cbn.
    repeat split; [auto | chain_calls; reflexivity | filter_log; reflexivity].
Qed.

(** The branch for the calling thread issues one request, [getcontext]. *)
Lemma self_cases thread_id func flags fuel w :
  (thread_id =? gum_process_get_current_thread_id) = true ->
  let s := gum_process_modify_thread (S fuel) thread_id func flags w in
  let uc := reply_ucontext (fst (kernel_call SysGetcontext (kernel w))) in
  let context := gum_linux_parse_ucontext uc in
  let uc' := gum_linux_unparse_ucontext (func thread_id context) uc in
  sent s = [] /\ received s = []
  /\ (have_getcontext = false /\ outcome_of s = Returned false w
      \/ have_getcontext = true
         /\ exists w',
              (returns_to_getcontext uc' = true /\ outcome_of s = Returned true w'
               \/ returns_to_getcontext uc' = false /\ outcome_of s = Diverted uc' w')
              /\ syscalls w' = [(SysGetcontext,
                                 reply_ret (fst (kernel_call SysGetcontext (kernel w))))]
                               ++ syscalls w
              /\ func_calls w' = context :: func_calls w).
Proof.
  intros Heq. unfold gum_process_modify_thread. rewrite Heq.
  destruct have_getcontext; cbn.
  - unfold syscall. destruct (kernel_call SysGetcontext (kernel w)) as [r k]. cbn.
    repeat split. right. split; [reflexivity |].
    destruct (returns_to_getcontext _) eqn:Hback.
    + destruct fuel; cbn; eexists; (split; [left; split; reflexivity |]);
        split; reflexivity.
    + eexists. split; [right; split; reflexivity |]. split; reflexivity.
  - repeat split. left. split; reflexivity.
Qed.

(** A session with another thread, read through its tags: a failure tag of
    the attach, wait, stop or read step means the callback was not invoked
    and the call returns FALSE; FAILED_TO_WRITE or FAILED_TO_DETACH means it
    was invoked once and the call returns FALSE; the call returns TRUE
    exactly when the caller has read WROTE_CONTEXT. The tags are the
    helper's own verdicts, each of them the test [res == -1]. *)
Lemma modify_thread_protocol thread_id func flags fuel w :
  (thread_id =? gum_process_get_current_thread_id) = false ->
  let s := gum_process_modify_thread fuel thread_id func flags w in
  (forall tag,
     In tag (sent s) ->
     tag = GUM_ACK_FAILED_TO_ATTACH \/ tag = GUM_ACK_FAILED_TO_WAIT
     \/ tag = GUM_ACK_FAILED_TO_STOP \/ tag = GUM_ACK_FAILED_TO_READ ->
     exists w', outcome_of s = Returned false w' /\ func_calls w' = func_calls w)
  /\ (forall tag,
     In tag (sent s) ->
     tag = GUM_ACK_FAILED_TO_WRITE \/ tag = GUM_ACK_FAILED_TO_DETACH ->
     exists w' context,
       outcome_of s = Returned false w' /\ func_calls w' = context :: func_calls w)
  /\ ((exists w', outcome_of s = Returned true w')
      <-> In GUM_ACK_WROTE_CONTEXT (received s)).
Proof.
  intros Hne s.
  destruct (session_cases thread_id func flags fuel w Hne)
    as (w' & new & Hw & Hlog & Hrecv & Hcase).
  fold s in Hw, Hrecv, Hcase. rewrite Hrecv.
  destruct Hcase as [Hc | [Hc | [Hc | Hc]]].
  - destruct Hc as (Hsent & Hout & Hcalls & _). rewrite Hsent.
    repeat split; try (intros ? []).
    + intros [w2 Hw2]. destruct Hout as [Ho | Ho]; rewrite Ho in Hw2; discriminate.
    + intros [].
  - destruct Hc as (Hsent & Hout & Hcalls & _). rewrite Hsent.
    repeat split.
    + intros tag _ _. eauto.
    + intros tag [<- | []] [Ht | Ht]; discriminate.
    + intros [w2 Hw2]. rewrite Hout in Hw2. discriminate.
    + intros [Ht | []]. discriminate.
  - destruct Hc as (tag & ra & rd & Hsent & Htag & Hout & Hcalls & _). rewrite Hsent.
    repeat split.
    + intros tag' _ _. eauto.
    + intros tag' [<- | []] [Ht | Ht]; destruct Htag as [-> | [-> | ->]]; discriminate.
    + intros [w2 Hw2]. rewrite Hout in Hw2. discriminate.
    + intros [Ht | []]. destruct Htag as [-> | [-> | ->]]; discriminate.
  - destruct Hc as (regs & tag & ra & rd & after & writes & before & Hc).
    cbn zeta in Hc.
    destruct Hc as (Hsent & Hnew & Hcalls & _ & _ & _ & _ & Hend). rewrite Hsent.
    repeat split.
    + intros tag' [<- | [<- | []]] Ht.
      * destruct Ht as [Ht | [Ht | [Ht | Ht]]]; discriminate.
      * destruct Hend as [[-> _] | [[-> _] | [-> _]]];
          destruct Ht as [Ht | [Ht | [Ht | Ht]]]; discriminate.
    + intros tag' [<- | [<- | []]] Ht.
      * destruct Ht as [Ht | Ht]; discriminate.
      * destruct Hend as [[-> Ho] | [[-> [_ Ho]] | [-> _]]]; eauto.
        destruct Ht as [Ht | Ht]; discriminate.
    + intros [w2 Hw2].
      destruct Hend as [[-> Ho] | [[-> [_ Ho]] | [-> _]]];
        try (rewrite Ho in Hw2; discriminate).
      right; left; reflexivity.
    + intros [Ht | [Ht | []]]; [discriminate |].
      destruct Hend as [[-> Ho] | [[-> [_ Ho]] | [-> [_ Ho]]]]; try discriminate. eauto.
Qed.

(** C2. In every session of [gum_process_modify_thread] that comes to an
    end, the helper attaches to and detaches from no thread but the target.
    Its attach and detach requests are: none; or one PTRACE_ATTACH of the
    target answered with -1; or one PTRACE_ATTACH of the target followed by
    one PTRACE_DETACH of the target with SIGCONT, which resumes it, and then
    the call returns, the helper having exited. So every attach that the
    helper took as successful (any result other than -1, so in particular
    every result >= 0) is followed, before the helper exits, by that detach:
    after a failed wait, stop test, register read or register write as well
    as on the normal path. *)
Theorem helper_detaches_on_every_exit_path thread_id func flags fuel w w' :
  let s := gum_process_modify_thread (S fuel) thread_id func flags w in
  world_of (outcome_of s) = Some w' ->
  exists new,
    syscalls w' = new ++ syscalls w
    /\ attaches_resolved thread_id false new = true
    /\ (List.filter is_control_request new = []
        \/ List.filter is_control_request new
           = [(SysPtrace PTRACE_ATTACH thread_id 0 0, -1)]
        \/ exists ra rd success,
             List.filter is_control_request new
             = [(SysPtrace PTRACE_DETACH thread_id 0 SIGCONT, rd);
                (SysPtrace PTRACE_ATTACH thread_id 0 0, ra)]
             /\ outcome_of s = Returned success w').
Proof.
  intros s Hw. subst s.
  destruct (thread_id =? gum_process_get_current_thread_id) eqn:Hcur.
  - destruct (self_cases thread_id func flags fuel w Hcur) as (_ & _ & Hself).
    destruct Hself as [[_ Hout] | [_ (w1 & Hout & Hlog & _)]].
    + rewrite Hout in Hw. inversion Hw; subst. exists []. repeat split. left. reflexivity.
    + exists [(SysGetcontext, reply_ret (fst (kernel_call SysGetcontext (kernel w))))].
      destruct Hout as [[_ Hout] | [_ Hout]]; rewrite Hout in Hw; inversion Hw; subst;
        (split; [assumption |]); split; [reflexivity | left; reflexivity
                                        | reflexivity | left; reflexivity].
  - destruct (session_cases thread_id func flags (S fuel) w Hcur)
      as (w1 & new & Hw1 & Hlog & _ & Hcase).
    rewrite Hw in Hw1. inversion Hw1; subst w1.
    exists new. split; [exact Hlog |].
    rewrite <- attaches_resolved_filter.
    destruct Hcase as [Hc | [Hc | [Hc | Hc]]].
    + destruct Hc as (_ & _ & _ & ->). split; [reflexivity | left; reflexivity].
    + destruct Hc as (_ & _ & _ & ->). split; [| right; left; reflexivity].
      simpl. rewrite Z.eqb_refl. reflexivity.
    + destruct Hc as (tag & ra & rd & _ & _ & Hout & _ & ->).
      split; [simpl; rewrite !Z.eqb_refl; reflexivity |].
      right; right. exists ra, rd, false. split; [reflexivity | exact Hout].
    + destruct Hc as (regs & tag & ra & rd & after & writes & before & Hc).
      cbn zeta in Hc. destruct Hc as (_ & _ & _ & -> & _ & _ & _ & Hend).
      split; [simpl; rewrite !Z.eqb_refl; reflexivity |].
      right; right.
      destruct Hend as [[_ Ho] | [[_ [_ Ho]] | [_ [_ Ho]]]];
        [exists ra, rd, false | exists ra, rd, false | exists ra, rd, true];
        (split; [reflexivity | exact Ho]).
Qed.

(** What a call that returns TRUE has done, for every run of
    [gum_process_modify_thread] with fuel for one
    return through [setcontext]: the run is not cut off; a call that
    returns TRUE has invoked the callback exactly once; for another thread
    the register file rebuilt from the context the callback left is written
    to the target in a request that precedes the PTRACE_DETACH that resumes
    it, whatever the kernel answers to that request, and nothing is sent to
    the target after the detach; for the calling thread the context the
    callback left is the one installed, execution came back through it, and
    the [modified] flag kept the callback from running again. When the
    callback moved the program counter the call does not come back, the
    callback having run once. *)
Lemma callback_once_then_write_back_requested thread_id func flags fuel w :
  let s := gum_process_modify_thread (S fuel) thread_id func flags w in
  outcome_of s <> OutOfFuel
  /\ (forall w',
        outcome_of s = Returned true w' ->
        exists context,
          func_calls w' = context :: func_calls w
          /\ if thread_id =? gum_process_get_current_thread_id then
               let uc := reply_ucontext (fst (kernel_call SysGetcontext (kernel w))) in
               context = gum_linux_parse_ucontext uc
               /\ returns_to_getcontext
                    (gum_linux_unparse_ucontext (func thread_id context) uc) = true
             else
               exists regs after writes before rd,
                 context = gum_parse_regs regs
                 /\ syscalls w'
                    = (after ++ (SysPtrace PTRACE_DETACH thread_id 0 SIGCONT, rd)
                             :: writes ++ before) ++ syscalls w
                 /\ List.filter is_ptrace_request after = []
                 /\ writes <> []
                 /\ Forall (is_write_back thread_id
                              (gum_unparse_regs (func thread_id context) regs)) writes)
  /\ (forall uc' w',
        outcome_of s = Diverted uc' w' ->
        let uc := reply_ucontext (fst (kernel_call SysGetcontext (kernel w))) in
        let context := gum_linux_parse_ucontext uc in
        func_calls w' = context :: func_calls w
        /\ uc' = gum_linux_unparse_ucontext (func thread_id context) uc
        /\ returns_to_getcontext uc' = false).
Proof.
  intros s.
  destruct (thread_id =? gum_process_get_current_thread_id) eqn:Hcur.
  - destruct (self_cases thread_id func flags fuel w Hcur) as (_ & _ & Hself).
    fold s in Hself.
    destruct Hself as [[_ Hout] | [_ (w1 & Hout & Hlog & Hcalls)]].
    + rewrite Hout. repeat split; try discriminate.
    + destruct Hout as [[Hback Hout] | [Hback Hout]]; rewrite Hout.
      * split; [discriminate |]. split; [| discriminate].
        intros w2 Hw2. inversion Hw2; subst w2.
        eexists. split; [exact Hcalls |]. cbn zeta. split; [reflexivity | exact Hback].
      * split; [discriminate |]. split; [discriminate |].
        intros uc2 w2 Hw2. inversion Hw2; subst. cbn zeta. auto.
  - destruct (session_cases thread_id func flags (S fuel) w Hcur)
      as (w1 & new & Hw1 & Hlog & _ & Hcase).
    fold s in Hw1, Hcase.
    split; [intros Hout; rewrite Hout in Hw1; discriminate |].
    split; [| intros uc2 w2 Hout].
    + intros w2 Hout. rewrite Hout in Hw1. inversion Hw1; subst w1.
      destruct Hcase as [Hc | [Hc | [Hc | Hc]]].
      * destruct Hc as (_ & [Ho | Ho] & _); rewrite Ho in Hout; discriminate.
      * destruct Hc as (_ & Ho & _); rewrite Ho in Hout; discriminate.
      * destruct Hc as (tag & ra & rd & _ & _ & Ho & _); rewrite Ho in Hout; discriminate.
      * destruct Hc as (regs & tag & ra & rd & after & writes & before & Hc).
        cbn zeta in Hc.
        destruct Hc as (_ & Hnew & Hcalls & _ & Hafter & Hne & Hwrites & _).
        exists (gum_parse_regs regs). split; [exact Hcalls |].
        exists regs, after, writes, before, rd.
        rewrite Hlog, Hnew. auto.
    + exfalso.
      destruct Hcase as [Hc | [Hc | [Hc | Hc]]].
      * destruct Hc as (_ & [Ho | Ho] & _); rewrite Ho in Hout; discriminate.
      * destruct Hc as (_ & Ho & _); rewrite Ho in Hout; discriminate.
      * destruct Hc as (tag & ra & rd & _ & _ & Ho & _); rewrite Ho in Hout; discriminate.
      * destruct Hc as (regs & tag & ra & rd & after & writes & before & Hc).
        cbn zeta in Hc. destruct Hc as (_ & _ & _ & _ & _ & _ & _ & Hend).
        destruct Hend as [[_ Ho] | [[_ [_ Ho]] | [_ [_ Ho]]]];
          rewrite Ho in Hout; discriminate.
Qed.

End ThreadControlFacts.

(** C6, as the specification words it, fails: a register-set request
    refused with -EPERM leaves the preference as it was. *)
Lemma regset_kept_after_eperm : ~ regset_latches_on_any_failure.
Proof.
  intros Hlatch.
  specialize (Hlatch pc_only_arch scripted_kernel 77 (fresh_world [reply (- EPERM) 0 0])).
  vm_compute in Hlatch. discriminate Hlatch; reflexivity.
Qed.

(** C6, amended. While the register-set transfer is enabled, a read or a
    write asks for it first. An answer >= 0, -EPERM or -ESRCH is handed to
    the caller and leaves the preference alone. Any other negative answer
    switches the process to the legacy transfer, with which the same call is
    completed. Once switched, every later read and write issues the legacy
    request only and the preference stays off. *)
Theorem regset_downgrade_is_guarded_and_one_way `{Kernel}
    (pid : Z) (regs : GumRegs) (ops : list reg_access) (w : World) :
  (gum_is_regset_supported w = true ->
   let get := SysPtraceRegs PTRACE_GETREGSET pid NT_PRSTATUS NULL in
   let set := SysPtraceRegs PTRACE_SETREGSET pid NT_PRSTATUS (Ptr regs) in
   let rg := reply_ret (fst (kernel_call get (kernel w))) in
   let rs := reply_ret (fst (kernel_call set (kernel w))) in
   let wg := snd (gum_get_regs pid w) in
   let ws := snd (gum_set_regs pid regs w) in
   (0 <= rg \/ rg = - EPERM \/ rg = - ESRCH ->
      gum_is_regset_supported wg = true
      /\ fst (fst (gum_get_regs pid w)) = rg
      /\ syscalls wg = (get, rg) :: syscalls w)
   /\ (rg < 0 -> rg <> - EPERM -> rg <> - ESRCH ->
      gum_is_regset_supported wg = false
      /\ exists ret,
           fst (fst (gum_get_regs pid w)) = ret
           /\ syscalls wg
              = (SysPtraceRegs PTRACE_GETREGS pid 0 NULL, ret) :: (get, rg) :: syscalls w)
   /\ (0 <= rs \/ rs = - EPERM \/ rs = - ESRCH ->
      gum_is_regset_supported ws = true
      /\ fst (gum_set_regs pid regs w) = rs
      /\ syscalls ws = (set, rs) :: syscalls w)
   /\ (rs < 0 -> rs <> - EPERM -> rs <> - ESRCH ->
      gum_is_regset_supported ws = false
      /\ exists ret,
           fst (gum_set_regs pid regs w) = ret
           /\ syscalls ws
              = (SysPtraceRegs PTRACE_SETREGS pid 0 (Ptr regs), ret)
                  :: (set, rs) :: syscalls w))
  /\ (gum_is_regset_supported w = false ->
      let w' := fold_left (fun w op => access_regs op w) ops w in
      gum_is_regset_supported w' = false
      /\ exists new,
           syscalls w' = new ++ syscalls w
           /\ forallb (fun e => is_legacy_request (fst e)) new = true).
Proof.
  split.
  - intros Hon. cbn zeta.
    destruct (gum_get_regs_regset pid w Hon) as [Hg1 Hg2].
    destruct (gum_set_regs_regset pid regs w Hon) as [Hs1 Hs2].
    exact (conj Hg1 (conj Hg2 (conj Hs1 Hs2))).
  - intros Hoff. apply regset_stays_off. exact Hoff.
Qed.

(** C1. The kernel answers -EIO to PTRACE_SETREGSET and to PTRACE_SETREGS.
    [gum_set_regs] returns -5, the helper compares it with -1, goes on to
    detach and sends WROTE_CONTEXT: the callback has run once, the write-back
    has failed, and the call returns TRUE. *)
Theorem refused_write_back_is_reported_as_success :
  let s := @gum_process_modify_thread pc_only_arch scripted_kernel
             1 77 (fun _ pc => pc + 1) 0 (fresh_world refused_write_back_script) in
  sent s = [GUM_ACK_READ_CONTEXT; GUM_ACK_WROTE_CONTEXT]
  /\ match outcome_of s with
     | Returned success w' =>
         success = true
         /\ func_calls w' = [40]
         /\ syscalls w'
            = [(control_request PTRACE_DETACH 77 0 SIGCONT, 0);
               (regs_request PTRACE_SETREGS 77 0 (Ptr 41), - EIO);
               (regs_request PTRACE_SETREGSET 77 NT_PRSTATUS (Ptr 41), - EIO);
               (regs_request PTRACE_GETREGSET 77 NT_PRSTATUS NULL, 0);
               (SysWaitpid 77 __WALL, 77);
               (control_request PTRACE_ATTACH 77 0 0, 0);
               (SysPrctl PR_SET_PTRACER 500, 0);
               (SysPrctl PR_GET_DUMPABLE 0, 1);
               (SysClone, 500);
               (SysSocketpair, 0)]
     | _ => False
     end.
Proof.
  vm_compute. repeat split.
Qed.

(** C5. A call that returns TRUE without the context being applied. The
    callback runs once, on the context read from thread 77 (pc = 40), and
    leaves pc = 41. The kernel answers -EIO to PTRACE_SETREGSET and to
    PTRACE_SETREGS, so no register write is accepted; [gum_set_regs] returns
    -5, the helper compares it with -1 and detaches, thread 77 resumes with
    the registers it had, and the call returns TRUE. *)
Theorem refused_context_is_not_applied :
  let s := @gum_process_modify_thread pc_only_arch scripted_kernel
             1 77 (fun _ pc => pc + 1) 0 (fresh_world refused_write_back_script) in
  match outcome_of s with
  | Returned success w' =>
      success = true
      /\ func_calls w' = [40]
      /\ List.filter is_ptrace_request (syscalls w')
         = [(control_request PTRACE_DETACH 77 0 SIGCONT, 0);
            (regs_request PTRACE_SETREGS 77 0 (Ptr 41), - EIO);
            (regs_request PTRACE_SETREGSET 77 NT_PRSTATUS (Ptr 41), - EIO);
            (regs_request PTRACE_GETREGSET 77 NT_PRSTATUS NULL, 0);
            (control_request PTRACE_ATTACH 77 0 0, 0)]
      /\ List.filter is_accepted_write (syscalls w') = []
  | _ => False
  end.
Proof.
  vm_compute. repeat split.
Qed.

(** A run of the theorem for C2: the target, thread 77, is reported
    as not stopped; the helper sends FAILED_TO_STOP and detaches from thread
    77 with SIGCONT before it exits. *)
Lemma helper_detaches_witness :
  let w := fresh_world not_stopped_script in
  let s := @gum_process_modify_thread pc_only_arch scripted_kernel
             1 77 (fun _ pc => pc + 1) 0 w in
  sent s = [GUM_ACK_FAILED_TO_STOP]
  /\ exists w',
       world_of (outcome_of s) = Some w'
       /\ exists new,
            syscalls w' = new ++ syscalls w
            /\ attaches_resolved 77 false new = true
            /\ List.filter is_control_request new
               = [(control_request PTRACE_DETACH 77 0 SIGCONT, 0);
                  (control_request PTRACE_ATTACH 77 0 0, 0)].
Proof.
  cbv zeta. split; [vm_compute; reflexivity |].
  eexists. split; [vm_compute; reflexivity |].
  match goal with
  | |- exists new, syscalls ?W = _ /\ _ =>
      assert (Hw : world_of (outcome_of
                     (@gum_process_modify_thread pc_only_arch scripted_kernel
                        1 77 (fun _ pc => pc + 1) 0 (fresh_world not_stopped_script)))
                   = Some W) by (vm_compute; reflexivity);
      destruct (@helper_detaches_on_every_exit_path pc_only_arch scripted_kernel
                  77 (fun _ pc => pc + 1) 0 0 (fresh_world not_stopped_script) W Hw)
        as (new & Hlog & Hres & _)
  end.
  exists new. split; [exact Hlog |]. split; [exact Hres |].
  rewrite (app_nil_r new : new ++ syscalls (fresh_world not_stopped_script) = new)
    in Hlog.
  rewrite <- Hlog. vm_compute. reflexivity.
Defined.

(** Runs of the lemma above: a successful session with another thread, and
    a successful call on the calling thread (thread 1). *)
Lemma callback_once_run :
  let w := fresh_world accepting_script in
  let other := @gum_process_modify_thread pc_only_arch scripted_kernel
                 1 77 (fun _ pc => pc + 1) 0 w in
  let own := @gum_process_modify_thread pc_only_arch scripted_kernel
               1 1 (fun _ pc => pc) 0 w in
  (exists w', outcome_of other = Returned true w'
              /\ exists context, func_calls w' = context :: func_calls w)
  /\ (exists w', outcome_of own = Returned true w'
                 /\ exists context, func_calls w' = context :: func_calls w).
Proof.
  cbv zeta. split.
  - eexists. split; [vm_compute; reflexivity |].
    destruct (@callback_once_then_write_back_requested pc_only_arch scripted_kernel
                77 (fun _ pc => pc + 1) 0 0 (fresh_world accepting_script))
      as (_ & Hret & _).
    match goal with
    | |- exists c, func_calls ?W = _ =>
        destruct (Hret W) as (c & Hc & _); [vm_compute; reflexivity | exists c; exact Hc]
    end.
  - eexists. split; [vm_compute; reflexivity |].
    destruct (@callback_once_then_write_back_requested pc_only_arch scripted_kernel
                1 (fun _ pc => pc) 0 0 (fresh_world accepting_script))
      as (_ & Hret & _).
    match goal with
    | |- exists c, func_calls ?W = _ =>
        destruct (Hret W) as (c & Hc & _); [vm_compute; reflexivity | exists c; exact Hc]
    end.
Defined.

(** * Further facts *)

(** ** More on the slices *)

Section AllocatorShape.
Context {M : Type} `{GumMemory M}.

Tactic Notation "open_bind" hyp(E) "as" simple_intropattern(pat) :=
  apply bind_returns in E; destruct E as pat.

Tactic Notation "open_ret" hyp(E) :=
  unfold gum_ret in E; inversion E; subst; clear E.

(** The carving loop puts slices 1, 2, ... of the new batch, in this order,
    in front of the free list. *)
Lemma carve_slices_order pages n free :
  carve_slices pages n free
  = map (fun i => {| element_pages := pages; element_index := i |}) (seq 1 (Nat.pred n))
    ++ free.
Proof.
  revert free. induction n as [| n IH]; intros free; [reflexivity |].
  cbn [carve_slices]. rewrite IH. destruct n as [| n]; [reflexivity |].
  cbn [Nat.pred]. rewrite seq_S, map_app, <- app_assoc. reflexivity.
Qed.

(** What [gum_code_pages_unref] does to the heap. *)
Lemma gum_code_pages_unref_effect p (st : State M) st' :
  gum_code_pages_unref p st = Returns (tt, st') ->
  exists pages,
    pages_heap st !! p = Some pages
    /\ allocator st' = allocator st
    /\ pages_heap st'
       = if ref_count pages - 1 =? 0 then delete p (pages_heap st)
         else <[p := set_ref_count (ref_count pages - 1) pages]> (pages_heap st).
Proof.
  unfold gum_code_pages_unref. intros E. open_bind E as (pages & st1 & Hload & E).
  apply load_pages_returns in Hload as [-> Hp]. exists pages. split; [exact Hp |].
  open_bind E as ([] & st2 & Hstore & E). unfold store_pages in Hstore. open_ret Hstore.
  destruct (ref_count pages - 1 =? 0).
  - open_bind E as ([] & st3 & Hfree & E).
    assert (Hfr : allocator st3 = allocator st
                  /\ pages_heap st3
                     = <[p := set_ref_count (ref_count pages - 1) pages]> (pages_heap st)).
    { destruct (segment pages); [unfold call_free_pages in Hfree | unfold emit in Hfree];
        open_ret Hfree; auto. }
    destruct Hfr as [Ha Hh]. unfold g_slice_free_pages in E. open_ret E.
    cbn. rewrite Hh, delete_insert_eq. auto.
  - open_ret E. cbn. auto.
Qed.


Lemma batches_carved_same (st st' : State M) :
  pages_heap st' = pages_heap st ->
  slice_size (allocator st') = slice_size (allocator st) ->
  slices_per_page (allocator st') = slices_per_page (allocator st) ->
  batches_carved st -> batches_carved st'.
Proof.
  intros Hh Hs Hk Hc p pages Hp. rewrite Hh in Hp. rewrite Hs, Hk. exact (Hc p pages Hp).
Qed.

Lemma batches_carved_unref p (st st' : State M) :
  gum_code_pages_unref p st = Returns (tt, st') ->
  batches_carved st -> batches_carved st'.
Proof.
  intros E Hc. apply gum_code_pages_unref_effect in E as (pages & Hp & Ha & Hh).
  intros q pages' Hq. rewrite Ha, Hh in *. clear Ha Hh.
  destruct (Z.eqb_spec (ref_count pages - 1) 0) as [Hz | Hnz].
  - destruct (decide (p = q)) as [<- | Hne].
    + rewrite lookup_delete_eq in Hq. discriminate.
    + rewrite lookup_delete_ne in Hq by exact Hne. exact (Hc q pages' Hq).
  - destruct (decide (p = q)) as [<- | Hne].
    + rewrite lookup_insert_eq in Hq. inversion Hq; subst pages'. cbn.
      destruct (Hc p pages Hp) as (He & Hsz & Hpos).
      split; [exact He |]. split; [exact Hsz |]. intros Hk. specialize (Hpos Hk). lia.
    + rewrite lookup_insert_ne in Hq by exact Hne. exact (Hc q pages' Hq).
Qed.

Lemma batches_carved_unref_each l : forall (st st' : State M),
  unref_each l st = Returns (tt, st') ->
  batches_carved st -> batches_carved st'.
Proof.
  induction l as [| e l IH]; intros st st' E Hc; cbn [unref_each] in E.
  - open_ret E. exact Hc.
  - open_bind E as ([] & st1 & Hun & E).
    eapply IH; [exact E |]. eapply batches_carved_unref; eassumption.
Qed.

(** [slice_size] is set by [gum_code_allocator_init] and by nothing else. *)
Lemma scan_free_slices_slice_size spec alignment cur : forall before (st : State M) r st',
  scan_free_slices spec alignment before cur st = Returns (r, st') ->
  slice_size (allocator st') = slice_size (allocator st).
Proof.
  intros before st r st' E.
  apply scan_free_slices_spec in E as [(_ & -> & _) | (e & passed & next & slice & Hrest)].
  - reflexivity.
  - apply Hrest.
Qed.

Lemma try_alloc_slice_near_slice_size spec alignment (st : State M) r st' :
  gum_code_allocator_try_alloc_slice_near spec alignment st = Returns (r, st') ->
  slice_size (allocator st') = slice_size (allocator st).
Proof.
  unfold gum_code_allocator_try_alloc_slice_near. intros E.
  open_bind E as (a & st1 & Hself & E). apply self_returns in Hself as [-> ->].
  open_bind E as (found & st1 & Hscan & E).
  pose proof (scan_free_slices_slice_size _ _ _ _ _ _ _ Hscan) as Hs.
  destruct found as [| e].
  - apply scan_free_slices_spec in Hscan as [(_ & -> & _) | (e & ? & ? & ? & Hr & _)];
      [| discriminate].
    apply gum_code_allocator_try_alloc_batch_near_spec in E as (got & st2 & Hmem & Hgot).
    apply alloc_batch_memory_frame in Hmem as (Ha & _).
    destruct got as [[seg data] |].
    + cbn zeta in Hgot. apply Hgot.
    + destruct Hgot as [_ ->]. now rewrite Ha.
  - open_ret E. exact Hs.
Qed.

Lemma slice_free_slice_size e (st : State M) st' :
  gum_code_slice_free (Ptr e) st = Returns (tt, st') ->
  slice_size (allocator st') = slice_size (allocator st).
Proof.
  unfold gum_code_slice_free. intros E.
  open_bind E as (slice & st1 & Hload & E). apply load_slice_returns in Hload as [-> _].
  destruct gum_query_is_rwx_supported.
  - open_bind E as (pages & st1 & Hload & E). apply load_pages_returns in Hload as [-> _].
    apply update_self_returns in E as (Ha & _). now rewrite Ha.
  - apply gum_code_pages_unref_effect in E as (pages & _ & Ha & _). now rewrite Ha.
Qed.

(** [gum_code_allocator_commit], step by step. *)
Lemma commit_effect (st : State M) st' :
  gum_code_allocator_commit st = Returns (tt, st') ->
  slice_size (allocator st') = slice_size (allocator st)
  /\ (batches_carved st -> batches_carved st').
Proof.
  unfold gum_code_allocator_commit. intros E.
  open_bind E as (a0 & st1 & Hself & E). apply self_returns in Hself as [-> ->].
  open_bind E as ([] & st2 & Hreal & E). apply realize_each_frame in Hreal as (Ha2 & Hh2).
  open_bind E as ([] & st3 & Hup & E). apply update_self_returns in Hup as (Ha3 & Hh3 & _).
  open_bind E as ([] & st4 & Hcl & E). apply clear_cache_each_frame in Hcl as (Ha4 & Hh4).
  open_bind E as ([] & st5 & Hup & E). apply update_self_returns in Hup as (Ha5 & Hh5 & _).
  assert (H5 : pages_heap st5 = pages_heap st) by congruence.
  assert (Hs5 : slice_size (allocator st5) = slice_size (allocator st)
                /\ slices_per_page (allocator st5) = slices_per_page (allocator st)).
  { rewrite Ha5, Ha4, Ha3, Ha2. split; reflexivity. }
  destruct Hs5 as [Hs5 Hk5].
  destruct gum_query_is_rwx_supported.
  - open_ret E. split; [exact Hs5 |]. apply batches_carved_same; assumption.
  - open_bind E as (a1 & st6 & Hself & E). apply self_returns in Hself as [-> ->].
    open_bind E as ([] & st7 & Hun & E).
    pose proof (unref_each_spec _ _ _ Hun) as [_ Ha7].
    apply update_self_returns in E as (Ha8 & Hh8 & _).
    split; [rewrite Ha8, Ha7; exact Hs5 |].
    intros Hc. apply (batches_carved_same st7).
    + exact Hh8.
    + rewrite Ha8. reflexivity.
    + rewrite Ha8. reflexivity.
    + eapply batches_carved_unref_each; [exact Hun |].
      apply (batches_carved_same st); assumption.
Qed.


Lemma remove_first_perm (e : GumCodeSliceElement) l :
  e ∈ l -> l ≡ₚ e :: remove_first e l.
Proof.
  induction l as [| x l IH]; intros Hin; [inversion Hin |].
  cbn [remove_first]. destruct (decide (e = x)) as [-> | Hne]; [reflexivity |].
  apply elem_of_cons in Hin as [-> | Hin]; [contradiction |].
  rewrite (IH Hin) at 1. apply perm_swap.
Qed.

(** No slice of a batch that is not on the heap is handed out or free. *)
Lemma no_slice_of_missing_batch (st : State M) live e :
  batch_invariant st live ->
  pages_heap st !! element_pages e = None ->
  e ∉ live ++ free_slices (allocator st).
Proof.
  intros [_ Hinv] Hnone Hin. specialize (Hinv (element_pages e)).
  unfold refs in Hinv. rewrite Hnone in Hinv.
  pose proof (slices_of_nonneg (element_pages e) live).
  pose proof (slices_of_nonneg (element_pages e) (free_slices (allocator st))).
  apply elem_of_app in Hin as [Hin | Hin]; apply slices_of_elem in Hin; lia.
Qed.

Lemma allocator_shape_reachable (st : State M) live :
  reachable st live -> allocator_shape st live.
Proof.
  induction 1 as [st0 size st Hempty Hinit
                 | st live spec alignment e st' Hreach IH Halloc
                 | st live spec alignment st' Hreach IH Halloc
                 | st live e st' Hreach IH Hin Hfree
                 | st live st' Hreach IH Hcommit].
  - unfold gum_code_allocator_init in Hinit.
    destruct (size =? 0); [discriminate Hinit |].
    apply update_self_returns in Hinit as (Ha & Hh & _).
    split; [| split].
    + rewrite Ha. cbn. constructor.
    + intros p pages Hp. rewrite Hh, Hempty, lookup_empty in Hp. discriminate.
    + rewrite Ha. reflexivity.
  - destruct IH as (Hnd & Hc & Hk).
    pose proof (batch_invariant_reachable _ _ Hreach) as Hinv.
    pose proof (try_alloc_slice_near_slice_size _ _ _ _ _ Halloc) as Hs.
    apply gum_code_allocator_try_alloc_slice_near_cases in Halloc
      as [(e' & passed & next & slice & Hr & Hold & _ & _ & _ & _ & Hnew & Hh & Hk')
         | (_ & Hbatch)].
    + inversion Hr; subst e'. split; [| split].
      * rewrite Hnew. rewrite Hold in Hnd.
        eapply NoDup_Permutation_proper; [| exact Hnd]. solve_Permutation.
      * eapply batches_carved_same; eassumption.
      * rewrite Hk', Hs. exact Hk.
    + apply gum_code_allocator_try_alloc_batch_near_spec in Hbatch
        as (got & st1 & Hmem & Hgot).
      destruct got as [[seg data] |]; [| destruct Hgot; discriminate].
      cbn zeta in Hgot. destruct Hgot as (Hr & Hh & Hf & Hs' & Hk').
      destruct (Z.to_nat (slices_per_page (allocator st))) as [| n] eqn:Hn;
        [discriminate |].
      inversion Hr; subst e.
      set (p := fresh (dom (pages_heap st))) in *.
      assert (Hfresh : pages_heap st !! p = None) by (apply not_elem_of_dom, is_fresh).
      split; [| split].
      * rewrite Hf, carve_slices_order. cbn [Nat.pred].
        apply (NoDup_Permutation_proper
                 (map (fun i => {| element_pages := p; element_index := i |}) (seq 0 (S n))
                  ++ (live ++ free_slices (allocator st)))).
        { cbn [seq map]. rewrite <- seq_shift, map_map. solve_Permutation. }
        apply NoDup_app. split; [| split; [| exact Hnd]].
        -- apply NoDup_fmap_2; [| apply NoDup_seq]. intros i j Hij. now inversion Hij.
        -- intros x Hx. apply list_elem_of_fmap in Hx as (i & -> & _).
           apply (no_slice_of_missing_batch st live); [exact Hinv | exact Hfresh].
      * intros q pages Hq. rewrite Hh in Hq. rewrite Hs', Hk'.
        destruct (decide (p = q)) as [<- | Hne].
        -- rewrite lookup_insert_eq in Hq. inversion Hq; subst pages. cbn.
           rewrite Hn. split; [reflexivity |]. split; [reflexivity |]. auto.
        -- rewrite lookup_insert_ne in Hq by exact Hne. exact (Hc q pages Hq).
      * rewrite Hk', Hs'. exact Hk.
  - destruct IH as (Hnd & Hc & Hk).
    pose proof (try_alloc_slice_near_slice_size _ _ _ _ _ Halloc) as Hs.
    apply gum_code_allocator_try_alloc_slice_near_cases in Halloc
      as [(e' & passed & next & slice & Hr & _) | (_ & Hbatch)]; [discriminate |].
    apply gum_code_allocator_try_alloc_batch_near_spec in Hbatch
      as (got & st1 & Hmem & Hgot).
    apply alloc_batch_memory_frame in Hmem as (Ha1 & Hh1 & _).
    destruct got as [[seg data] |].
    + cbn zeta in Hgot. destruct Hgot as (Hr & Hh & Hf & Hs' & Hk').
      destruct (Z.to_nat (slices_per_page (allocator st))) as [| n] eqn:Hn;
        [| discriminate].
      split; [| split].
      * rewrite Hf. exact Hnd.
      * intros q pages Hq. rewrite Hh in Hq. rewrite Hs', Hk'.
        destruct (decide (fresh (dom (pages_heap st)) = q)) as [<- | Hne].
        -- rewrite lookup_insert_eq in Hq. inversion Hq; subst pages. cbn.
           rewrite Hn. split; [reflexivity |]. split; [reflexivity |]. lia.
        -- rewrite lookup_insert_ne in Hq by exact Hne. exact (Hc q pages Hq).
      * rewrite Hk', Hs'. exact Hk.
    + destruct Hgot as [_ ->]. split; [| split].
      * rewrite Ha1. exact Hnd.
      * apply (batches_carved_same st); [exact Hh1 | now rewrite Ha1 .. | exact Hc].
      * rewrite Ha1. exact Hk.
  - destruct IH as (Hnd & Hc & Hk).
    pose proof (slice_free_slice_size _ _ _ Hfree) as Hs.
    pose proof Hfree as Hfree0.
    apply gum_code_slice_free_spec in Hfree as (Hk' & Hfree).
    assert (Hperm : live ++ free_slices (allocator st)
                    ≡ₚ e :: remove_first e live ++ free_slices (allocator st)).
    { rewrite (remove_first_perm e live Hin) at 1. reflexivity. }
    rewrite Hperm in Hnd. split; [| split].
    + destruct gum_query_is_rwx_supported.
      * destruct Hfree as [Hf _]. rewrite Hf.
        eapply NoDup_Permutation_proper; [| exact Hnd]. solve_Permutation.
      * destruct Hfree as [Hf _]. rewrite Hf. now apply NoDup_cons in Hnd.
    + unfold gum_code_slice_free in Hfree0.
      open_bind Hfree0 as (slice & st1 & Hload & E).
      apply load_slice_returns in Hload as [-> _].
      destruct gum_query_is_rwx_supported.
      * destruct Hfree as [_ Hh]. eapply batches_carved_same; eassumption.
      * eapply batches_carved_unref; eassumption.
    + rewrite Hk', Hs. exact Hk.
  - destruct IH as (Hnd & Hc & Hk).
    destruct (commit_effect _ _ Hcommit) as [Hs Hcarved].
    apply gum_code_allocator_commit_spec in Hcommit as (_ & _ & Hk' & Hcm).
    split; [| split].
    + destruct gum_query_is_rwx_supported.
      * destruct Hcm as [Hf _]. rewrite Hf. exact Hnd.
      * destruct Hcm as [Hf _]. rewrite Hf, app_nil_r. now apply NoDup_app in Hnd.
    + exact (Hcarved Hc).
    + rewrite Hk', Hs. exact Hk.
Qed.


(** A slice that is handed out or free belongs to a batch on the heap and
    is the slice of its index. *)
Lemma slice_of_reachable (st : State M) live e :
  reachable st live ->
  e ∈ live ++ free_slices (allocator st) ->
  exists pages,
    pages_heap st !! element_pages e = Some pages
    /\ (element_index e < Z.to_nat (slices_per_page (allocator st)))%nat
    /\ pages_size pages = 1 * gum_query_page_size
    /\ load_slice e st
       = Returns (slice_at (pages_data pages) (slice_size (allocator st))
                    (element_index e), st).
Proof.
  intros Hreach Hin.
  destruct (batch_invariant_reachable _ _ Hreach) as [_ Hinv].
  destruct (slices_loadable_reachable _ _ Hreach) as [_ Hidx].
  destruct (allocator_shape_reachable _ _ Hreach) as (_ & Hc & _).
  assert (Hp : exists pages, pages_heap st !! element_pages e = Some pages).
  { destruct (pages_heap st !! element_pages e) as [pages |] eqn:Hp; [eauto |].
    exfalso. revert Hin. apply no_slice_of_missing_batch; [| exact Hp].
    exact (batch_invariant_reachable _ _ Hreach). }
  destruct Hp as [pages Hp]. exists pages.
  destruct (Hc _ _ Hp) as (He & Hsz & _). specialize (Hidx e Hin).
  split; [exact Hp |]. split; [exact Hidx |]. split; [exact Hsz |].
  unfold load_slice, gum_bind, load_pages. rewrite Hp, He.
  rewrite list_lookup_fmap, lookup_seq_lt by exact Hidx. reflexivity.
Qed.

(** X1. An allocation never returns a slice that is still handed out, and
    the slice it returns is no longer on the free list. *)
Theorem allocation_never_returns_a_live_slice (st : State M) live spec alignment e st' :
  reachable st live ->
  gum_code_allocator_try_alloc_slice_near spec alignment st = Returns (Ptr e, st') ->
  (e ∉ live) /\ (e ∉ free_slices (allocator st')) /\ NoDup (e :: live).
Proof.
  intros Hreach Halloc.
  assert (Hnext : reachable st' (e :: live)) by (eapply reach_alloc; eassumption).
  destruct (allocator_shape_reachable _ _ Hnext) as (Hnd & _).
  cbn [app] in Hnd. pose proof Hnd as Hall.
  apply NoDup_cons in Hnd as [Hnot Hrest].
  split; [intros Hin; apply Hnot; apply elem_of_app; auto |].
  split; [intros Hin; apply Hnot; apply elem_of_app; auto |].
  apply NoDup_cons. split.
  - intros Hin. apply Hnot. apply elem_of_app. auto.
  - now apply NoDup_app in Hrest.
Qed.

(** X2. In a reachable state of an allocator with a non-zero slice size,
    every slice that is handed out or free lies inside the page of its
    batch, and two different slices of one batch have no byte in common. *)
Theorem slices_lie_in_their_page_and_apart (st : State M) live e1 e2 :
  reachable st live ->
  0 < slice_size (allocator st) ->
  0 <= gum_query_page_size < modulus ->
  e1 ∈ live ++ free_slices (allocator st) ->
  e2 ∈ live ++ free_slices (allocator st) ->
  element_pages e1 = element_pages e2 ->
  exists pages s1 s2,
    pages_heap st !! element_pages e1 = Some pages
    /\ load_slice e1 st = Returns (s1, st)
    /\ load_slice e2 st = Returns (s2, st)
    /\ slice_inside pages s1
    /\ slice_inside pages s2
    /\ (e1 <> e2 -> slices_apart s1 s2).
Proof.
  intros Hreach Hss Hpage Hin1 Hin2 Hsame.
  destruct (slice_of_reachable _ _ _ Hreach Hin1) as (pages & Hp1 & Hi1 & Hsz & Hl1).
  destruct (slice_of_reachable _ _ _ Hreach Hin2) as (pages2 & Hp2 & Hi2 & _ & Hl2).
  rewrite <- Hsame, Hp1 in Hp2. inversion Hp2; subst pages2.
  destruct (allocator_shape_reachable _ _ Hreach) as (_ & _ & Hk).
  set (ss := slice_size (allocator st)) in *.
  set (k := slices_per_page (allocator st)) in *.
  assert (Hq : 0 <= gum_query_page_size / ss <= gum_query_page_size).
  { split; [apply Z.div_pos; lia |]. apply Z.div_le_upper_bound; nia. }
  assert (Hkk : k = gum_query_page_size / ss).
  { rewrite Hk. unfold gsize_of. apply Z.mod_small. lia. }
  assert (Hfit : k * ss <= gum_query_page_size).
  { rewrite Hkk, Z.mul_comm. apply Z.mul_div_le. lia. }
  assert (Hins : forall i : nat, (i < Z.to_nat k)%nat ->
            slice_inside pages (slice_at (pages_data pages) ss i)).
  { intros i Hi. unfold slice_inside, slice_end, slice_at. cbn. rewrite Hsz. nia. }
  exists pages, (slice_at (pages_data pages) ss (element_index e1)),
         (slice_at (pages_data pages) ss (element_index e2)).
  split; [exact Hp1 |]. split; [exact Hl1 |]. split; [exact Hl2 |].
  split; [apply Hins; exact Hi1 |]. split; [apply Hins; exact Hi2 |].
  intros Hne.
  assert (Hidx : element_index e1 <> element_index e2).
  { intros Heq. apply Hne. destruct e1, e2. cbn in *. congruence. }
  unfold slices_apart, slice_end, slice_at. cbn.
  destruct (Nat.lt_total (element_index e1) (element_index e2)) as [Hlt | [Heq | Hgt]];
    [left; nia | contradiction | right; nia].
Qed.

(** X3. Where pages can be writable and executable, a freed slice is the
    next one an unconstrained allocation returns; the memory layer is not
    called and the free list is as before the free. *)
Theorem freed_slice_is_reused_first (st : State M) e st1 :
  gum_query_is_rwx_supported = true ->
  gum_code_slice_free (Ptr e) st = Returns (tt, st1) ->
  exists st2,
    gum_code_allocator_alloc_slice st1 = Returns (Ptr e, st2)
    /\ free_slices (allocator st2) = free_slices (allocator st)
    /\ pages_heap st2 = pages_heap st
    /\ backend st2 = backend st
    /\ trace st2 = trace st
    /\ dirty_pages (allocator st2) = {[ element_pages e ]} ∪ dirty_pages (allocator st).
Proof.
  intros Hrwx Hfree. unfold gum_code_slice_free in Hfree. rewrite Hrwx in Hfree.
  open_bind Hfree as (slice & st0 & Hload & E).
  pose proof Hload as Hload0. apply load_slice_returns in Hload as [-> _].
  open_bind E as (pages & st0 & Hp & E). apply load_pages_returns in Hp as [-> Hp].
  unfold update_self in E. open_ret E.
  unfold gum_code_allocator_alloc_slice, gum_code_allocator_try_alloc_slice_near.
  unfold gum_bind at 1. unfold self at 1. cbn [allocator with_allocator free_slices
    set_free_slices scan_free_slices].
  unfold gum_bind at 1. unfold gum_bind at 1.
  assert (Hload1 : load_slice e
                     (with_allocator
                        (set_free_slices (e :: free_slices (allocator st)) (allocator st))
                        st)
                   = Returns (slice, with_allocator
                        (set_free_slices (e :: free_slices (allocator st)) (allocator st))
                        st)).
  { apply load_slice_returns in Hload0 as (_ & pages0 & Hp0 & Hs0).
    unfold load_slice, gum_bind, load_pages. cbn. rewrite Hp0, Hs0. reflexivity. }
  rewrite Hload1. cbn. eexists. split; [reflexivity |]. cbn. repeat split.
Qed.

(** X4. Where pages cannot be writable and executable, a commit leaves the
    free list empty and every batch that is left with a count equal to the
    number of its slices that are handed out. *)
Theorem commit_leaves_count_of_live_slices (st : State M) live st' :
  gum_query_is_rwx_supported = false ->
  reachable st live ->
  gum_code_allocator_commit st = Returns (tt, st') ->
  free_slices (allocator st') = []
  /\ forall p,
       match pages_heap st' !! p with
       | Some pages => ref_count pages = slices_of p live
       | None => slices_of p live = 0
       end.
Proof.
  intros Hrwx Hreach Hcommit.
  assert (Hnext : reachable st' live) by (eapply reach_commit; eassumption).
  apply gum_code_allocator_commit_spec in Hcommit as (_ & _ & _ & Hcm).
  rewrite Hrwx in Hcm. destruct Hcm as [Hf _]. split; [exact Hf |].
  intros p. destruct (batch_invariant_reachable _ _ Hnext) as [_ Hinv].
  specialize (Hinv p). unfold refs in Hinv. rewrite Hf in Hinv. cbn in Hinv.
  destruct (pages_heap st' !! p); lia.
Qed.


Lemma gum_code_pages_unref_returns p pages (st : State M) :
  pages_heap st !! p = Some pages ->
  exists st', gum_code_pages_unref p st = Returns (tt, st').
Proof.
  intros Hp. unfold gum_code_pages_unref, gum_bind, load_pages, store_pages. rewrite Hp.
  destruct (ref_count pages - 1 =? 0); [| eexists; reflexivity].
  destruct (segment pages); cbn; eexists; reflexivity.
Qed.

(** As long as every batch is counted at least as often as the list names
    it, the walk over the list meets no batch that is gone. *)
Lemma unref_each_returns l : forall (st : State M),
  (forall p, slices_of p l <= refs st p) ->
  exists st', unref_each l st = Returns (tt, st').
Proof.
  induction l as [| e l IH]; intros st Hcount; cbn [unref_each].
  - eexists. reflexivity.
  - assert (Hp : exists pages, pages_heap st !! element_pages e = Some pages).
    { specialize (Hcount (element_pages e)). cbn [slices_of] in Hcount.
      rewrite decide_True in Hcount by reflexivity.
      pose proof (slices_of_nonneg (element_pages e) l).
      unfold refs in Hcount. destruct (pages_heap st !! element_pages e); [eauto | lia]. }
    destruct Hp as [pages Hp].
    destruct (gum_code_pages_unref_returns _ _ _ Hp) as [st1 Hun].
    unfold gum_bind. rewrite Hun.
    apply gum_code_pages_unref_spec in Hun as (Hdec & Hother & _).
    apply IH. intros p. specialize (Hcount p). cbn [slices_of] in Hcount.
    destruct (decide (element_pages e = p)) as [<- | Hne].
    + rewrite Hdec. lia.
    + rewrite Hother by auto. lia.
Qed.

(** X5. [gum_code_allocator_free] on an allocator without dispatchers
    returns, empties the lists of the allocator, and drops the references of
    the free slices: a batch none of whose slices is handed out is released,
    a batch with slices still handed out stays, counted once per such
    slice. *)
Theorem allocator_free_releases_unused_batches (st : State M) live depth :
  reachable st live ->
  dispatchers (allocator st) = [] ->
  1 <= slices_per_page (allocator st) ->
  exists st',
    gum_code_allocator_free_upto depth st = Returns (tt, st')
    /\ free_slices (allocator st') = []
    /\ uncommitted_pages (allocator st') = []
    /\ dirty_pages (allocator st') = ∅
    /\ dispatchers (allocator st') = []
    /\ forall p,
         match pages_heap st' !! p with
         | Some pages => ref_count pages = slices_of p live /\ 1 <= slices_of p live
         | None => slices_of p live = 0
         end.
Proof.
  intros Hreach Hnone Hspp.
  destruct (batch_invariant_reachable _ _ Hreach) as [_ Hinv].
  destruct (allocator_shape_reachable _ _ Hreach) as (_ & Hc & _).
  set (st0 := with_allocator (set_dispatchers [] (allocator st)) st).
  assert (Hcount : forall p, slices_of p (free_slices (allocator st0)) <= refs st0 p).
  { intros p. unfold refs. cbn. fold (refs st p). rewrite Hinv.
    pose proof (slices_of_nonneg p live). lia. }
  destruct (unref_each_returns _ _ Hcount) as [st1 Hun].
  assert (Hc1 : batches_carved st1).
  { eapply batches_carved_unref_each; [exact Hun |].
    apply (batches_carved_same st); [reflexivity .. | exact Hc]. }
  pose proof (unref_each_spec _ _ _ Hun) as [Hrefs Ha1].
  eexists. split.
  - unfold gum_code_allocator_free_upto, gum_bind at 1, self at 1. rewrite Hnone.
    cbn [free_each_dispatcher]. unfold gum_bind at 1, gum_ret at 1.
    unfold gum_bind at 1, update_self at 1. fold st0.
    unfold gum_bind at 1, self at 1. unfold gum_bind at 1. rewrite Hun.
    cbn. reflexivity.
  - cbn. rewrite Ha1. cbn. repeat split.
    intros p. specialize (Hrefs p). unfold refs in Hrefs. cbn in Hrefs.
    fold (refs st p) in Hrefs. rewrite Hinv in Hrefs.
    destruct (pages_heap st1 !! p) as [pages |] eqn:Hp; [| lia].
    destruct (Hc1 _ _ Hp) as (_ & _ & Hpos).
    assert (Hk : slices_per_page (allocator st1) = slices_per_page (allocator st))
      by (rewrite Ha1; reflexivity).
    rewrite Hk in Hpos. specialize (Hpos Hspp). lia.
Qed.

End AllocatorShape.

(** ** More on the deflectors *)

Section DeflectorLifecycle.
Context {M : Type} `{GumMemory M}.

Tactic Notation "open_bind" hyp(E) "as" simple_intropattern(pat) :=
  apply bind_returns in E; destruct E as pat.

Tactic Notation "open_ret" hyp(E) :=
  unfold gum_ret in E; inversion E; subst; clear E.

(** What the probe accepts. *)
Lemma gum_probe_range_for_code_cave_sound mem caller details cave :
  gum_probe_range_for_code_cave mem caller details = Some cave ->
  base_address cave = gsize_of (base_address details + 8)
  /\ range_size cave = 8
  /\ address_distance (base_address cave) (near_address caller) <= max_distance caller
  /\ read_bytes mem (base_address details) SELFMAG = ELFMAG
  /\ read_bytes mem (base_address cave) 8 = [0; 0; 0; 0; 0; 0; 0; 0].
Proof.
  unfold gum_probe_range_for_code_cave.
  destruct (Z.ltb_spec (max_distance caller)
              (address_distance (gsize_of (base_address details + 8))
                 (near_address caller))) as [| Hnear]; [discriminate |].
  destruct (bool_decide (read_bytes mem (base_address details) SELFMAG = ELFMAG)) eqn:Hmag;
    [| discriminate].
  destruct (bool_decide (read_bytes mem (gsize_of (base_address details + 8)) 8
                         = [0; 0; 0; 0; 0; 0; 0; 0])) eqn:Hzero; [| discriminate].
  cbn. intros E. inversion E; subst cave; clear E. cbn.
  apply bool_decide_eq_true in Hmag, Hzero. auto.
Qed.

(** The enumeration stops at the first range that the probe accepts. *)
Lemma enumerate_for_code_cave_first mem caller ranges :
  (Forall (fun details => gum_probe_range_for_code_cave mem caller details = None) ranges
   /\ enumerate_for_code_cave mem caller ranges = {| base_address := 0; range_size := 0 |})
  \/ exists before details after,
       ranges = before ++ details :: after
       /\ Forall (fun details => gum_probe_range_for_code_cave mem caller details = None)
            before
       /\ gum_probe_range_for_code_cave mem caller details
          = Some (enumerate_for_code_cave mem caller ranges).
Proof.
  induction ranges as [| details next IH]; [left; split; [constructor | reflexivity] |].
  cbn [enumerate_for_code_cave].
  destruct (gum_probe_range_for_code_cave mem caller details) as [cave |] eqn:Hprobe.
  - right. exists [], details, next. split; [reflexivity |]. split; [constructor | exact Hprobe].
  - destruct IH as [[Hall Hnone] | (before & d' & after & -> & Hall & Hsome)].
    + left. split; [constructor; assumption | exact Hnone].
    + right. exists (details :: before), d', after.
      split; [reflexivity |]. split; [constructor; assumption | exact Hsome].
Qed.

Lemma find_dispatcher_spec caller l : forall (st : State M) r st',
  find_dispatcher caller l st = Returns (r, st') ->
  st' = st
  /\ match r with
     | NULL =>
         Forall (fun e => exists De, dispatcher_heap st !! e = Some De
                                     /\ in_range_of caller De = false) l
     | Ptr d =>
         exists before after D,
           l = before ++ d :: after
           /\ Forall (fun e => exists De, dispatcher_heap st !! e = Some De
                                          /\ in_range_of caller De = false) before
           /\ dispatcher_heap st !! d = Some D
           /\ in_range_of caller D = true
     end.
Proof.
  induction l as [| e l IH]; intros st r st' E; cbn [find_dispatcher] in E.
  - open_ret E. split; [reflexivity | constructor].
  - open_bind E as (De & st1 & Hload & E). unfold load_dispatcher in Hload.
    destruct (dispatcher_heap st !! e) as [De' |] eqn:He; [| discriminate].
    injection Hload as HD Hst. subst De' st1.
    destruct (address_distance (address De) (near_address caller) <=? max_distance caller)
      eqn:Hin.
    + open_ret E. split; [reflexivity |]. exists [], l, De.
      split; [reflexivity |]. split; [constructor |]. split; [exact He | exact Hin].
    + apply IH in E as [-> Hr]. split; [reflexivity |].
      assert (Hout : exists De0, dispatcher_heap st !! e = Some De0
                                 /\ in_range_of caller De0 = false) by eauto.
      destruct r as [| d].
      * constructor; assumption.
      * destruct Hr as (before & after & D & -> & Hall & Hd & HinD).
        exists (e :: before), after, D.
        split; [reflexivity |]. split; [constructor; assumption |]. auto.
Qed.


(** Where the new dispatcher sits. *)
Lemma dispatcher_new_address caller d (st st1 : State M) :
  gum_code_deflector_dispatcher_new caller st = Returns (Ptr d, st1) ->
  let cave := enumerate_for_code_cave (memory st) caller
                (gum_process_enumerate_ranges GUM_PAGE_RX (backend st)) in
  base_address cave <> 0
  /\ exists D,
       dispatcher_heap st1 !! d = Some D
       /\ address D = base_address cave
       /\ dispatcher_trampoline D = (if HAVE_ARM then address D + 1 else address D)
       /\ fst (gum_alloc_n_pages 1 GUM_PAGE_RW (backend st)) = Some (thunk D).
Proof.
  intros E cave. unfold gum_code_deflector_dispatcher_new, gum_bind at 1 in E.
  fold cave in E.
  destruct (Z.eqb_spec (base_address cave) 0) as [| Hfound]; [discriminate |].
  split; [exact Hfound |].
  unfold gum_bind at 1 in E. unfold gum_bind at 1 in E. unfold call_alloc_n_pages in E.
  destruct (gum_alloc_n_pages 1 GUM_PAGE_RW (backend st)) as [[data |] m]; [| discriminate].
  unfold gum_bind at 1 in E. unfold gum_bind at 1 in E.
  destruct HAVE_ARM.
  - unfold gum_bind at 1 in E. unfold gum_bind at 1 in E. unfold gum_bind at 1 in E.
    cbn [gum_code_deflector_dispatcher_ensure_rw call_mprotect emit original_size address]
      in E.
    cbn [memory with_trace with_backend with_memory] in E.
    destruct (Z.of_nat (length (thumb_relay data)) <=? range_size cave); [| discriminate].
    cbn in E. inversion E; subst; clear E. eexists. cbn. rewrite lookup_insert_eq.
    split; [reflexivity |]. cbn. auto.
  - cbn in E. inversion E; subst; clear E. eexists. cbn. rewrite lookup_insert_eq.
    split; [reflexivity |]. cbn. auto.
Qed.

(** The two ways [gum_code_allocator_alloc_deflector] returns a deflector:
    registered with the first dispatcher in range, or with a new one at the
    head of the list. *)
Lemma alloc_deflector_cases caller ra tgt f (st st' : State M) :
  gum_code_allocator_alloc_deflector caller ra tgt st = Returns (Ptr f, st') ->
  exists d D st0,
    ((exists before after,
        st0 = st
        /\ dispatchers (allocator st) = before ++ d :: after
        /\ Forall (fun e => exists De, dispatcher_heap st !! e = Some De
                                       /\ in_range_of caller De = false) before
        /\ in_range_of caller D = true
        /\ dispatchers (allocator st') = dispatchers (allocator st))
     \/ (Forall (fun e => exists De, dispatcher_heap st !! e = Some De
                                     /\ in_range_of caller De = false)
           (dispatchers (allocator st))
         /\ (exists stn,
               gum_code_deflector_dispatcher_new caller st = Returns (Ptr d, stn)
               /\ st0 = with_allocator
                          (set_dispatchers (d :: dispatchers (allocator stn))
                             (allocator stn)) stn)
         /\ dispatchers (allocator st') = d :: dispatchers (allocator st)))
    /\ dispatcher_heap st0 !! d = Some D
    /\ f = fresh (dom (deflector_heap st0))
    /\ dispatcher_heap st' = <[d := set_callers (f :: callers D) D]> (dispatcher_heap st0)
    /\ deflector_heap st'
       = <[f := {| parent := {| return_address := ra; target := tgt;
                                trampoline := dispatcher_trampoline D |};
                   impl_allocator := self_handle st0 |}]> (deflector_heap st0)
    /\ memory st' = memory st0
    /\ trace st' = trace st0
    /\ backend st' = backend st0.
Proof.
  unfold gum_code_allocator_alloc_deflector. intros E.
  open_bind E as (a & st1 & Hself & E). apply self_returns in Hself as [-> ->].
  open_bind E as (found & st1 & Hfind & E).
  apply find_dispatcher_spec in Hfind as [-> Hfound].
  open_bind E as (dispatcher & st0 & Hdisp & E).
  destruct dispatcher as [| d]; [discriminate |].
  open_bind E as (impl & st2 & Hfresh & E).
  injection Hfresh as Hi Hst. subst impl st2.
  open_bind E as (D & st2 & Hload & E). unfold load_dispatcher in Hload.
  destruct (dispatcher_heap st0 !! d) as [D' |] eqn:Hd; [| discriminate].
  injection Hload as HD Hst. subst D' st2.
  open_bind E as (me & st2 & Hme & E). injection Hme as Hm Hst. subst me st2.
  open_bind E as ([] & st2 & Hins & E). injection Hins as Hst. subst st2.
  open_bind E as ([] & st3 & Hstore & E). unfold store_dispatcher in Hstore.
  injection Hstore as Hst. subst st3.
  injection E as Hf Hst. subst f st'.
  exists d, D, st0. split; [| cbn; auto 10].
  destruct found as [| d0].
  - right. open_bind Hdisp as (created & st1 & Hnew & Hdisp).
    destruct created as [| d1]; [discriminate |].
    open_bind Hdisp as ([] & st2 & Hup & Hdisp). unfold update_self in Hup.
    injection Hup as Hst. subst st2. injection Hdisp as Hdd Hst. subst d1 st0.
    split; [exact Hfound |]. split; [exists st1; split; [exact Hnew | reflexivity] |]. cbn.
    apply dispatcher_new_saves_cave in Hnew as (_ & _ & _ & _ & _ & _ & _ & _ & Ha).
    rewrite Ha. reflexivity.
  - left. injection Hdisp as Hdd Hst. subst d0 st0.
    destruct Hfound as (before & after & D0 & Hl & Hall & Hd0 & Hin).
    rewrite Hd in Hd0. injection Hd0 as <-.
    exists before, after. auto.
Qed.


(** The dispatcher that is installed is within the caller's reach. *)
Lemma new_dispatcher_in_range caller (st : State M) d st1 :
  gum_code_deflector_dispatcher_new caller st = Returns (Ptr d, st1) ->
  exists D, dispatcher_heap st1 !! d = Some D /\ in_range_of caller D = true.
Proof.
  intros Hnew.
  destruct (dispatcher_new_address _ _ _ _ Hnew) as (Hfound & D & Hd & Haddr & _).
  exists D. split; [exact Hd |].
  destruct (enumerate_for_code_cave_first (memory st) caller
              (gum_process_enumerate_ranges GUM_PAGE_RX (backend st)))
    as [[_ Hnone] | (before & details & after & Hl & Hall & Hprobe)].
  { rewrite Hnone in Hfound. contradiction. }
  apply gum_probe_range_for_code_cave_sound in Hprobe as (_ & _ & Hnear & _).
  rewrite <- Haddr in Hnear. unfold in_range_of. apply Z.leb_le. exact Hnear.
Qed.

(** X6. A dispatcher is only ever installed eight bytes into an executable
    range that begins with the ELF magic number, where the eight bytes are
    zero and the place is within the caller's reach; the range is the first
    one of the enumeration that qualifies. Where no range qualifies nothing
    is installed and the state is untouched. *)
Theorem dispatcher_is_installed_in_an_empty_elf_cave caller (st : State M) :
  let ranges := gum_process_enumerate_ranges GUM_PAGE_RX (backend st) in
  (forall d st1,
     gum_code_deflector_dispatcher_new caller st = Returns (Ptr d, st1) ->
     exists D before details after,
       ranges = before ++ details :: after
       /\ Forall (fun r => gum_probe_range_for_code_cave (memory st) caller r = None) before
       /\ dispatcher_heap st1 !! d = Some D
       /\ dispatcher_heap st !! d = None
       /\ address D = gsize_of (base_address details + 8)
       /\ read_bytes (memory st) (base_address details) SELFMAG = ELFMAG
       /\ read_bytes (memory st) (address D) 8 = [0; 0; 0; 0; 0; 0; 0; 0]
       /\ original_data D = [0; 0; 0; 0; 0; 0; 0; 0]
       /\ in_range_of caller D = true)
  /\ (Forall (fun r => gum_probe_range_for_code_cave (memory st) caller r = None) ranges ->
      gum_code_deflector_dispatcher_new caller st = Returns (NULL, st)).
Proof.
  intros ranges. split.
  - intros d st1 Hnew.
    destruct (dispatcher_new_address _ _ _ _ Hnew) as (Hfound & D & Hd & Haddr & _).
    destruct (dispatcher_new_saves_cave _ _ _ _ Hnew)
      as (D' & Hh & Hfresh & _ & Hsize & Hsaved & _).
    rewrite Hh, lookup_insert_eq in Hd. injection Hd as ->.
    destruct (enumerate_for_code_cave_first (memory st) caller ranges)
      as [[_ Hnone] | (before & details & after & Hl & Hall & Hprobe)].
    { fold ranges in Hfound. rewrite Hnone in Hfound. contradiction. }
    apply gum_probe_range_for_code_cave_sound in Hprobe
      as (Hbase & _ & Hnear & Hmagic & Hzero).
    fold ranges in Haddr. rewrite <- Haddr in Hbase, Hnear, Hzero.
    exists D, before, details, after.
    split; [exact Hl |]. split; [exact Hall |].
    split; [rewrite Hh; apply lookup_insert_eq |]. split; [exact Hfresh |].
    split; [exact Hbase |]. split; [exact Hmagic |]. split; [exact Hzero |].
    split; [rewrite Hsaved, Hsize; exact Hzero |].
    unfold in_range_of. apply Z.leb_le. exact Hnear.
  - intros Hall. unfold gum_code_deflector_dispatcher_new, gum_bind at 1.
    fold ranges.
    destruct (enumerate_for_code_cave_first (memory st) caller ranges)
      as [[_ Hnone] | (before & details & after & Hl & _ & Hprobe)].
    + rewrite Hnone. reflexivity.
    + rewrite Hl in Hall. apply Forall_app in Hall as [_ Hall].
      apply Forall_cons in Hall as [Hnot _]. rewrite Hnot in Hprobe. discriminate.
Qed.

(** X7. A deflector that [gum_code_allocator_alloc_deflector] returns is at
    the head of the registrations of a dispatcher of the list whose address
    is within the caller's reach; it carries that dispatcher's trampoline,
    and the dispatcher answers its return address with its target, ahead of
    any older registration of the same return address. *)
Theorem new_registration_is_routable_and_in_reach caller ra tgt f (st st' : State M) :
  gum_code_allocator_alloc_deflector caller ra tgt st = Returns (Ptr f, st') ->
  exists d D impl,
    d ∈ dispatchers (allocator st')
    /\ dispatcher_heap st' !! d = Some D
    /\ (exists older, callers D = f :: older)
    /\ in_range_of caller D = true
    /\ deflector_heap st !! f = None
    /\ deflector_heap st' !! f = Some impl
    /\ return_address (parent impl) = ra
    /\ target (parent impl) = tgt
    /\ trampoline (parent impl) = dispatcher_trampoline D
    /\ gum_code_deflector_dispatcher_lookup d ra st' = Returns (tgt, st').
Proof.
  intros Halloc.
  destruct (alloc_deflector_cases _ _ _ _ _ _ Halloc)
    as (d & D & st0 & Hcase & Hd & Hf & Hdh & Hfh & _).
  assert (Hfacts : d ∈ dispatchers (allocator st')
                   /\ in_range_of caller D = true
                   /\ deflector_heap st0 = deflector_heap st).
  { destruct Hcase as [(before & after & -> & Hl & _ & Hin & Hl')
                      | (_ & (stn & Hnew & ->) & Hl')].
    - split; [rewrite Hl', Hl; apply elem_of_app; right; apply list_elem_of_here |].
      split; [exact Hin | reflexivity].
    - split; [rewrite Hl'; apply list_elem_of_here |].
      destruct (new_dispatcher_in_range caller st d stn Hnew)
        as (D' & Hd' & Hin).
      cbn in Hd. rewrite Hd in Hd'. injection Hd' as <-.
      split; [exact Hin |]. cbn.
      apply dispatcher_new_saves_cave in Hnew as (_ & _ & _ & _ & _ & _ & _ & Hdf & _).
      exact Hdf. }
  destruct Hfacts as (Hlist & Hin & Hsame).
  exists d, (set_callers (f :: callers D) D),
    {| parent := {| return_address := ra; target := tgt;
                    trampoline := dispatcher_trampoline D |};
       impl_allocator := self_handle st0 |}.
  split; [exact Hlist |]. split; [rewrite Hdh; apply lookup_insert_eq |].
  split; [exists (callers D); reflexivity |]. split; [exact Hin |].
  split; [rewrite <- Hsame, Hf; apply not_elem_of_dom, is_fresh |].
  split; [rewrite Hfh; apply lookup_insert_eq |].
  split; [reflexivity |]. split; [reflexivity |]. split; [reflexivity |].
  unfold gum_code_deflector_dispatcher_lookup, gum_bind at 1, load_dispatcher.
  rewrite Hdh, lookup_insert_eq. cbn [callers set_callers lookup_caller].
  unfold gum_bind, load_deflector. rewrite Hfh, lookup_insert_eq. cbn.
  rewrite Z.eqb_refl. reflexivity.
Qed.


(** X8. Installing a dispatcher for a caller that no dispatcher reaches and
    freeing the deflector again is a round trip: every byte of the image
    reads as before the installation, and the list of dispatchers and the
    two heaps are as they were. *)
Theorem install_then_free_restores_the_image caller ra tgt f depth (st st1 : State M) :
  Forall (fun e => exists De, dispatcher_heap st !! e = Some De
                              /\ in_range_of caller De = false)
    (dispatchers (allocator st)) ->
  gum_code_allocator_alloc_deflector caller ra tgt st = Returns (Ptr f, st1) ->
  exists st2,
    gum_code_deflector_free_upto depth (Ptr f) st1 = Returns (tt, st2)
    /\ (forall a, read_byte (memory st2) a = read_byte (memory st) a)
    /\ dispatchers (allocator st2) = dispatchers (allocator st)
    /\ dispatcher_heap st2 = dispatcher_heap st
    /\ deflector_heap st2 = deflector_heap st.
Proof.
  intros Hout Halloc.
  destruct (alloc_deflector_cases _ _ _ _ _ _ Halloc)
    as (d & D & st0 & Hcase & Hd & Hf & Hdh & Hfh & Hmem & _).
  destruct Hcase as [(before & after & -> & Hl & _ & Hin & _)
                    | (_ & (stn & Hnew & ->) & Hl')].
  { exfalso. rewrite Hl in Hout. apply Forall_app in Hout as [_ Hout].
    apply Forall_cons in Hout as [(De & He & Hno) _].
    rewrite Hd in He. injection He as <-. rewrite Hin in Hno. discriminate. }
  cbn in Hd, Hf, Hdh, Hfh, Hmem.
  destruct (dispatcher_new_saves_cave _ _ _ _ Hnew)
    as (D' & Hh & Hfresh & Hcallers & Hsize & Hsaved & Hkeep & Hdefl & _).
  rewrite Hh, lookup_insert_eq in Hd. injection Hd as ->.
  assert (Hreg : registered_with st1 f d (set_callers (f :: callers D) D)).
  { exists {| parent := {| return_address := ra; target := tgt;
                          trampoline := dispatcher_trampoline D |};
             impl_allocator := self_handle stn |}, [], (dispatchers (allocator st)).
    split; [rewrite Hfh; apply lookup_insert_eq |].
    split; [exact Hl' |]. split; [rewrite Hdh; apply lookup_insert_eq |].
    split; [apply list_elem_of_here | constructor]. }
  destruct (free_of_last_registration depth f d _ st1 Hreg)
    as (st2 & Hfree & Hm2 & _ & _ & Hdh2 & Hfh2 & Hl2).
  { cbn. rewrite Hcallers. reflexivity. }
  cbn [address original_size original_data set_callers] in Hm2.
  exists st2. split; [exact Hfree |]. split; [| split; [| split]].
  - intros a. rewrite Hm2, Hmem, Hsaved.
    destruct (Z_lt_le_dec a (address D)) as [Hlow | Hge];
      [| destruct (Z_lt_le_dec a (address D + original_size D)) as [Hin | Hhigh]].
    + rewrite write_bytes_outside by lia. apply Hkeep. lia.
    + replace a with (address D + Z.of_nat (Z.to_nat (a - address D))) by lia.
      apply restore_reads_saved. lia.
    + rewrite write_bytes_outside
        by (rewrite length_take, read_bytes_length; lia).
      apply Hkeep. lia.
  - rewrite Hl2, Hl'. cbn. rewrite decide_True by reflexivity. reflexivity.
  - rewrite Hdh2, Hdh, Hh, delete_insert_eq, delete_insert_eq.
    apply delete_id. exact Hfresh.
  - rewrite Hfh2, Hfh, delete_insert_eq, Hdefl. apply delete_id.
    rewrite <- Hdefl, Hf. cbn. apply not_elem_of_dom, is_fresh.
Qed.

(** Freeing the last registration of a dispatcher whose own
    [gum_code_deflector_dispatcher_free] is in progress: the dispatcher is
    freed once more, and [memcpy] reads [original_data] after [g_free]. *)
Lemma free_within_dispatcher_free depth released f d D impl rest (st : State M) :
  d ∈ released ->
  dispatchers (allocator st) = d :: rest ->
  dispatcher_heap st !! d = Some D ->
  callers D = [f] ->
  deflector_heap st !! f = Some impl ->
  gum_code_deflector_free_in depth released (Ptr f) st = Faults.
Proof.
  intros Hrel Hl Hd Hcallers Hf.
  destruct depth; simpl; unfold gum_bind at 1; unfold load_deflector; rewrite Hf;
    unfold gum_bind at 1; unfold self; rewrite Hl;
    simpl; unfold gum_bind at 1; unfold load_dispatcher at 1; rewrite Hd;
    (rewrite bool_decide_eq_true_2 by (rewrite Hcallers; apply list_elem_of_here));
    rewrite Hcallers; simpl; (destruct (decide (f = f)); [| contradiction]);
    unfold gum_bind, store_dispatcher, gum_code_deflector_dispatcher_free, gum_bind,
      load_dispatcher; cbn; rewrite lookup_insert_eq;
    rewrite bool_decide_eq_true_2 by exact Hrel; reflexivity.
Qed.

(** X9. [gum_code_allocator_free] on an allocator whose first dispatcher
    still has a registration reads freed memory:
    [gum_code_deflector_dispatcher_free] writes the cave back, frees
    [original_data] and the thunk and hands the registration to
    [gum_code_deflector_free], which finds the dispatcher without
    registrations and frees it a second time, copying from [original_data]
    after [g_free]. *)
Theorem allocator_free_with_a_live_deflector_reads_freed_memory
    (st : State M) d D f impl rest depth :
  dispatchers (allocator st) = d :: rest ->
  dispatcher_heap st !! d = Some D ->
  callers D = [f] ->
  deflector_heap st !! f = Some impl ->
  gum_code_allocator_free_upto depth st = Faults.
Proof.
  intros Hl Hd Hcallers Hf.
  unfold gum_code_allocator_free_upto, gum_bind at 1, self at 1. rewrite Hl.
  cbn [free_each_dispatcher].
  unfold gum_bind at 1. unfold gum_bind at 1.
  unfold gum_code_deflector_dispatcher_free at 1.
  unfold gum_bind at 1, load_dispatcher at 1. rewrite Hd.
  unfold gum_bind at 1, gum_code_deflector_dispatcher_ensure_rw, call_mprotect, emit at 1.
  unfold gum_bind at 1.
  rewrite bool_decide_eq_false_2 by apply not_elem_of_nil.
  unfold gum_bind at 1.
  unfold gum_code_deflector_dispatcher_ensure_rx, call_mprotect, emit at 1.
  unfold gum_bind at 1, call_free_pages at 1.
  unfold gum_bind at 1. rewrite Hcallers. cbn [foreach_caller].
  unfold gum_bind at 1.
  rewrite (free_within_dispatcher_free depth [d] f d D impl rest);
    [reflexivity | apply list_elem_of_here | exact Hl | exact Hd | exact Hcallers
    | exact Hf].
Qed.

End DeflectorLifecycle.

(** ** More on commit *)

Section CommitFacts.
Context {M : Type} `{GumMemory M}.

Tactic Notation "open_bind" hyp(E) "as" simple_intropattern(pat) :=
  apply bind_returns in E; destruct E as pat.

Tactic Notation "open_ret" hyp(E) :=
  unfold gum_ret in E; inversion E; subst; clear E.

Lemma cache_flushes_app t1 t2 : cache_flushes (t1 ++ t2) = (cache_flushes t1 + cache_flushes t2)%nat.
Proof. unfold cache_flushes. rewrite List.filter_app, length_app. reflexivity. Qed.

Lemma realize_each_trace l : forall (st st' : State M),
  realize_each l st = Returns (tt, st') ->
  exists new, trace st' = new ++ trace st /\ cache_flushes new = 0%nat.
Proof.
  induction l as [| p l IH]; intros st st' E; cbn [realize_each] in E.
  - open_ret E. exists []. split; reflexivity.
  - open_bind E as (pages & st1 & Hload & E).
    apply load_pages_returns in Hload as [-> _].
    destruct (segment pages) as [| seg]; [discriminate |].
    open_bind E as ([] & st2 & H1 & E). apply emit_returns in H1 as (_ & _ & Ht1).
    open_bind E as ([] & st3 & H2 & E). apply emit_returns in H2 as (_ & _ & Ht2).
    apply IH in E as (new & Ht & Hn).
    exists (new ++ [EvSegmentMap seg 0 (segment_virtual_size seg) (segment_address seg);
                    EvSegmentRealize seg]).
    split.
    + rewrite Ht, Ht2, Ht1, <- app_assoc. reflexivity.
    + rewrite cache_flushes_app, Hn. reflexivity.
Qed.

Lemma clear_cache_each_trace l : forall (st st' : State M),
  clear_cache_each l st = Returns (tt, st') ->
  exists new,
    trace st' = new ++ trace st
    /\ cache_flushes new = length l
    /\ forall p, p ∈ l ->
         exists pages, pages_heap st !! p = Some pages
                       /\ EvClearCache (pages_data pages) (pages_size pages) ∈ new.
Proof.
  induction l as [| p l IH]; intros st st' E; cbn [clear_cache_each] in E.
  - open_ret E. exists []. split; [reflexivity |]. split; [reflexivity |].
    intros p Hp. inversion Hp.
  - open_bind E as (pages & st1 & Hload & E).
    apply load_pages_returns in Hload as [-> Hp].
    open_bind E as ([] & st2 & H1 & E). apply emit_returns in H1 as (_ & Hh1 & Ht1).
    apply IH in E as (new & Ht & Hn & Hall).
    exists (new ++ [EvClearCache (pages_data pages) (pages_size pages)]).
    split; [rewrite Ht, Ht1, <- app_assoc; reflexivity |].
    split; [rewrite cache_flushes_app, Hn; cbn; lia |].
    intros q Hq. apply elem_of_cons in Hq as [-> | Hq].
    + exists pages. split; [exact Hp |]. apply elem_of_app. right. apply list_elem_of_here.
    + destruct (Hall q Hq) as (pages' & Hq' & Hin). rewrite Hh1 in Hq'.
      exists pages'. split; [exact Hq' |]. apply elem_of_app. left. exact Hin.
Qed.

Lemma gum_code_pages_unref_trace p (st st' : State M) :
  gum_code_pages_unref p st = Returns (tt, st') ->
  exists new, trace st' = new ++ trace st /\ cache_flushes new = 0%nat.
Proof.
  unfold gum_code_pages_unref. intros E. open_bind E as (pages & st1 & Hload & E).
  apply load_pages_returns in Hload as [-> _].
  open_bind E as ([] & st2 & Hstore & E). unfold store_pages in Hstore. open_ret Hstore.
  destruct (ref_count pages - 1 =? 0).
  - open_bind E as ([] & st3 & Hfree & E). unfold g_slice_free_pages in E. open_ret E.
    destruct (segment pages) as [| seg];
      [unfold call_free_pages in Hfree | unfold emit in Hfree]; open_ret Hfree; cbn;
      eexists [_]; split; reflexivity.
  - open_ret E. exists []. split; reflexivity.
Qed.

Lemma unref_each_trace l : forall (st st' : State M),
  unref_each l st = Returns (tt, st') ->
  exists new, trace st' = new ++ trace st /\ cache_flushes new = 0%nat.
Proof.
  induction l as [| e l IH]; intros st st' E; cbn [unref_each] in E.
  - open_ret E. exists []. split; reflexivity.
  - open_bind E as ([] & st1 & Hun & E).
    apply gum_code_pages_unref_trace in Hun as (new1 & Ht1 & Hn1).
    apply IH in E as (new & Ht & Hn).
    exists (new ++ new1). split; [rewrite Ht, Ht1, app_assoc; reflexivity |].
    rewrite cache_flushes_app, Hn, Hn1. reflexivity.
Qed.

(** X10. A commit that returns has flushed the instruction cache for every
    dirty batch, over the whole page of the batch, and has made exactly as
    many flushes as there were dirty batches. *)
Theorem commit_flushes_each_dirty_batch_once (st st' : State M) :
  gum_code_allocator_commit st = Returns (tt, st') ->
  cache_flushes (trace st')
  = (cache_flushes (trace st) + size (dirty_pages (allocator st)))%nat
  /\ forall p, p ∈ dirty_pages (allocator st) ->
       exists pages,
         pages_heap st !! p = Some pages
         /\ EvClearCache (pages_data pages) (pages_size pages) ∈ trace st'.
Proof.
  unfold gum_code_allocator_commit. intros E.
  open_bind E as (a0 & st1 & Hself & E). apply self_returns in Hself as [-> ->].
  open_bind E as ([] & st2 & Hreal & E).
  pose proof (realize_each_frame _ _ _ Hreal) as (Ha2 & Hh2).
  apply realize_each_trace in Hreal as (new2 & Ht2 & Hn2).
  open_bind E as ([] & st3 & Hup & E).
  apply update_self_returns in Hup as (Ha3 & Hh3 & Ht3 & _).
  open_bind E as ([] & st4 & Hcl & E).
  apply clear_cache_each_trace in Hcl as (new4 & Ht4 & Hn4 & Hall).
  open_bind E as ([] & st5 & Hup & E).
  apply update_self_returns in Hup as (Ha5 & Hh5 & Ht5 & _).
  assert (Hrest : exists new, trace st' = new ++ trace st5 /\ cache_flushes new = 0%nat).
  { destruct gum_query_is_rwx_supported.
    - open_ret E. exists []. split; reflexivity.
    - open_bind E as (a1 & st6 & Hself & E). apply self_returns in Hself as [-> ->].
      open_bind E as ([] & st7 & Hun & E).
      apply unref_each_trace in Hun as (new & Ht & Hn).
      apply update_self_returns in E as (_ & _ & Ht8 & _).
      exists new. split; [congruence | exact Hn]. }
  destruct Hrest as (new & Ht & Hn).
  assert (Htrace : trace st' = new ++ new4 ++ new2 ++ trace st).
  { rewrite Ht, Ht5, Ht4, Ht3, Ht2. reflexivity. }
  split.
  - rewrite Htrace, !cache_flushes_app, Hn, Hn4, Hn2.
    unfold size, set_size. cbn. lia.
  - intros p Hp. apply elem_of_elements in Hp.
    destruct (Hall p Hp) as (pages & Hpages & Hin).
    exists pages. split; [congruence |].
    rewrite Htrace. apply elem_of_app. right. apply elem_of_app. left. exact Hin.
Qed.

(** X11. Where pages cannot be writable and executable and a page holds one
    slice, freeing the slice of a new batch before the commit releases the
    batch while the allocator still lists it as uncommitted and dirty; the
    commit that follows reads the released batch. *)
Theorem free_before_commit_leaves_a_released_batch_listed (st : State M) seg m :
  gum_query_is_rwx_supported = false ->
  slices_per_page (allocator st) = 1 ->
  free_slices (allocator st) = [] ->
  gum_code_segment_new (1 * gum_query_page_size) NULL (backend st) = (Ptr seg, m) ->
  exists e st1 st2,
    gum_code_allocator_alloc_slice st = Returns (Ptr e, st1)
    /\ gum_code_slice_free (Ptr e) st1 = Returns (tt, st2)
    /\ pages_heap st2 !! element_pages e = None
    /\ uncommitted_pages (allocator st2)
       = element_pages e :: uncommitted_pages (allocator st)
    /\ element_pages e ∈ dirty_pages (allocator st2)
    /\ gum_code_allocator_commit st2 = Faults.
Proof.
  intros Hrwx Hspp Hfree Hseg.
  exists {| element_pages := fresh (dom (pages_heap st)); element_index := 0 |}.
  eexists. eexists. split; [| split].
  - unfold gum_code_allocator_alloc_slice, gum_code_allocator_try_alloc_slice_near,
      gum_bind at 1, self at 1. rewrite Hfree. cbn [scan_free_slices].
    unfold gum_bind at 1, gum_ret at 1.
    unfold gum_code_allocator_try_alloc_batch_near, alloc_batch_memory.
    rewrite Hrwx. unfold gum_bind at 1. rewrite Hseg.
    unfold gum_bind, self, g_slice_alloc_pages, store_pages, update_self, gum_ret.
    cbn. rewrite Hspp. cbn. reflexivity.
  - unfold gum_code_slice_free, load_slice, gum_bind, load_pages. cbn.
    rewrite lookup_insert_eq. cbn. change (Z.to_nat 1) with 1%nat. cbn. rewrite Hrwx.
    unfold gum_code_pages_unref, gum_bind, load_pages, store_pages. cbn.
    rewrite lookup_insert_eq. cbn. reflexivity.
  - cbn. change (Z.to_nat 1) with 1%nat. rewrite Hfree. cbn.
    split; [rewrite lookup_delete_eq; reflexivity |].
    split; [reflexivity |].
    split; [set_solver |].
    unfold gum_code_allocator_commit, gum_bind, self. cbn.
    unfold gum_bind, load_pages. cbn. rewrite lookup_delete_eq. reflexivity.
Qed.

End CommitFacts.

(** ** The dumpable flag *)

Section DumpabilityFacts.
Context `{Kernel}.

(** X12. The first [gum_acquire_dumpability] reads the dumpable flag and,
    unless it reads 1 or -1, sets it to 1; the matching release sets it back
    to the value read. In between, and whenever the count is not zero,
    acquiring and releasing only count. *)
Theorem dumpable_flag_is_restored_by_the_last_release (w : World) :
  let previous := reply_ret (fst (kernel_call (SysPrctl PR_GET_DUMPABLE 0) (kernel w))) in
  let inner := snd (gum_release_dumpability (snd (gum_acquire_dumpability w))) in
  (gum_dumpable_refcount w = 0 ->
   gum_dumpable_refcount inner = 0
   /\ map fst (syscalls inner)
      = (if (previous =? -1) || (previous =? 1) then []
         else [SysPrctl PR_SET_DUMPABLE previous; SysPrctl PR_SET_DUMPABLE 1])
        ++ SysPrctl PR_GET_DUMPABLE 0 :: map fst (syscalls w))
  /\ (1 <= gum_dumpable_refcount w ->
      syscalls (snd (gum_acquire_dumpability w)) = syscalls w
      /\ gum_dumpable_refcount (snd (gum_acquire_dumpability w))
         = gum_dumpable_refcount w + 1
      /\ syscalls inner = syscalls w
      /\ gum_dumpable_refcount inner = gum_dumpable_refcount w
      /\ gum_dumpable_previous inner = gum_dumpable_previous w).
Proof.
  intros previous inner. subst inner previous. split.
  - intros Hzero.
    unfold gum_acquire_dumpability, gum_release_dumpability, syscall.
    rewrite Hzero. simpl.
    destruct (kernel_call (SysPrctl PR_GET_DUMPABLE 0) (kernel w)) as [r k]. simpl.
    destruct (Z.eqb_spec (reply_ret r) (-1)) as [Hm | Hm]; simpl;
      [| destruct (Z.eqb_spec (reply_ret r) 1) as [Ho | Ho]; simpl].
    + rewrite Hm. simpl. split; reflexivity.
    + rewrite Ho. simpl. split; reflexivity.
    + destruct (kernel_call (SysPrctl PR_SET_DUMPABLE 1) k) as [r1 k1]. simpl.
      destruct (Z.eqb_spec (reply_ret r) (-1)); [contradiction |].
      destruct (Z.eqb_spec (reply_ret r) 1); [contradiction |]. simpl.
      destruct (kernel_call (SysPrctl PR_SET_DUMPABLE (reply_ret r)) k1) as [r2 k2].
      simpl. split; reflexivity.
  - intros Hpos. unfold gum_acquire_dumpability.
    destruct (Z.eqb_spec (gum_dumpable_refcount w + 1) 1) as [Hone | _]; [lia |].
    simpl. unfold gum_release_dumpability. simpl.
    destruct (Z.eqb_spec (gum_dumpable_refcount w + 1 - 1) 0) as [Hz | _]; [lia |].
    simpl. repeat split. lia.
Qed.

End DumpabilityFacts.

(** ** Module paths *)

Lemma after_last_app c dir base :
  after_last c base = None ->
  after_last c (dir ++ c :: base) = Some base.
Proof.
  intros Hbase. induction dir as [| x dir IH]; cbn [app after_last].
  - rewrite Hbase, Z.eqb_refl. reflexivity.
  - rewrite IH. reflexivity.
Qed.

Lemma after_last_none c s : c ∉ s -> after_last c s = None.
Proof.
  induction s as [| x s IH]; intros Hnot; [reflexivity |].
  cbn [after_last]. rewrite IH by (intros Hin; apply Hnot; now right).
  destruct (Z.eqb_spec x c) as [-> | _]; [| reflexivity].
  exfalso. apply Hnot. left.
Qed.

(** X13. A name that begins with a slash matches a module exactly when it
    is the module's path. Any other name is compared with what follows the
    last slash of the path: it matches [dir/base] exactly when it is [base],
    so a relative name that contains a slash matches no path with a
    directory part, not even itself. *)
Theorem module_name_is_matched_against_the_base_name (dir base name : cstring) :
  slash ∉ base ->
  let path := dir ++ slash :: base in
  (head name = Some slash ->
   gum_linux_module_path_matches path name = bool_decide (name = path))
  /\ (head name <> Some slash ->
      gum_linux_module_path_matches path name = bool_decide (name = base)
      /\ (slash ∈ name -> gum_linux_module_path_matches path name = false))
  /\ (head name <> Some slash ->
      gum_linux_module_path_matches base name = bool_decide (name = base)).
Proof.
  intros Hbase path. unfold gum_linux_module_path_matches, strcmp_is_0.
  split; [| split].
  - intros Habs. rewrite bool_decide_eq_true_2 by exact Habs. reflexivity.
  - intros Hrel. rewrite bool_decide_eq_false_2 by exact Hrel.
    subst path. rewrite after_last_app by (apply after_last_none; exact Hbase).
    split; [reflexivity |]. intros Hin. apply bool_decide_eq_false_2.
    intros ->. contradiction.
  - intros Hrel. rewrite bool_decide_eq_false_2 by exact Hrel.
    rewrite after_last_none by exact Hbase. reflexivity.
Qed.

(** ** The CPU type *)

Lemma land_high_half v :
  0 <= v < 18446744073709551616 ->
  Z.land v 0xffffffff00000000 = 4294967296 * (v / 4294967296).
Proof.
  intros Hv. apply Z.bits_inj'. intros n Hn.
  rewrite Z.land_spec.
  change 0xffffffff00000000 with (Z.shiftl (Z.ones 32) 32).
  change 4294967296 with (2 ^ 32). rewrite Z.mul_comm, <- Z.shiftl_mul_pow2 by lia.
  rewrite <- Z.shiftr_div_pow2 by lia.
  destruct (Z.lt_ge_cases n 32) as [Hlow | Hhigh].
  - rewrite !Z.shiftl_spec_low by lia. apply andb_false_r.
  - rewrite !Z.shiftl_spec by lia. rewrite Z.shiftr_spec by lia.
    replace (n - 32 + 32) with n by lia.
    destruct (Z.lt_ge_cases n 64) as [Hin | Hout].
    + rewrite Z.ones_spec_low by lia. apply andb_true_r.
    + rewrite Z.ones_spec_high by lia. rewrite andb_false_r.
      symmetry. destruct (Z.eq_dec v 0) as [-> | Hnz]; [apply Z.bits_0 |].
      apply Z.bits_above_log2; [lia |].
      apply Z.log2_lt_pow2; [lia |]. change (2 ^ 64) with 18446744073709551616 in *.
      assert (2 ^ 64 <= 2 ^ n) by (apply Z.pow_le_mono_r; lia).
      change (2 ^ 64) with 18446744073709551616 in *. lia.
Qed.

(** The test of the loop: the upper half of the eight bytes is not zero. *)
Lemma high_half_test b0 b1 b2 b3 b4 b5 b6 b7 :
  Forall (fun b => 0 <= b < 256) [b0; b1; b2; b3; b4; b5; b6; b7] ->
  negb (Z.land (guint64_in_memory [b0; b1; b2; b3; b4; b5; b6; b7]) 0xffffffff00000000 =? 0)
  = negb ((b4 =? 0) && (b5 =? 0) && (b6 =? 0) && (b7 =? 0)).
Proof.
  intros Hb.
  repeat match goal with
         | Hf : Forall _ (_ :: _) |- _ => apply Forall_cons in Hf; destruct Hf as [? Hf]
         end.
  cbn [guint64_in_memory fold_right].
  set (hi := b4 + 256 * (b5 + 256 * (b6 + 256 * (b7 + 256 * 0)))).
  set (lo := b0 + 256 * (b1 + 256 * (b2 + 256 * b3))).
  replace (b0 + 256 * (b1 + 256 * (b2 + 256 * (b3 + 256 * hi))))
    with (lo + hi * 4294967296) by (subst lo; lia).
  assert (Hlo : 0 <= lo < 4294967296) by (subst lo; lia).
  assert (Hhi : 0 <= hi < 4294967296) by (subst hi; lia).
  rewrite land_high_half by lia.
  rewrite Z.div_add by lia. rewrite (Z.div_small lo) by lia.
  f_equal.
  destruct (Z.eqb_spec b4 0), (Z.eqb_spec b5 0), (Z.eqb_spec b6 0), (Z.eqb_spec b7 0);
    cbn; apply Z.eqb_neq || apply Z.eqb_eq; subst hi; lia.
Qed.

Section CpuTypeFromAuxvFacts.
Variables cpu32 cpu64 : GumCpuType.

Lemma auxv_types_from_shift fuel pre rest : forall i,
  auxv_types_from cpu32 cpu64 fuel (pre ++ rest) (length pre + i)
  = auxv_types_from cpu32 cpu64 fuel rest i.
Proof.
  induction fuel as [| fuel IH]; intros i; [reflexivity |].
  cbn [auxv_types_from]. rewrite length_app.
  replace (length pre + i + 8 <=? length pre + length rest)%nat
    with (i + 8 <=? length rest)%nat
    by (destruct (Nat.leb_spec (i + 8) (length rest)),
          (Nat.leb_spec (length pre + i + 8) (length pre + length rest)); lia || reflexivity).
  rewrite drop_app_add'; [| reflexivity].
  replace (length pre + i + 16)%nat with (length pre + (i + 16))%nat by lia.
  rewrite IH. reflexivity.
Qed.

Lemma auxv_types_from_end fuel auxv i :
  (length auxv < i + 8)%nat -> auxv_types_from cpu32 cpu64 fuel auxv i = cpu64.
Proof.
  intros Hshort. destruct fuel as [| fuel]; [reflexivity |]. cbn [auxv_types_from].
  destruct (Nat.leb_spec (i + 8) (length auxv)); [lia | reflexivity].
Qed.

Lemma guint32_bytes_range v : Forall (fun b => 0 <= b < 256) (guint32_bytes v).
Proof.
  unfold guint32_bytes. repeat constructor; apply Z.mod_pos_bound; lia.
Qed.

Lemma guint32_bytes_zero v :
  0 <= v < 4294967296 ->
  match guint32_bytes v with
  | [b0; b1; b2; b3] => (b0 =? 0) && (b1 =? 0) && (b2 =? 0) && (b3 =? 0) = (v =? 0)
  | _ => False
  end.
Proof.
  intros Hv. unfold guint32_bytes.
  destruct (Z.eqb_spec v 0) as [-> | Hnz]; [reflexivity |].
  destruct (Z.eqb_spec (v mod 256) 0), (Z.eqb_spec (v / 256 mod 256) 0),
    (Z.eqb_spec (v / 65536 mod 256) 0), (Z.eqb_spec (v / 16777216 mod 256) 0);
    cbn; try reflexivity.
  exfalso. Z.div_mod_to_equations. lia.
Qed.

(** The rounds of the loop over the vector of a 32-bit process. *)
Lemma auxv_types_from_32 fuel : forall entries,
  (length entries <= 2 * fuel)%nat ->
  Forall (fun e => 0 <= fst e < 4294967296 /\ 0 <= snd e < 4294967296) entries ->
  auxv_types_from cpu32 cpu64 fuel (Elf32_auxv entries) 0
  = if existsb (fun e => negb (snd e =? 0)) (even_entries entries) then cpu32 else cpu64.
Proof.
  induction fuel as [| fuel IH]; intros entries Hlen Hok.
  - destruct entries; [reflexivity | cbn in Hlen; lia].
  - destruct entries as [| [t0 v0] [| e1 rest]]; [reflexivity | |].
    + apply Forall_cons in Hok as [[Ht Hv] _]. cbn [fst snd] in *.
      cbn [Elf32_auxv flat_map fst snd even_entries existsb].
      pose proof (guint32_bytes_zero v0 Hv) as Hz.
      pose proof (guint32_bytes_range v0) as Hr.
      pose proof (guint32_bytes_range t0) as Hrt.
      destruct (guint32_bytes v0) as [| b4 [| b5 [| b6 [| b7 [| ? ?]]]]]; try contradiction.
      destruct (guint32_bytes t0) as [| b0 [| b1 [| b2 [| b3 [| ? ?]]]]] eqn:Hbt;
        try (unfold guint32_bytes in Hbt; discriminate).
      cbn [auxv_types_from app length Nat.add Nat.leb drop take].
      rewrite high_half_test
        by (apply (Forall_app _ [b0; b1; b2; b3] [b4; b5; b6; b7]); split; assumption).
      rewrite Hz, orb_false_r.
      destruct (v0 =? 0); cbn [negb]; [| reflexivity].
      apply auxv_types_from_end. cbn. lia.
    + apply Forall_cons in Hok as [[Ht Hv] Hok]. apply Forall_cons in Hok as [_ Hok].
      cbn [fst snd] in *.
      cbn [Elf32_auxv flat_map fst snd even_entries existsb].
      fold (Elf32_auxv rest).
      pose proof (guint32_bytes_zero v0 Hv) as Hz.
      pose proof (guint32_bytes_range v0) as Hr.
      pose proof (guint32_bytes_range t0) as Hrt.
      destruct (guint32_bytes v0) as [| b4 [| b5 [| b6 [| b7 [| ? ?]]]]]; try contradiction.
      destruct (guint32_bytes t0) as [| b0 [| b1 [| b2 [| b3 [| ? ?]]]]] eqn:Hbt;
        try (unfold guint32_bytes in Hbt; discriminate).
      assert (Hl1 : length (guint32_bytes (fst e1) ++ guint32_bytes (snd e1)) = 8%nat)
        by reflexivity.
      set (second := guint32_bytes (fst e1) ++ guint32_bytes (snd e1)) in *.
      cbn [auxv_types_from app]. cbn [length]. rewrite !length_app, Hl1.
      cbn [Nat.add Nat.leb drop take].
      rewrite high_half_test
        by (apply (Forall_app _ [b0; b1; b2; b3] [b4; b5; b6; b7]); split; assumption).
      rewrite Hz.
      destruct (v0 =? 0); cbn [negb orb]; [| reflexivity].
      change (b0 :: b1 :: b2 :: b3 :: b4 :: b5 :: b6 :: b7 :: second ++ Elf32_auxv rest)
        with (([b0; b1; b2; b3; b4; b5; b6; b7] ++ second) ++ Elf32_auxv rest).
      replace 16%nat with (length ([b0; b1; b2; b3; b4; b5; b6; b7] ++ second) + 0)%nat
        by (rewrite length_app, Hl1; reflexivity).
      rewrite auxv_types_from_shift. apply IH; [cbn in Hlen; lia | exact Hok].
Qed.


(** The rounds of the loop over the vector of a 64-bit process. *)
Lemma auxv_types_from_64 fuel : forall entries,
  Forall (fun e => 0 <= fst e < 4294967296) entries ->
  auxv_types_from cpu32 cpu64 fuel (Elf64_auxv entries) 0 = cpu64.
Proof.
  induction fuel as [| fuel IH]; intros entries Hok; [reflexivity |].
  destruct entries as [| [t v] rest]; [reflexivity |].
  apply Forall_cons in Hok as [Ht Hok]. cbn [fst] in Ht.
  cbn [Elf64_auxv flat_map fst snd]. fold (Elf64_auxv rest).
  unfold guint64_bytes at 1.
  rewrite (Z.div_small t) by lia. rewrite (Z.mod_small t) by lia.
  pose proof (guint32_bytes_range t) as Hrt.
  destruct (guint32_bytes t) as [| b0 [| b1 [| b2 [| b3 [| ? ?]]]]] eqn:Hbt;
    try (unfold guint32_bytes in Hbt; discriminate).
  assert (Hl : length (guint64_bytes v) = 8%nat) by reflexivity.
  set (value := guint64_bytes v) in *.
  change (guint32_bytes 0) with [0%Z; 0%Z; 0%Z; 0%Z].
  cbn [auxv_types_from app]. cbn [length]. rewrite !length_app, Hl.
  cbn [Nat.add Nat.leb drop take].
  rewrite high_half_test
    by (apply (Forall_app _ [b0; b1; b2; b3] [0; 0; 0; 0]%Z); split;
        [assumption | repeat constructor; lia]).
  cbn [Z.eqb andb negb].
  change (b0 :: b1 :: b2 :: b3 :: 0%Z :: 0%Z :: 0%Z :: 0%Z :: value ++ Elf64_auxv rest)
    with (([b0; b1; b2; b3; 0%Z; 0%Z; 0%Z; 0%Z] ++ value) ++ Elf64_auxv rest).
  replace 16%nat with (length ([b0; b1; b2; b3; 0%Z; 0%Z; 0%Z; 0%Z] ++ value) + 0)%nat
    by (rewrite length_app, Hl; reflexivity).
  rewrite auxv_types_from_shift. apply IH. exact Hok.
Qed.

Lemma Elf32_auxv_length entries : length (Elf32_auxv entries) = (8 * length entries)%nat.
Proof.
  induction entries as [| e entries IH]; [reflexivity |].
  cbn [Elf32_auxv flat_map]. fold (Elf32_auxv entries).
  rewrite !length_app, IH. cbn [length guint32_bytes]. lia.
Qed.

Lemma Elf64_auxv_length entries : length (Elf64_auxv entries) = (16 * length entries)%nat.
Proof.
  induction entries as [| e entries IH]; [reflexivity |].
  cbn [Elf64_auxv flat_map]. fold (Elf64_auxv entries).
  rewrite !length_app, IH. cbn [length guint64_bytes guint32_bytes app]. lia.
Qed.

(** X14. The vector of a 64-bit process whose type codes are below 2^32 is
    taken for that of a 64-bit process. The vector of a 32-bit process is
    taken for that of a 32-bit process when it has fewer than two entries or
    when the value of one of its entries with an even index is not zero; the
    type codes play no part, and a 32-bit vector in which those values are
    all zero is taken for 64-bit. *)
Theorem auxv_width_is_read_off_the_even_entries :
  (forall entries,
     entries <> [] ->
     Forall (fun e => 0 <= fst e < 4294967296) entries ->
     gum_linux_cpu_type_from_auxv cpu32 cpu64 (Elf64_auxv entries) = cpu64)
  /\ (forall entries,
        Forall (fun e => 0 <= fst e < 4294967296 /\ 0 <= snd e < 4294967296) entries ->
        gum_linux_cpu_type_from_auxv cpu32 cpu64 (Elf32_auxv entries)
        = if (length entries <? 2)%nat
             || existsb (fun e => negb (snd e =? 0)) (even_entries entries)
          then cpu32 else cpu64).
Proof.
  split.
  - intros entries Hne Hok. unfold gum_linux_cpu_type_from_auxv.
    rewrite Elf64_auxv_length.
    destruct entries as [| e rest]; [contradiction |].
    destruct (Nat.ltb_spec (16 * length (e :: rest)) (2 * 8)) as [Hlt | _];
      [cbn [length] in Hlt; lia |].
    apply auxv_types_from_64. exact Hok.
  - intros entries Hok. unfold gum_linux_cpu_type_from_auxv.
    rewrite Elf32_auxv_length.
    destruct (Nat.ltb_spec (8 * length entries) (2 * 8)) as [Hlt | Hge];
      destruct (Nat.ltb_spec (length entries) 2) as [Hlt' | Hge']; try lia.
    + reflexivity.
    + cbn [orb]. apply auxv_types_from_32; [lia | exact Hok].
Qed.

End CpuTypeFromAuxvFacts.

Lemma fread_at_two file : forall k,
  (k + 2 <= length file)%nat ->
  fread_at file k 2 = Some [nth k file 0; nth (S k) file 0].
Proof.
  unfold fread_at. induction file as [| b file IH]; intros k Hk; [cbn in Hk; lia |].
  destruct (Nat.leb_spec (k + 2) (length (b :: file))) as [_ | Hno]; [| lia].
  destruct k as [| k].
  - destruct file as [| b' file]; [cbn in Hk; lia | reflexivity].
  - cbn [length] in Hk. specialize (IH k ltac:(lia)).
    destruct (Nat.leb_spec (k + 2) (length file)) as [_ | Hno]; [| lia].
    cbn [drop nth]. exact IH.
Qed.

Lemma fread_at_one file : forall k,
  (k + 1 <= length file)%nat -> fread_at file k 1 = Some [nth k file 0].
Proof.
  unfold fread_at. induction file as [| b file IH]; intros k Hk; [cbn in Hk; lia |].
  destruct (Nat.leb_spec (k + 1) (length (b :: file))) as [_ | Hno]; [| lia].
  destruct k as [| k]; [reflexivity |].
  cbn [length] in Hk. specialize (IH k ltac:(lia)).
  destruct (Nat.leb_spec (k + 1) (length file)) as [_ | Hno]; [| lia].
  cbn [drop nth]. exact IH.
Qed.

Lemma swap_two_bytes lo hi :
  0 <= lo < 256 -> 0 <= hi < 256 -> GUINT16_SWAP_LE_BE (lo + 256 * hi) = 256 * lo + hi.
Proof.
  intros Hlo Hhi. unfold GUINT16_SWAP_LE_BE.
  replace (lo + 256 * hi) with (lo + hi * 256) by lia.
  rewrite Z.mod_add, Z.div_add by lia.
  rewrite Z.mod_small, Z.div_small by lia. lia.
Qed.

(** The file with the three bytes that count and zeros elsewhere, read on a
    host that stores the least significant byte first. *)
Lemma cpu_type_from_file_three_bytes host_le file :
  Forall (fun b => 0 <= b < 256) file ->
  (0x14 <= length file)%nat ->
  gum_linux_cpu_type_from_file host_le (inr file)
  = gum_linux_cpu_type_from_file true
      (inr (replicate 5 0 ++ [nth 5 file 0] ++ replicate 12 0
            ++ [nth 0x12 file 0; nth 0x13 file 0])).
Proof.
  intros Hb Hlen.
  assert (Hlo : 0 <= nth 0x12 file 0 < 256).
  { apply (Forall_nth (fun b => 0 <= b < 256) 0 file); [exact Hb | lia]. }
  assert (Hhi : 0 <= nth 0x13 file 0 < 256).
  { apply (Forall_nth (fun b => 0 <= b < 256) 0 file); [exact Hb | lia]. }
  unfold gum_linux_cpu_type_from_file.
  rewrite (fread_at_one file EI_DATA) by (unfold EI_DATA; lia).
  rewrite (fread_at_two file 0x12) by lia.
  cbn [fread_at replicate app length Nat.add Nat.leb drop take nth EI_DATA
       guint16_in_memory GUINT16_FROM_LE GUINT16_FROM_BE].
  destruct host_le; cbn [guint16_in_memory GUINT16_FROM_LE GUINT16_FROM_BE];
    [reflexivity |].
  replace (256 * nth 18 file 0 + nth 19 file 0)
    with (nth 19 file 0 + 256 * nth 18 file 0) by lia.
  rewrite !swap_two_bytes by assumption.
  replace (256 * nth 19 file 0 + nth 18 file 0)
    with (nth 18 file 0 + 256 * nth 19 file 0) by lia.
  replace (nth 19 file 0 + 256 * nth 18 file 0)
    with (256 * nth 18 file 0 + nth 19 file 0) by lia.
  reflexivity.
Qed.

(** X15. The CPU type of a file is read off the bytes at offsets 5, 0x12
    and 0x13 alone: the ELF magic number is not looked at, the byte order of
    the host plays no part, and a file of fewer than 0x14 bytes is not
    supported. A file marked most-significant-byte-first gets the type that
    a file marked least-significant-byte-first gets for the two bytes in the
    other order. *)
Theorem cpu_type_of_a_file_depends_on_three_bytes (file : list Z) :
  Forall (fun b => 0 <= b < 256) file ->
  ((length file < 0x14)%nat ->
   forall host_le,
     gum_linux_cpu_type_from_file host_le (inr file) = inl GUM_ERROR_NOT_SUPPORTED)
  /\ ((0x14 <= length file)%nat ->
      gum_linux_cpu_type_from_file true (inr file)
      = gum_linux_cpu_type_from_file false (inr file)
      /\ (forall host_le other,
            Forall (fun b => 0 <= b < 256) other ->
            (0x14 <= length other)%nat ->
            nth 5 other 0 = nth 5 file 0 ->
            nth 0x12 other 0 = nth 0x12 file 0 ->
            nth 0x13 other 0 = nth 0x13 file 0 ->
            gum_linux_cpu_type_from_file host_le (inr other)
            = gum_linux_cpu_type_from_file host_le (inr file))
      /\ (forall host_le other,
            Forall (fun b => 0 <= b < 256) other ->
            (0x14 <= length other)%nat ->
            nth 5 file 0 = ELFDATA2LSB ->
            nth 5 other 0 = ELFDATA2MSB ->
            nth 0x12 other 0 = nth 0x13 file 0 ->
            nth 0x13 other 0 = nth 0x12 file 0 ->
            gum_linux_cpu_type_from_file host_le (inr other)
            = gum_linux_cpu_type_from_file host_le (inr file))).
Proof.
  intros Hb. split.
  - intros Hshort host_le. unfold gum_linux_cpu_type_from_file, fread_at.
    destruct (Nat.leb_spec (EI_DATA + 1) (length file)); [| reflexivity].
    destruct (Nat.leb_spec (0x12 + 2) (length file)); [lia | reflexivity].
  - intros Hlen. split; [| split].
    + rewrite (cpu_type_from_file_three_bytes false) by assumption.
      rewrite (cpu_type_from_file_three_bytes true) by assumption. reflexivity.
    + intros host_le other Hbo Hlo H5 H12 H13.
      rewrite (cpu_type_from_file_three_bytes host_le file) by assumption.
      rewrite (cpu_type_from_file_three_bytes host_le other) by assumption.
      rewrite H5, H12, H13. reflexivity.
    + intros host_le other Hbo Hlo Hlsb Hmsb H12 H13.
      assert (Hlo' : 0 <= nth 0x12 file 0 < 256)
        by (apply (Forall_nth (fun b => 0 <= b < 256) 0 file); [exact Hb | lia]).
      assert (Hhi' : 0 <= nth 0x13 file 0 < 256)
        by (apply (Forall_nth (fun b => 0 <= b < 256) 0 file); [exact Hb | lia]).
      rewrite (cpu_type_from_file_three_bytes host_le file) by assumption.
      rewrite (cpu_type_from_file_three_bytes host_le other) by assumption.
      rewrite Hlsb, Hmsb, H12, H13.
      unfold gum_linux_cpu_type_from_file.
      cbn [fread_at replicate app length Nat.add Nat.leb drop take nth EI_DATA
           guint16_in_memory GUINT16_FROM_LE GUINT16_FROM_BE].
      change (ELFDATA2MSB =? ELFDATA2LSB) with false.
      change (ELFDATA2MSB =? ELFDATA2MSB) with true.
      change (ELFDATA2LSB =? ELFDATA2LSB) with true.
      cbv iota. rewrite swap_two_bytes by assumption.
      replace (256 * nth 19 file 0 + nth 18 file 0)
        with (nth 18 file 0 + 256 * nth 19 file 0) by lia.
      reflexivity.
Qed.

(** ** The lines of /proc/<pid>/maps *)

Lemma strchr_from_found line rest : forall i,
  plain line ->
  strchr_from (line ++ newline :: rest) newline i = FoundAt (i + length line).
Proof.
  induction line as [| x line IH]; intros i [Hnl Hz]; cbn [app strchr_from length].
  - rewrite Z.eqb_refl. f_equal. lia.
  - destruct (Z.eqb_spec x newline) as [-> | _]; [exfalso; apply Hnl; left |].
    destruct (Z.eqb_spec x 0) as [-> | _]; [exfalso; apply Hz; left |].
    rewrite IH; [f_equal; lia |].
    split; intros Hin; [apply Hnl | apply Hz]; right; exact Hin.
Qed.

Lemma strchr_from_no_newline bytes rest : forall i,
  newline ∉ bytes ->
  strchr_from (bytes ++ 0 :: rest) newline i = NotFound.
Proof.
  induction bytes as [| x bytes IH]; intros i Hnl; cbn [app strchr_from].
  - reflexivity.
  - destruct (Z.eqb_spec x newline) as [-> | _]; [exfalso; apply Hnl; left |].
    destruct (x =? 0); [reflexivity |].
    apply IH. intros Hin. apply Hnl. right. exact Hin.
Qed.

Lemma store_at_middle (before : list Z) old after data :
  length old = length data ->
  store_at (before ++ old ++ after) (length before) data = before ++ data ++ after.
Proof.
  intros Hlen. unfold store_at.
  rewrite take_app_length. f_equal. f_equal.
  rewrite drop_app_add'; [| reflexivity].
  rewrite <- Hlen. rewrite drop_app_length. reflexivity.
Qed.

Lemma store_at_length buf offset data :
  (offset + length data <= length buf)%nat ->
  length (store_at buf offset data) = length buf.
Proof.
  intros Hfit. unfold store_at. rewrite !length_app, length_take, length_drop. lia.
Qed.

Lemma with_newlines_cons line lines :
  with_newlines (line :: lines) = line ++ newline :: with_newlines lines.
Proof. unfold with_newlines. cbn [flat_map]. rewrite <- app_assoc. reflexivity. Qed.

Lemma guint_of_small z : 0 <= z < 4294967296 -> guint_of z = z.
Proof. intros Hz. unfold guint_of. apply Z.mod_small. exact Hz. Qed.

(** A line that is in the buffer is returned without a read. *)
Lemma next_line_from_buffer it size before line lines answers :
  holds_lines it size before (line :: lines) ->
  plain line ->
  Z.of_nat size < 4294967296 ->
  exists it',
    gum_proc_maps_iter_next it answers = Returns (Some line, it', answers)
    /\ holds_lines it' size (before ++ line ++ [0]) lines.
Proof.
  intros (after & Hbuf & Hrc & Hwc & Hsize & Hfd) Hplain Hsmall.
  rewrite with_newlines_cons in Hbuf, Hwc.
  assert (Hlen : (length before + length (line ++ newline :: with_newlines lines) + 1
                  <= size)%nat).
  { rewrite <- Hsize, Hbuf. repeat (rewrite length_app || cbn [length]). lia. }
  unfold gum_proc_maps_iter_next.
  destruct (Z.eqb_spec (iter_fd it) (-1)) as [| _]; [contradiction |].
  rewrite Hrc, Hwc, guint_of_small by lia.
  rewrite length_app in *. cbn [length] in *.
  destruct (Z.eqb_spec (Z.of_nat (length before
              + (length line + S (length (with_newlines lines))))
              - Z.of_nat (length before)) 0) as [Hz | _]; [lia |].
  rewrite Hbuf, drop_app_length, <- app_assoc. cbn [app].
  rewrite strchr_from_found by exact Hplain.
  unfold take_line. rewrite Hrc, Hbuf, drop_app_length.
  replace (length before + length line - length before)%nat with (length line) by lia.
  rewrite <- app_assoc. cbn [app]. rewrite take_app_length.
  eexists. split; [reflexivity |].
  exists after. cbn [buffer read_cursor write_cursor iter_fd].
  split; [| split; [| split; [| split]]].
  - replace (before ++ line ++ newline :: with_newlines lines ++ 0 :: after)
      with ((before ++ line) ++ [newline] ++ (with_newlines lines ++ 0 :: after))
      by (rewrite <- app_assoc; reflexivity).
    replace (length before + length line)%nat with (length (before ++ line))
      by (rewrite length_app; reflexivity).
    rewrite store_at_middle by reflexivity.
    rewrite <- !app_assoc. reflexivity.
  - rewrite !length_app. cbn. lia.
  - rewrite Hwc, !length_app. cbn. lia.
  - rewrite store_at_length.
    + rewrite <- Hsize, Hbuf, <- app_assoc. reflexivity.
    + repeat (rewrite length_app || cbn [length]). lia.
  - exact Hfd.
Qed.

Lemma store_at_refill buf data :
  store_at (store_at buf 0 data) (0 + length data) [0]
  = data ++ 0 :: drop (length data + 1) buf.
Proof.
  unfold store_at. cbn [app Nat.add length].
  change (take 0 buf) with (@nil Z). cbn [app].
  rewrite take_app_length. f_equal. f_equal.
  rewrite drop_app_add'; [| reflexivity]. rewrite drop_drop. reflexivity.
Qed.

Lemma read_retrying_filter answers :
  let '(reply, later) := read_retrying answers in
  match List.filter (fun r => negb (interrupted r)) answers with
  | [] => reply = ReadBytes [] /\ List.filter (fun r => negb (interrupted r)) later = []
  | first :: rest =>
      reply = first /\ List.filter (fun r => negb (interrupted r)) later = rest
  end.
Proof.
  induction answers as [| [data | errno] answers IH]; cbn [read_retrying List.filter].
  - split; reflexivity.
  - cbn. split; reflexivity.
  - cbn [interrupted]. destruct (Z.neg errno =? - EINTR) eqn:Hneg.
    + apply Z.eqb_eq in Hneg.
      assert (Hpos : (Z.pos errno =? EINTR) = true)
        by (apply Z.eqb_eq; unfold EINTR in *; lia).
      rewrite Hpos. cbn [negb]. exact IH.
    + apply Z.eqb_neq in Hneg.
      assert (Hpos : (Z.pos errno =? EINTR) = false)
        by (apply Z.eqb_neq; unfold EINTR in *; lia).
      rewrite Hpos. cbn [negb]. split; reflexivity.
Qed.

(** With nothing left in the buffer the next line comes from a read. *)
Lemma next_line_from_read it size line lines answers later :
  iter_fd it <> -1 ->
  read_cursor it = write_cursor it ->
  (read_cursor it <= length (buffer it))%nat ->
  length (buffer it) = size ->
  Z.of_nat size < 4294967296 ->
  read_retrying answers = (ReadBytes (with_newlines (line :: lines)), later) ->
  (length (with_newlines (line :: lines)) + 1 <= size)%nat ->
  plain line ->
  exists it',
    gum_proc_maps_iter_next it answers = Returns (Some line, it', later)
    /\ holds_lines it' size (line ++ [0]) lines.
Proof.
  intros Hfd Hcur Hin Hsize Hsmall Hread Hfit Hplain.
  unfold gum_proc_maps_iter_next.
  destruct (Z.eqb_spec (iter_fd it) (-1)) as [| _]; [contradiction |].
  rewrite <- Hcur, Z.sub_diag. change (guint_of 0 =? 0) with true. cbv iota.
  set (data := with_newlines (line :: lines)) in *.
  assert (Hmoved : exists it1,
            (if (0 <? read_cursor it)%nat
             then
               if (read_cursor it + Z.to_nat (guint_of 0) <=? length (buffer it))%nat
               then
                 Some {| iter_fd := iter_fd it;
                         buffer := store_at (buffer it) 0
                                     (take (Z.to_nat (guint_of 0))
                                        (drop (read_cursor it) (buffer it)));
                         read_cursor := read_cursor it - read_cursor it;
                         write_cursor := read_cursor it - read_cursor it |}
               else None
             else Some it) = Some it1
            /\ iter_fd it1 = iter_fd it /\ buffer it1 = buffer it
            /\ read_cursor it1 = 0%nat /\ write_cursor it1 = 0%nat).
  { change (Z.to_nat (guint_of 0)) with 0%nat.
    destruct (Nat.ltb_spec 0 (read_cursor it)) as [Hpos | Hzero].
    - destruct (Nat.leb_spec (read_cursor it + 0) (length (buffer it))) as [_ | Hno];
        [| lia].
      eexists. split; [reflexivity |]. cbn [iter_fd buffer read_cursor write_cursor].
      repeat split; lia.
    - exists it. split; [reflexivity |]. repeat split; lia. }
  destruct Hmoved as (it1 & -> & Hfd1 & Hbuf1 & Hrc1 & Hwc1).
  rewrite Hread, Hwc1, Hrc1, Hbuf1, Hfd1, Hsize.
  assert (Hdata : data = line ++ newline :: with_newlines lines)
    by (subst data; apply with_newlines_cons).
  destruct data as [| b data'] eqn:Hd;
    [destruct line; discriminate |].
  rewrite <- Hd in *. clear Hd b data'.
  unfold gsize_of.
  rewrite Z.mod_small by (unfold modulus, word_bits; cbn; lia).
  destruct (Z.leb_spec (Z.of_nat (length data)) (Z.of_nat size - 1 - Z.of_nat 0))
    as [_ | Hno]; [| lia].
  destruct (Nat.leb_spec (0 + length data + 1) size) as [_ | Hno]; [| lia].
  cbn [andb]. cbn [buffer read_cursor write_cursor iter_fd].
  rewrite store_at_refill. rewrite drop_0.
  clearbody data. subst data.
  set (rest := drop (length (line ++ newline :: with_newlines lines) + 1) (buffer it)).
  assert (Hrest : (length (line ++ newline :: with_newlines lines) + 1 + length rest
                   = size)%nat).
  { subst rest. rewrite length_drop. lia. }
  clearbody rest.
  rewrite <- app_assoc. cbn [app].
  rewrite strchr_from_found by exact Hplain.
  unfold take_line. cbn [buffer read_cursor write_cursor iter_fd].
  rewrite drop_0.
  replace (0 + length line - 0)%nat with (length line) by lia.
  rewrite take_app_length.
  eexists. split; [reflexivity |].
  exists rest.
  cbn [buffer read_cursor write_cursor iter_fd].
  rewrite length_app in *. cbn [length] in *.
  split; [| split; [| split; [| split]]].
  - change (line ++ newline :: with_newlines lines ++ 0 :: rest)
      with (line ++ [newline] ++ (with_newlines lines ++ 0 :: rest)).
    replace (0 + length line)%nat with (length line) by lia.
    rewrite <- (app_nil_l (line ++ [newline] ++ _)).
    replace (length line) with (length ([] ++ line)) by reflexivity.
    rewrite app_assoc.
    rewrite store_at_middle by reflexivity.
    cbn [app]. rewrite <- app_assoc. reflexivity.
  - repeat (rewrite length_app || cbn [length]). lia.
  - repeat (rewrite length_app || cbn [length]). lia.
  - rewrite store_at_length.
    + repeat (rewrite length_app || cbn [length]). lia.
    + repeat (rewrite length_app || cbn [length]). lia.
  - exact Hfd.
Qed.

(** At the end of the file, or on an error, the answer is FALSE. *)
Lemma next_at_the_end it answers reply later :
  iter_fd it <> -1 ->
  read_cursor it = write_cursor it ->
  (read_cursor it <= length (buffer it))%nat ->
  read_retrying answers = (reply, later) ->
  match reply with ReadBytes (_ :: _) => False | _ => True end ->
  exists it1, gum_proc_maps_iter_next it answers = Returns (None, it1, later).
Proof.
  intros Hfd Hcur Hin Hread Hend.
  unfold gum_proc_maps_iter_next.
  destruct (Z.eqb_spec (iter_fd it) (-1)) as [| _]; [contradiction |].
  rewrite <- Hcur, Z.sub_diag. change (guint_of 0 =? 0) with true. cbv iota.
  change (Z.to_nat (guint_of 0)) with 0%nat. rewrite Hread.
  destruct (0 <? read_cursor it)%nat.
  - destruct (Nat.leb_spec (read_cursor it + 0) (length (buffer it))) as [_ | Hno];
      [| lia].
    destruct reply as [[| b data] | errno]; [| contradiction |]; eexists; reflexivity.
  - destruct reply as [[| b data] | errno]; [| contradiction |]; eexists; reflexivity.
Qed.

Lemma holds_no_lines it size before :
  holds_lines it size before [] ->
  iter_fd it <> -1 /\ read_cursor it = write_cursor it
  /\ (read_cursor it <= length (buffer it))%nat /\ length (buffer it) = size.
Proof.
  intros (after & Hbuf & Hrc & Hwc & Hsize & Hfd). cbn in Hwc.
  split; [exact Hfd |]. split; [lia |]. split; [| exact Hsize].
  rewrite Hbuf, Hrc, length_app. lia.
Qed.

Lemma lines_until_false_spec size chunks :
  Z.of_nat size < 4294967296 ->
  Forall (fun chunk => chunk <> [] /\ Forall plain chunk
                       /\ (length (with_newlines chunk) + 1 <= size)%nat) chunks ->
  forall lines it answers rounds,
    (lines = [] /\ iter_fd it <> -1 /\ read_cursor it = write_cursor it
     /\ (read_cursor it <= length (buffer it))%nat /\ length (buffer it) = size)
    \/ (exists before, holds_lines it size before lines) ->
    Forall plain lines ->
    List.filter (fun r => negb (interrupted r)) answers
    = map (fun chunk => ReadBytes (with_newlines chunk)) chunks ->
    (length lines + length (concat chunks) < rounds)%nat ->
    lines_until_false rounds it answers = Returns (lines ++ concat chunks).
Proof.
  intros Hsmall Hchunks.
  induction Hchunks as [| chunk chunks (Hne & Hplain & Hfit) _ IHchunks].
  - induction lines as [| line lines IH]; intros it answers rounds Hready Hpl Hans Hrounds.
    + assert (Hempty : iter_fd it <> -1 /\ read_cursor it = write_cursor it
                       /\ (read_cursor it <= length (buffer it))%nat
                       /\ length (buffer it) = size).
      { destruct Hready as [(_ & Hr) | (before & Hh)];
          [exact Hr | exact (holds_no_lines _ _ _ Hh)]. }
      destruct Hempty as (Hfd & Hcur & Hin & _).
      destruct rounds as [| rounds]; [cbn in Hrounds; lia |].
      pose proof (read_retrying_filter answers) as Hret.
      destruct (read_retrying answers) as [reply later] eqn:Hread.
      rewrite Hans in Hret. cbn [map] in Hret. destruct Hret as [-> _].
      destruct (next_at_the_end it answers _ _ Hfd Hcur Hin Hread I) as [it1 Hnext].
      cbn [lines_until_false]. rewrite Hnext. reflexivity.
    + destruct Hready as [(Hnil & _) | (before & Hh)]; [discriminate |].
      apply Forall_cons in Hpl as [Hline Hpl].
      destruct rounds as [| rounds]; [cbn in Hrounds; lia |].
      destruct (next_line_from_buffer it size before line lines answers Hh Hline Hsmall)
        as (it' & Hnext & Hh').
      cbn [lines_until_false]. rewrite Hnext.
      rewrite (IH it' answers rounds); [reflexivity | right; eauto | exact Hpl
                                        | exact Hans | cbn in Hrounds |- *; lia].
  - induction lines as [| line lines IH]; intros it answers rounds Hready Hpl Hans Hrounds.
    + assert (Hempty : iter_fd it <> -1 /\ read_cursor it = write_cursor it
                       /\ (read_cursor it <= length (buffer it))%nat
                       /\ length (buffer it) = size).
      { destruct Hready as [(_ & Hr) | (before & Hh)];
          [exact Hr | exact (holds_no_lines _ _ _ Hh)]. }
      destruct Hempty as (Hfd & Hcur & Hin & Hsize).
      destruct chunk as [| first others]; [contradiction |].
      apply Forall_cons in Hplain as [Hfirst Hothers].
      destruct rounds as [| rounds]; [cbn in Hrounds; lia |].
      pose proof (read_retrying_filter answers) as Hret.
      destruct (read_retrying answers) as [reply later] eqn:Hread.
      rewrite Hans in Hret. cbn [map] in Hret. destruct Hret as [-> Hlater].
      destruct (next_line_from_read it size first others answers later
                  Hfd Hcur Hin Hsize Hsmall Hread Hfit Hfirst) as (it' & Hnext & Hh').
      cbn [lines_until_false]. rewrite Hnext.
      rewrite (IHchunks others it' later rounds);
        [reflexivity | right; eauto | exact Hothers | exact Hlater |].
      cbn [concat length app] in Hrounds. rewrite length_app in Hrounds.
      cbn [length] in Hrounds. lia.
    + destruct Hready as [(Hnil & _) | (before & Hh)]; [discriminate |].
      apply Forall_cons in Hpl as [Hline Hpl].
      destruct rounds as [| rounds]; [cbn in Hrounds; lia |].
      destruct (next_line_from_buffer it size before line lines answers Hh Hline Hsmall)
        as (it' & Hnext & Hh').
      cbn [lines_until_false]. rewrite Hnext.
      rewrite (IH it' answers rounds); [reflexivity | right; eauto | exact Hpl
                                        | exact Hans | cbn in Hrounds |- *; lia].
Qed.

(** X16. When every read brings a whole number of lines that fit the
    buffer, the loop over [gum_proc_maps_iter_next] returns every line of
    the file once, in order and without its newline, and then FALSE; reads
    that were interrupted are repeated and leave no trace. *)
Theorem every_line_is_returned_once_in_order stale fd chunks answers rounds :
  fd <> -1 ->
  Z.of_nat (length stale) < 4294967296 ->
  Forall (fun chunk => chunk <> [] /\ Forall plain chunk
                       /\ (length (with_newlines chunk) + 1 <= length stale)%nat)
    chunks ->
  List.filter (fun r => negb (interrupted r)) answers
  = map (fun chunk => ReadBytes (with_newlines chunk)) chunks ->
  (length (concat chunks) < rounds)%nat ->
  lines_until_false rounds (gum_proc_maps_iter_init_for_path stale fd) answers
  = Returns (concat chunks).
Proof.
  intros Hfd Hsmall Hchunks Hans Hrounds.
  apply (lines_until_false_spec (length stale) chunks Hsmall Hchunks []).
  - left. cbn. repeat split; [exact Hfd | lia].
  - constructor.
  - exact Hans.
  - exact Hrounds.
Qed.

Lemma store_at_after (front tail data : list Z) :
  store_at (front ++ tail) (length front) data
  = front ++ data ++ drop (length data) tail.
Proof.
  unfold store_at. rewrite take_app_length. f_equal. f_equal.
  rewrite drop_app_add'; reflexivity.
Qed.

(** The refill with the start of a line pending: the pending bytes are at
    the start of the buffer afterwards. *)
Lemma pending_bytes_are_moved it before pending after :
  buffer it = before ++ pending ++ 0 :: after ->
  read_cursor it = length before ->
  write_cursor it = (length before + length pending)%nat ->
  Z.of_nat (length (buffer it)) < 4294967296 ->
  newline ∉ pending ->
  exists it1 tail,
    iter_fd it1 = iter_fd it
    /\ buffer it1 = pending ++ tail
    /\ length (buffer it1) = length (buffer it)
    /\ read_cursor it1 = 0%nat
    /\ write_cursor it1 = length pending
    /\ forall answers,
         iter_fd it <> -1 ->
         gum_proc_maps_iter_next it answers
         = let count :=
             gsize_of (Z.of_nat (length (buffer it1)) - 1 - Z.of_nat (write_cursor it1)) in
           let '(reply, later) := read_retrying answers in
           match reply with
           | ReadError errno => Returns (None, it1, later)
           | ReadBytes [] => Returns (None, it1, later)
           | ReadBytes data =>
               let res := length data in
               if (Z.of_nat res <=? count)
                  && (write_cursor it1 + res + 1 <=? length (buffer it1))%nat
               then
                 let it2 :=
                   {| iter_fd := iter_fd it1;
                      buffer := store_at (store_at (buffer it1) (write_cursor it1) data)
                                  (write_cursor it1 + res) [0];
                      read_cursor := read_cursor it1;
                      write_cursor := write_cursor it1 + res |} in
                 match strchr_from (drop (read_cursor it2) (buffer it2)) newline
                         (read_cursor it2) with
                 | FoundAt i =>
                     let '(line, it') := take_line it2 i in
                     Returns (Some line, it', later)
                 | NotFound => Faults
                 | PastTheEnd => Faults
                 end
               else Faults
           end.
Proof.
  intros Hbuf Hrc Hwc Hsmall Hnl.
  assert (Hlen : length (buffer it)
                 = (length before + length pending + 1 + length after)%nat).
  { rewrite Hbuf. repeat (rewrite length_app || cbn [length]). lia. }
  assert (Havail : guint_of (Z.of_nat (write_cursor it) - Z.of_nat (read_cursor it))
                   = Z.of_nat (length pending)).
  { rewrite Hwc, Hrc, guint_of_small by lia. lia. }
  assert (Hscan : (if guint_of (Z.of_nat (write_cursor it) - Z.of_nat (read_cursor it)) =? 0
                   then NotFound
                   else strchr_from (drop (read_cursor it) (buffer it)) newline
                          (read_cursor it)) = NotFound).
  { destruct (_ =? 0); [reflexivity |].
    rewrite Hrc, Hbuf, drop_app_length. apply strchr_from_no_newline. exact Hnl. }
  destruct before as [| b before'] eqn:Hb.
  - exists it, (0 :: after). cbn [app length] in *.
    split; [reflexivity |]. split; [exact Hbuf |]. split; [reflexivity |].
    split; [exact Hrc |]. split; [lia |].
    intros answers Hfd. unfold gum_proc_maps_iter_next.
    destruct (Z.eqb_spec (iter_fd it) (-1)) as [| _]; [contradiction |].
    rewrite Hscan.
    replace (0 <? read_cursor it)%nat with false by (rewrite Hrc; reflexivity).
    reflexivity.
  - rewrite <- Hb in *.
    assert (Hpos : (0 < length before)%nat) by (rewrite Hb; cbn; lia).
    clear Hb b before'.
    exists {| iter_fd := iter_fd it;
              buffer := store_at (buffer it) 0
                          (take (length pending) (drop (length before) (buffer it)));
              read_cursor := 0;
              write_cursor := length pending |},
      (drop (length pending) (buffer it)).
    assert (Htake : take (length pending) (drop (length before) (buffer it)) = pending).
    { rewrite Hbuf, drop_app_length, take_app_length. reflexivity. }
    cbn [iter_fd buffer read_cursor write_cursor].
    split; [reflexivity |].
    split; [rewrite Htake; unfold store_at; reflexivity |].
    split; [apply store_at_length; rewrite Htake; cbn; lia |].
    split; [reflexivity |]. split; [reflexivity |].
    intros answers Hfd. unfold gum_proc_maps_iter_next.
    destruct (Z.eqb_spec (iter_fd it) (-1)) as [| _]; [contradiction |].
    rewrite Hscan, Havail, Nat2Z.id, Hrc, Hwc.
    destruct (Nat.ltb_spec 0 (length before)) as [_ | Hno]; [| lia].
    destruct (Nat.leb_spec (length before + length pending) (length (buffer it)))
      as [_ | Hno]; [| lia].
    replace (length before - length before)%nat with 0%nat by lia.
    replace (length before + length pending - length before)%nat
      with (length pending) by lia.
    reflexivity.
Qed.

(** X17. The edges of [gum_proc_maps_iter_next]. Without a descriptor it
    answers FALSE and reads nothing. With the start of a line pending and
    the file at its end, or the read failing, it answers FALSE: a last line
    without a newline is never returned. With the start of a line pending
    and a read that brings bytes but no newline, [strchr] finds none and the
    function writes through the null pointer. *)
Theorem maps_iter_without_a_newline_in_reach it before pending after answers :
  (iter_fd it = -1 -> gum_proc_maps_iter_next it answers = Returns (None, it, answers))
  /\ (iter_fd it <> -1 ->
      buffer it = before ++ pending ++ 0 :: after ->
      read_cursor it = length before ->
      write_cursor it = (length before + length pending)%nat ->
      Z.of_nat (length (buffer it)) < 4294967296 ->
      newline ∉ pending ->
      match read_retrying answers with
      | (ReadBytes [], later) | (ReadError _, later) =>
          exists it1,
            gum_proc_maps_iter_next it answers = Returns (None, it1, later)
            /\ take (write_cursor it1 - read_cursor it1)
                 (drop (read_cursor it1) (buffer it1)) = pending
      | (ReadBytes data, later) =>
          (length pending + length data + 1 <= length (buffer it))%nat ->
          newline ∉ data ->
          gum_proc_maps_iter_next it answers = Faults
      end).
Proof.
  split.
  - intros Hclosed. unfold gum_proc_maps_iter_next. rewrite Hclosed. reflexivity.
  - intros Hfd Hbuf Hrc Hwc Hsmall Hnl.
    destruct (pending_bytes_are_moved it before pending after Hbuf Hrc Hwc Hsmall Hnl)
      as (it1 & tail & Hfd1 & Hbuf1 & Hlen1 & Hrc1 & Hwc1 & Hnext).
    specialize (Hnext answers Hfd). cbv zeta in Hnext.
    destruct (read_retrying answers) as [[[| b data] | errno] later].
    + exists it1. split; [exact Hnext |].
      rewrite Hrc1, Hwc1, Hbuf1, drop_0, Nat.sub_0_r. apply take_app_length.
    + intros Hfit Hnodata. rewrite Hnext. clear Hnext.
      set (d := b :: data) in *.
      unfold gsize_of.
      rewrite Z.mod_small by (unfold modulus, word_bits; cbn; lia).
      rewrite Hwc1, Hlen1, Hrc1.
      destruct (Z.leb_spec (Z.of_nat (length d))
                  (Z.of_nat (length (buffer it)) - 1 - Z.of_nat (length pending)))
        as [_ | Hno]; [| lia].
      destruct (Nat.leb_spec (length pending + length d + 1) (length (buffer it)))
        as [_ | Hno]; [| lia].
      cbn [andb buffer read_cursor]. rewrite drop_0, Hbuf1.
      rewrite store_at_after.
      replace (length pending + length d)%nat with (length (pending ++ d))
        by (rewrite length_app; reflexivity).
      rewrite app_assoc, store_at_after. cbn [app].
      rewrite strchr_from_no_newline; [reflexivity |].
      intros Hin. apply elem_of_app in Hin as [Hin | Hin]; contradiction.
    + exists it1. split; [exact Hnext |].
      rewrite Hrc1, Hwc1, Hbuf1, drop_0, Nat.sub_0_r. apply take_app_length.
Qed.

(** ** The dumpable count over a session *)

Section SessionDumpability.
Context `{Kernel}.

Lemma syscall_count s w r w' :
  syscall s w = (r, w') -> gum_dumpable_refcount w' = gum_dumpable_refcount w.
Proof.
  unfold syscall. destruct (kernel_call s (kernel w)) as [r0 k].
  intros E. inversion E; subst. reflexivity.
Qed.

Lemma gum_libc_ptrace_count req pid a d w res w' :
  gum_libc_ptrace req pid a d w = (res, w') ->
  gum_dumpable_refcount w' = gum_dumpable_refcount w.
Proof.
  unfold gum_libc_ptrace. destruct (syscall _ w) as [r w1] eqn:E1.
  intros E. inversion E; subst. now apply syscall_count in E1.
Qed.

Lemma gum_get_regs_count pid w res regs w' :
  gum_get_regs pid w = ((res, regs), w') ->
  gum_dumpable_refcount w' = gum_dumpable_refcount w.
Proof.
  unfold gum_get_regs, syscall.
  destruct (gum_is_regset_supported w).
  - destruct (kernel_call _ (kernel w)) as [r k]. simpl.
    destruct (0 <=? reply_ret r); [| destruct (_ || _)].
    + intros E; inversion E; subst. reflexivity.
    + intros E; inversion E; subst. reflexivity.
    + simpl. destruct (kernel_call _ k) as [r2 k2].
      intros E; inversion E; subst. reflexivity.
  - destruct (kernel_call _ (kernel w)) as [r k].
    intros E; inversion E; subst. reflexivity.
Qed.

Lemma gum_set_regs_count pid regs w res w' :
  gum_set_regs pid regs w = (res, w') ->
  gum_dumpable_refcount w' = gum_dumpable_refcount w.
Proof.
  unfold gum_set_regs, syscall.
  destruct (gum_is_regset_supported w).
  - destruct (kernel_call _ (kernel w)) as [r k]. simpl.
    destruct (0 <=? reply_ret r); [| destruct (_ || _)].
    + intros E; inversion E; subst. reflexivity.
    + intros E; inversion E; subst. reflexivity.
    + simpl. destruct (kernel_call _ k) as [r2 k2].
      intros E; inversion E; subst. reflexivity.
  - destruct (kernel_call _ (kernel w)) as [r k].
    intros E; inversion E; subst. reflexivity.
Qed.

Lemma gum_acquire_dumpability_count w u w' :
  gum_acquire_dumpability w = (u, w') ->
  gum_dumpable_refcount w' = gum_dumpable_refcount w + 1.
Proof.
  unfold gum_acquire_dumpability, syscall. simpl.
  destruct (_ =? 1).
  - destruct (kernel_call _ _) as [r k]. simpl.
    destruct (_ && _).
    + simpl. destruct (kernel_call _ _) as [r2 k2]. simpl.
      intros E; inversion E; subst. reflexivity.
    + intros E; inversion E; subst. reflexivity.
  - intros E; inversion E; subst. reflexivity.
Qed.

Lemma gum_release_dumpability_count w u w' :
  gum_release_dumpability w = (u, w') ->
  gum_dumpable_refcount w' = gum_dumpable_refcount w - 1.
Proof.
  unfold gum_release_dumpability, syscall. simpl.
  destruct (_ =? 0).
  - destruct (_ && _).
    + simpl. destruct (kernel_call _ _) as [r2 k2]. simpl.
      intros E; inversion E; subst. reflexivity.
    + intros E; inversion E; subst. reflexivity.
  - intros E; inversion E; subst. reflexivity.
Qed.

#[local] Arguments syscall : simpl never.
#[local] Arguments gum_libc_ptrace : simpl never.
#[local] Arguments gum_get_regs : simpl never.
#[local] Arguments gum_set_regs : simpl never.
#[local] Arguments gum_acquire_dumpability : simpl never.
#[local] Arguments gum_release_dumpability : simpl never.

Ltac run_action :=
  match goal with
  | |- context [syscall ?s ?w] => destruct (syscall s w) as [? ?] eqn:?; cbn
  | |- context [gum_libc_ptrace ?a ?b ?c ?d ?w] =>
      destruct (gum_libc_ptrace a b c d w) as [? ?] eqn:?; cbn
  | |- context [gum_get_regs ?p ?w] => destruct (gum_get_regs p w) as [[? ?] ?] eqn:?; cbn
  | |- context [gum_set_regs ?p ?r ?w] => destruct (gum_set_regs p r w) as [? ?] eqn:?; cbn
  | |- context [gum_acquire_dumpability ?w] =>
      destruct (gum_acquire_dumpability w) as [? ?] eqn:?; cbn
  | |- context [gum_release_dumpability ?w] =>
      destruct (gum_release_dumpability w) as [? ?] eqn:?; cbn
  | |- context [if ?b then _ else _] => destruct b eqn:?; cbn
  end.

Ltac count_actions :=
  repeat match goal with
  | E : syscall _ _ = _ |- _ => apply syscall_count in E
  | E : gum_libc_ptrace _ _ _ _ _ = _ |- _ => apply gum_libc_ptrace_count in E
  | E : gum_get_regs _ _ = _ |- _ => apply gum_get_regs_count in E
  | E : gum_set_regs _ _ _ = _ |- _ => apply gum_set_regs_count in E
  | E : gum_acquire_dumpability _ = _ |- _ => apply gum_acquire_dumpability_count in E
  | E : gum_release_dumpability _ = _ |- _ => apply gum_release_dumpability_count in E
  end;
  cbn [gum_dumpable_refcount set_cpu_context set_func_calls set_syscalls
       set_kernel set_regset_supported set_dumpable] in *.

(** X18. A call of [gum_process_modify_thread] that returns, with TRUE or
    with FALSE, leaves the dumpable count as it found it: every path on
    which the caller acquired dumpability releases it. *)
Theorem modify_thread_balances_the_dumpable_count thread_id func flags fuel w success w' :
  outcome_of (gum_process_modify_thread fuel thread_id func flags w) = Returned success w' ->
  gum_dumpable_refcount w' = gum_dumpable_refcount w.
Proof.
  unfold gum_process_modify_thread.
  destruct (thread_id =? gum_process_get_current_thread_id) eqn:Hcur.
  - destruct have_getcontext; cbn.
    + destruct (syscall SysGetcontext w) as [r w1] eqn:Hget. cbn.
      apply syscall_count in Hget. rewrite <- Hget. clear Hget.
      destruct fuel as [| fuel]; cbn;
        (destruct (returns_to_getcontext _); [| discriminate]);
        [discriminate |].
      destruct fuel; cbn; intros E; inversion E; subst; reflexivity.
    + intros E. inversion E; subst. reflexivity.
  - unfold modify_other_thread, gum_do_modify_thread, gum_await_ack, gum_put_ack,
      helper_beach.
    cbn. repeat run_action.
    all: intros E; try discriminate E; inversion E; subst; clear E.
    all: count_actions; lia.
Qed.

End SessionDumpability.

(** ** The range of an ELF image *)

Lemma page_start_rounds_down x k :
  0 <= x < modulus -> 0 <= k < word_bits ->
  GUM_PAGE_START x (2 ^ k) = x - x mod 2 ^ k.
Proof.
  intros Hx Hk. unfold GUM_PAGE_START, guint64_not, word_bits in *.
  assert (Hm : modulus = 2 ^ 64) by reflexivity.
  assert (Hp : 0 < 2 ^ k < modulus).
  { rewrite Hm. split; [apply Z.pow_pos_nonneg; lia |].
    apply Z.pow_lt_mono_r; lia. }
  unfold gsize_of. rewrite !Z.mod_small by lia.
  replace (2 ^ k - 1) with (Z.ones k) by (rewrite Z.ones_equiv; lia).
  replace (x - x mod 2 ^ k) with (Z.shiftl (Z.shiftr x k) k).
  2:{ rewrite Z.shiftl_mul_pow2, Z.shiftr_div_pow2 by lia.
      pose proof (Z.div_mod x (2 ^ k)). lia. }
  apply Z.bits_inj'. intros i Hi.
  rewrite Z.land_spec, Z.lxor_spec.
  destruct (Z.lt_ge_cases i k) as [Hlt | Hge].
  - rewrite Z.shiftl_spec_low by lia.
    rewrite !Z.ones_spec_low by lia. cbn. apply andb_false_r.
  - rewrite Z.shiftl_spec_high by lia. rewrite Z.shiftr_spec by lia.
    replace (i - k + k) with i by lia.
    rewrite (Z.ones_spec_high k i) by lia.
    destruct (Z.lt_ge_cases i 64) as [Hlt | Hge'].
    + rewrite Z.ones_spec_low by lia. cbn. apply andb_true_r.
    + rewrite Z.ones_spec_high by lia. cbn. rewrite andb_false_r.
      symmetry. destruct (Z.eq_dec x 0) as [-> | Hnz]; [apply Z.testbit_0_l |].
      apply Z.bits_above_log2; [lia |].
      assert (Z.log2 x < 64); [| lia].
      apply Z.log2_lt_pow2; lia.
Qed.

Lemma MIN_min a b : MIN a b = Z.min a b.
Proof. unfold MIN. destruct (Z.ltb_spec a b); lia. Qed.

Lemma MAX_max a b : MAX a b = Z.max a b.
Proof. unfold MAX. destruct (Z.gtb_spec a b); lia. Qed.

Lemma scan_phdr_app phdrs page_size s l h :
  fold_left (scan_phdr phdrs page_size) (l ++ [h]) s
  = scan_phdr phdrs page_size (fold_left (scan_phdr phdrs page_size) l s) h.
Proof. now rewrite fold_left_app. Qed.

(** What the loop has computed after a list of headers. *)
Lemma scan_bounds phdrs k headers :
  0 <= k < word_bits ->
  Forall segment_in_memory headers ->
  let s := fold_left (scan_phdr phdrs (2 ^ k)) headers
             {| scan_base_address := 0; lowest := gsize_of (-1); highest := 0 |} in
  (Forall (fun h => ~ loadable h) headers
   /\ lowest s = modulus - 1 /\ highest s = 0)
  \/ ((2 ^ k | lowest s)
      /\ 0 <= lowest s /\ highest s < modulus
      /\ (forall h, h ∈ headers -> loadable h ->
            lowest s <= p_vaddr h /\ p_vaddr h + p_memsz h <= highest s)
      /\ (exists h, h ∈ headers /\ loadable h
            /\ lowest s = p_vaddr h - p_vaddr h mod 2 ^ k)
      /\ (exists h, h ∈ headers /\ loadable h
            /\ highest s = p_vaddr h + p_memsz h)).
Proof.
  intros Hk. induction headers as [| h l IH] using rev_ind; intros Hall s.
  - left. subst s. cbn. split; [constructor | split; reflexivity].
  - apply Forall_app in Hall as [Hl Hh]. apply Forall_cons in Hh as [Hh _].
    specialize (IH Hl). cbv zeta in IH.
    subst s. rewrite scan_phdr_app.
    set (s := fold_left _ l _) in *.
    assert (Hm : modulus = 2 ^ 64) by reflexivity.
    assert (Hp : 0 < 2 ^ k) by (apply Z.pow_pos_nonneg; lia).
    unfold scan_phdr.
    destruct (Z.eqb_spec (p_type h) PT_LOAD) as [Hload | Hother].
    + right. cbn [lowest highest].
      destruct (Hh Hload) as (Hv & Hsz & Hend).
      rewrite page_start_rounds_down by lia.
      replace (gsize_of (p_vaddr h + p_memsz h)) with (p_vaddr h + p_memsz h)
        by (unfold gsize_of; rewrite Z.mod_small; lia).
      assert (Hal : (2 ^ k | p_vaddr h - p_vaddr h mod 2 ^ k)).
      { exists (p_vaddr h / 2 ^ k). pose proof (Z.div_mod (p_vaddr h) (2 ^ k)). lia. }
      assert (Hstart : 0 <= p_vaddr h - p_vaddr h mod 2 ^ k <= p_vaddr h).
      { pose proof (Z.mod_pos_bound (p_vaddr h) (2 ^ k) Hp).
        pose proof (Z.mod_le (p_vaddr h) (2 ^ k) Hv Hp). lia. }
      assert (Hself : h ∈ l ++ [h]) by (apply elem_of_app; right; constructor).
      rewrite MIN_min, MAX_max.
      set (start := p_vaddr h - p_vaddr h mod 2 ^ k) in *.
      destruct IH as [(Hnone & Hlo & Hhi) | (Hal' & Hlo & Hhi & Hcover & Hmin & Hmax)].
      * rewrite Hlo, Hhi. rewrite Z.min_l, Z.max_l by lia.
        split; [exact Hal |]. split; [lia |]. split; [lia |].
        split.
        { intros h' Hin Hl'. apply elem_of_app in Hin as [Hin | Hin].
          - rewrite Forall_forall in Hnone. destruct (Hnone h' Hin Hl').
          - apply list_elem_of_singleton in Hin. subst h'. lia. }
        split; exists h; auto.
      * destruct Hmin as (hmin & Hinmin & Hlmin & Hmin).
        destruct Hmax as (hmax & Hinmax & Hlmax & Hmax).
        assert (Hold : forall x, x ∈ l -> x ∈ l ++ [h])
          by (intros x Hx; apply elem_of_app; left; exact Hx).
        split.
        { destruct (Z.min_spec start (lowest s)) as [[_ ->] | [_ ->]]; assumption. }
        split; [lia |]. split; [lia |].
        split.
        { intros h' Hin Hl'. apply elem_of_app in Hin as [Hin | Hin].
          - specialize (Hcover h' Hin Hl'). lia.
          - apply list_elem_of_singleton in Hin. subst h'. lia. }
        split.
        -- destruct (Z.min_spec start (lowest s)) as [[_ ->] | [_ ->]];
             [exists h | exists hmin]; auto.
        -- destruct (Z.max_spec (p_vaddr h + p_memsz h) (highest s))
             as [[_ ->] | [_ ->]]; [exists hmax | exists h]; auto.
    + cbn [lowest highest].
      destruct IH as [(Hnone & Hlo & Hhi) | (Hal' & Hlo & Hhi & Hcover & Hmin & Hmax)].
      * left. split; [| split; assumption].
        apply Forall_app. split; [exact Hnone |]. constructor; [exact Hother | constructor].
      * right. split; [assumption |]. split; [lia |]. split; [lia |].
        split.
        { intros h' Hin Hl'. apply elem_of_app in Hin as [Hin | Hin].
          - apply Hcover; assumption.
          - apply list_elem_of_singleton in Hin. subst h'. contradiction. }
        destruct Hmin as (hmin & Hinmin & Hlmin & Hmin).
        destruct Hmax as (hmax & Hinmax & Hlmax & Hmax).
        split; [exists hmin | exists hmax]; repeat split; auto;
          apply elem_of_app; left; assumption.
Qed.

(** X19. With a page size that is a power of two and loadable segments that
    do not wrap around, the size computed from a list with a PT_LOAD header
    spans from the page start of the lowest segment to the end of the highest
    one: every loadable segment lies in that span, and the span is as small
    as that allows. *)
Theorem elf_range_spans_the_loadable_segments phdrs headers k base :
  0 <= k < word_bits ->
  Forall segment_in_memory headers ->
  Exists loadable headers ->
  let range := gum_compute_elf_range_from_phdrs phdrs headers (2 ^ k) base in
  exists start,
    start mod 2 ^ k = 0
    /\ (forall h, h ∈ headers -> loadable h ->
          start <= p_vaddr h /\ p_vaddr h + p_memsz h <= start + range_size range)
    /\ (exists h, h ∈ headers /\ loadable h /\ start = p_vaddr h - p_vaddr h mod 2 ^ k)
    /\ (exists h, h ∈ headers /\ loadable h
          /\ start + range_size range = p_vaddr h + p_memsz h).
Proof.
  intros Hk Hall Hex range.
  destruct (scan_bounds phdrs k headers Hk Hall)
    as [(Hnone & _) | (Hal & Hlo & Hhi & Hcover & Hmin & Hmax)].
  - exfalso. apply Exists_exists in Hex as (h & Hin & Hl).
    rewrite Forall_forall in Hnone. exact (Hnone h Hin Hl).
  - subst range. unfold gum_compute_elf_range_from_phdrs. cbn [range_size].
    set (s := fold_left _ headers _) in *.
    exists (lowest s).
    assert (Hle : lowest s <= highest s).
    { destruct Hmin as (h & Hin & Hl & _). specialize (Hcover h Hin Hl).
      rewrite Forall_forall in Hall. specialize (Hall h Hin Hl). lia. }
    replace (gsize_of (highest s - lowest s)) with (highest s - lowest s)
      by (unfold gsize_of; rewrite Z.mod_small; lia).
    split; [apply Z.mod_divide; [apply Z.pow_nonzero; lia | exact Hal] |]. split.
    + intros h Hin Hl. specialize (Hcover h Hin Hl). lia.
    + split; [exact Hmin |].
      destruct Hmax as (h & Hin & Hl & Hmax). exists h. repeat split; auto. lia.
Qed.

(** X20. From a list of headers without a PT_LOAD header, the empty list
    among them, the size computed is 1: [lowest] is still [~0] and [highest]
    still 0 when they are subtracted. *)
Theorem elf_range_without_loadable_segment_has_size_one phdrs headers page_size base :
  Forall (fun h => ~ loadable h) headers ->
  range_size (gum_compute_elf_range_from_phdrs phdrs headers page_size base) = 1.
Proof.
  intros Hnone. unfold gum_compute_elf_range_from_phdrs. cbn [range_size].
  assert (Hs : forall s,
    lowest (fold_left (scan_phdr phdrs page_size) headers s) = lowest s
    /\ highest (fold_left (scan_phdr phdrs page_size) headers s) = highest s).
  { induction Hnone as [| h l Hh Hl IH]; intros s; [split; reflexivity |].
    cbn [fold_left]. destruct (IH (scan_phdr phdrs page_size s h)) as [-> ->].
    unfold scan_phdr. unfold loadable in Hh.
    destruct (Z.eqb_spec (p_type h) PT_LOAD); [contradiction |]. split; reflexivity. }
  destruct (Hs {| scan_base_address := 0; lowest := gsize_of (-1); highest := 0 |})
    as [-> ->].
  reflexivity.
Qed.

Lemma scan_base_without_phdr phdrs page_size l s :
  Forall (fun h => p_type h <> PT_PHDR) l ->
  scan_base_address s <> 0 ->
  scan_base_address (fold_left (scan_phdr phdrs page_size) l s) = scan_base_address s.
Proof.
  intros Hall. revert s. induction Hall as [| h l Hh Hl IH]; intros s Hnz;
    [reflexivity |].
  cbn [fold_left].
  assert (Hstep : scan_base_address (scan_phdr phdrs page_size s h)
                  = scan_base_address s).
  { unfold scan_phdr. destruct (Z.eqb_spec (p_type h) PT_PHDR); [contradiction |].
    destruct (p_type h =? PT_LOAD); cbn.
    - destruct (p_offset h =? 0); cbn; [| reflexivity].
      destruct (Z.eqb_spec (scan_base_address s) 0); [contradiction | reflexivity].
    - reflexivity. }
  rewrite IH by (rewrite Hstep; exact Hnz). exact Hstep.
Qed.

(** X21. The base address comes from the last PT_PHDR header: when the
    address of the headers minus its [p_offset] is not zero, that difference
    is the base, whatever PT_LOAD headers come before or after it and
    whatever base address the caller passed. *)
Theorem elf_base_is_taken_from_the_phdr_header phdrs before h after page_size base :
  p_type h = PT_PHDR ->
  Forall (fun h' => p_type h' <> PT_PHDR) after ->
  gsize_of (phdrs - p_offset h) <> 0 ->
  base_address
    (gum_compute_elf_range_from_phdrs phdrs (before ++ h :: after) page_size base)
  = gsize_of (phdrs - p_offset h).
Proof.
  intros Hty Hafter Hnz. unfold gum_compute_elf_range_from_phdrs. cbn [base_address].
  rewrite fold_left_app. cbn [fold_left].
  set (s := fold_left _ before _).
  assert (Hstep : scan_base_address (scan_phdr phdrs page_size s h)
                  = gsize_of (phdrs - p_offset h)).
  { unfold scan_phdr. rewrite Hty. cbn. reflexivity. }
  rewrite scan_base_without_phdr by (try rewrite Hstep; assumption).
  rewrite Hstep. destruct (Z.eqb_spec (gsize_of (phdrs - p_offset h)) 0);
    [contradiction | reflexivity].
Qed.

(** X22. For a header that is not NULL the base reported is never 0, and
    without a PT_PHDR header and without a PT_LOAD header at file offset 0
    it is the address of the header itself. *)
Theorem elf_range_of_a_header_has_a_base e page_size :
  ehdr_address e <> 0 ->
  let range := gum_compute_elf_range_from_ehdr (Ptr e) page_size in
  (Forall (fun h => p_type h <> PT_PHDR
                    /\ ~ (p_type h = PT_LOAD /\ p_offset h = 0)) (program_headers e) ->
   base_address range = ehdr_address e)
  /\ base_address range <> 0.
Proof.
  intros Hnz range. subst range. unfold gum_compute_elf_range_from_ehdr,
    gum_compute_elf_range_from_phdrs. cbn [base_address].
  set (s := fold_left _ _ _).
  split.
  - intros Hall.
    assert (Hs : forall s0, scan_base_address s0 = 0 ->
      scan_base_address (fold_left
        (scan_phdr (gsize_of (ehdr_address e + e_phoff e)) page_size)
        (program_headers e) s0) = 0).
    { induction Hall as [| h l [Hh1 Hh2] Hl IH]; intros s0 Hs0; [exact Hs0 |].
      cbn [fold_left]. apply IH. unfold scan_phdr.
      destruct (Z.eqb_spec (p_type h) PT_PHDR); [contradiction |].
      destruct (Z.eqb_spec (p_type h) PT_LOAD) as [Hl' |]; cbn.
      - destruct (Z.eqb_spec (p_offset h) 0) as [Ho |]; cbn; [| exact Hs0].
        destruct Hh2. split; assumption.
      - exact Hs0. }
    subst s. rewrite Hs by reflexivity. cbn.
    destruct (Z.eqb_spec (ehdr_address e) 0); [contradiction | reflexivity].
  - destruct (Z.eqb_spec (scan_base_address s) 0) as [Hz | Hs]; [| exact Hs].
    destruct (Z.eqb_spec (ehdr_address e) 0); [contradiction |]. cbn. assumption.
Qed.

(** ** The saved context of the x86-64 build *)

Lemma guint64_of_greg z : X64.is_guint64 z -> gsize_of (gssize_of z) = z.
Proof.
  unfold X64.is_guint64, gsize_of, gssize_of.
  change modulus with 18446744073709551616.
  change half_modulus with 9223372036854775808.
  intros Hz. Z.div_mod_to_equations. lia.
Qed.

Lemma greg_of_guint64 z : X64.is_greg z -> gssize_of (gsize_of z) = z.
Proof.
  unfold X64.is_greg, gsize_of, gssize_of.
  change modulus with 18446744073709551616.
  change half_modulus with 9223372036854775808.
  intros Hz. Z.div_mod_to_equations. lia.
Qed.

(** X23. On x86-64 the saved context and the portable context convert back
    and forth without loss: writing a context of 64-bit values into the
    register array and reading it back gives that context, writing back what
    was read leaves the array as it was, and the entries after REG_RIP (the
    flags, segment and fault words) are never written. *)
Theorem saved_context_round_trip (ctx : X64.GumCpuContext) (gr : list Z) :
  length gr = X64.NGREG ->
  (Forall X64.is_guint64 (X64.context_fields ctx) ->
   X64.gum_linux_parse_ucontext (X64.gum_linux_unparse_ucontext ctx gr) = ctx)
  /\ (Forall X64.is_greg gr ->
      X64.gum_linux_unparse_ucontext (X64.gum_linux_parse_ucontext gr) gr = gr)
  /\ length (X64.gum_linux_unparse_ucontext ctx gr) = X64.NGREG
  /\ drop 17 (X64.gum_linux_unparse_ucontext ctx gr) = drop 17 gr.
Proof.
  intros Hlen. unfold X64.NGREG in Hlen.
  do 23 (destruct gr as [| ? gr]; [discriminate Hlen |]).
  destruct gr; [| discriminate Hlen]. clear Hlen.
  split; [| split; [| split; reflexivity]].
  - intros Hctx. destruct ctx. unfold X64.context_fields in Hctx. cbn in Hctx.
    repeat match goal with
    | Hf : Forall _ (_ :: _) |- _ => apply Forall_cons in Hf as [? Hf]
    end.
    unfold X64.gum_linux_parse_ucontext. cbn.
    f_equal; apply guint64_of_greg; assumption.
  - intros Hgr.
    repeat match goal with
    | Hf : Forall _ (_ :: _) |- _ => apply Forall_cons in Hf as [? Hf]
    end.
    unfold X64.gum_linux_parse_ucontext, X64.gum_linux_unparse_ucontext. cbn.
    rewrite !greg_of_guint64 by assumption. reflexivity.
Qed.

(** ** Runs of the theorems on the examples *)

Lemma after_second_alloc_run :
  @gum_code_allocator_try_alloc_slice_near Z rwx_memory NULL 0 after_alloc_slice
  = Returns (Ptr second_slice,
             state_after (@gum_code_allocator_alloc_slice Z rwx_memory) after_alloc_slice).
Proof. vm_compute. reflexivity. Qed.

(** A run of X1: the second allocation returns the second slice of the
    page, not the first, which is handed out. *)
Lemma allocation_never_returns_a_live_slice_witness :
  (second_slice ∉ [first_slice])
  /\ (second_slice ∉ free_slices (allocator
        (state_after (@gum_code_allocator_alloc_slice Z rwx_memory) after_alloc_slice)))
  /\ NoDup [second_slice; first_slice].
Proof.
  exact (@allocation_never_returns_a_live_slice Z rwx_memory after_alloc_slice
           [first_slice] NULL 0 second_slice _
           after_alloc_slice_reachable after_second_alloc_run).
Defined.

(** A run of X2: the slice handed out and the first free slice of the
    page at 0x100000. *)
Lemma slices_lie_in_their_page_and_apart_witness :
  exists pages s1 s2,
    pages_heap after_alloc_slice !! 1%positive = Some pages
    /\ load_slice first_slice after_alloc_slice = Returns (s1, after_alloc_slice)
    /\ load_slice second_slice after_alloc_slice = Returns (s2, after_alloc_slice)
    /\ slice_inside pages s1
    /\ slice_inside pages s2
    /\ (first_slice <> second_slice -> slices_apart s1 s2).
Proof.
  apply (@slices_lie_in_their_page_and_apart Z rwx_memory after_alloc_slice
           [first_slice] first_slice second_slice after_alloc_slice_reachable).
  - vm_compute. reflexivity.
  - vm_compute. split; [discriminate | reflexivity].
  - apply list_elem_of_here.
  - apply list_elem_of_further, list_elem_of_here.
  - reflexivity.
Defined.

(** A run of X3: the first slice, freed, is the next one handed out. *)
Lemma freed_slice_is_reused_first_witness :
  exists st2,
    @gum_code_allocator_alloc_slice Z rwx_memory after_free = Returns (Ptr first_slice, st2)
    /\ free_slices (allocator st2) = free_slices (allocator after_alloc_slice)
    /\ pages_heap st2 = pages_heap after_alloc_slice
    /\ backend st2 = backend after_alloc_slice
    /\ trace st2 = trace after_alloc_slice
    /\ dirty_pages (allocator st2)
       = {[ element_pages first_slice ]} ∪ dirty_pages (allocator after_alloc_slice).
Proof.
  apply (@freed_slice_is_reused_first Z rwx_memory after_alloc_slice first_slice after_free).
  - reflexivity.
  - vm_compute. reflexivity.
Defined.

Lemma rw_initialised_reachable : @reachable Z rw_memory rw_initialised [].
Proof.
  apply (@reach_init Z rw_memory boot 1024 rw_initialised); [reflexivity |].
  vm_compute. reflexivity.
Qed.

Lemma rw_after_alloc_reachable : @reachable Z rw_memory rw_after_alloc [first_slice].
Proof.
  apply (@reach_alloc Z rw_memory rw_initialised [] NULL 0 first_slice rw_after_alloc).
  - exact rw_initialised_reachable.
  - vm_compute. reflexivity.
Qed.

(** A run of X4: after the allocation the batch counts four, after the
    commit it counts one. *)
Lemma commit_leaves_count_of_live_slices_witness :
  free_slices (allocator rw_after_commit) = []
  /\ forall p,
       match pages_heap rw_after_commit !! p with
       | Some pages => ref_count pages = slices_of p [first_slice]
       | None => slices_of p [first_slice] = 0
       end.
Proof.
  apply (@commit_leaves_count_of_live_slices Z rw_memory rw_after_alloc [first_slice]
           rw_after_commit).
  - reflexivity.
  - exact rw_after_alloc_reachable.
  - vm_compute. reflexivity.
Defined.

(** A run of X5: with one slice of the page handed out the batch stays. *)
Lemma allocator_free_releases_unused_batches_witness :
  exists st',
    @gum_code_allocator_free_upto Z rwx_memory 0 after_alloc_slice = Returns (tt, st')
    /\ free_slices (allocator st') = []
    /\ uncommitted_pages (allocator st') = []
    /\ dirty_pages (allocator st') = ∅
    /\ dispatchers (allocator st') = []
    /\ forall p,
         match pages_heap st' !! p with
         | Some pages => ref_count pages = slices_of p [first_slice]
                         /\ 1 <= slices_of p [first_slice]
         | None => slices_of p [first_slice] = 0
         end.
Proof.
  apply (@allocator_free_releases_unused_batches Z rwx_memory after_alloc_slice
           [first_slice] 0%nat after_alloc_slice_reachable).
  - reflexivity.
  - vm_compute. discriminate.
Defined.

Lemma one_dispatcher_run :
  @gum_code_allocator_alloc_deflector Z rwx_memory near_first_image 0xa0 0xa1 initialised
  = Returns (Ptr 1%positive, one_dispatcher).
Proof. vm_compute. reflexivity. Qed.

(** A run of X7: the first registration near the first image. *)
Lemma new_registration_is_routable_and_in_reach_witness :
  exists d D impl,
    d ∈ dispatchers (allocator one_dispatcher)
    /\ dispatcher_heap one_dispatcher !! d = Some D
    /\ (exists older, callers D = 1%positive :: older)
    /\ in_range_of near_first_image D = true
    /\ deflector_heap initialised !! 1%positive = None
    /\ deflector_heap one_dispatcher !! 1%positive = Some impl
    /\ return_address (parent impl) = 0xa0
    /\ target (parent impl) = 0xa1
    /\ trampoline (parent impl) = dispatcher_trampoline D
    /\ @gum_code_deflector_dispatcher_lookup Z d 0xa0 one_dispatcher
       = Returns (0xa1, one_dispatcher).
Proof.
  exact (@new_registration_is_routable_and_in_reach Z rwx_memory near_first_image
           0xa0 0xa1 1%positive initialised one_dispatcher one_dispatcher_run).
Defined.

(** A run of X8: the registration near the first image, freed again. *)
Lemma install_then_free_restores_the_image_witness :
  exists st2,
    @gum_code_deflector_free_upto Z rwx_memory 0 (Ptr 1%positive) one_dispatcher
    = Returns (tt, st2)
    /\ (forall a, read_byte (memory st2) a = read_byte (memory initialised) a)
    /\ dispatchers (allocator st2) = dispatchers (allocator initialised)
    /\ dispatcher_heap st2 = dispatcher_heap initialised
    /\ deflector_heap st2 = deflector_heap initialised.
Proof.
  apply (@install_then_free_restores_the_image Z rwx_memory near_first_image
           0xa0 0xa1 1%positive 0%nat initialised one_dispatcher).
  - constructor.
  - exact one_dispatcher_run.
Defined.

(** A run of X9: the allocator of [one_dispatcher] is freed with its
    registration still in place. *)
Lemma allocator_free_with_a_live_deflector_witness :
  @gum_code_allocator_free_upto Z rwx_memory 0 one_dispatcher = Faults.
Proof.
  apply (@allocator_free_with_a_live_deflector_reads_freed_memory Z rwx_memory
           one_dispatcher 1%positive (first_image_dispatcher [1%positive]) 1%positive
           first_registration [] 0%nat).
  - vm_compute. reflexivity.
  - vm_compute. reflexivity.
  - reflexivity.
  - vm_compute. reflexivity.
Defined.

(** A run of X10: the commit after the first allocation flushes the page of
    the one dirty batch. *)
Lemma commit_flushes_each_dirty_batch_once_witness :
  cache_flushes (trace after_commit)
  = (cache_flushes (trace after_alloc_slice)
     + size (dirty_pages (allocator after_alloc_slice)))%nat
  /\ forall p, p ∈ dirty_pages (allocator after_alloc_slice) ->
       exists pages,
         pages_heap after_alloc_slice !! p = Some pages
         /\ EvClearCache (pages_data pages) (pages_size pages) ∈ trace after_commit.
Proof.
  apply (@commit_flushes_each_dirty_batch_once Z rwx_memory after_alloc_slice after_commit).
  vm_compute. reflexivity.
Defined.

(** A run of X11: a slice of a whole page, freed before the commit. *)
Lemma free_before_commit_witness :
  exists e st1 st2,
    @gum_code_allocator_alloc_slice Z rw_memory rw_whole_page = Returns (Ptr e, st1)
    /\ @gum_code_slice_free Z rw_memory (Ptr e) st1 = Returns (tt, st2)
    /\ pages_heap st2 !! element_pages e = None
    /\ uncommitted_pages (allocator st2)
       = element_pages e :: uncommitted_pages (allocator rw_whole_page)
    /\ element_pages e ∈ dirty_pages (allocator st2)
    /\ @gum_code_allocator_commit Z rw_memory st2 = Faults.
Proof.
  apply (@free_before_commit_leaves_a_released_batch_listed Z rw_memory rw_whole_page
           {| segment_address := 0x100000; segment_virtual_size := 4096 |} 0x101000).
  - reflexivity.
  - vm_compute. reflexivity.
  - vm_compute. reflexivity.
  - vm_compute. reflexivity.
Defined.

(** A run of X13: [libc.so] in [/usr/lib]. *)
Lemma module_name_witness :
  let base := libc_so in
  let path := usr_lib ++ slash :: base in
  (head base = Some slash ->
   gum_linux_module_path_matches path base = bool_decide (base = path))
  /\ (head base <> Some slash ->
      gum_linux_module_path_matches path base = bool_decide (base = base)
      /\ (slash ∈ base -> gum_linux_module_path_matches path base = false))
  /\ (head base <> Some slash ->
      gum_linux_module_path_matches base base = bool_decide (base = base)).
Proof.
  cbv zeta.
  apply (module_name_is_matched_against_the_base_name usr_lib libc_so libc_so).
  vm_compute. intros Hin.
  repeat (apply elem_of_cons in Hin as [Hin | Hin]; [discriminate Hin |]).
  inversion Hin.
Defined.

Lemma amd64_header_bytes : Forall (fun b => 0 <= b < 256) amd64_header.
Proof. unfold amd64_header. repeat (constructor; [lia |]). constructor. Qed.

(** A run of X15: the header of an x86-64 executable. *)
Lemma cpu_type_of_a_file_witness :
  gum_linux_cpu_type_from_file true (inr amd64_header) = inr GUM_CPU_AMD64
  /\ gum_linux_cpu_type_from_file false (inr amd64_header) = inr GUM_CPU_AMD64.
Proof.
  destruct (cpu_type_of_a_file_depends_on_three_bytes amd64_header amd64_header_bytes)
    as [_ Hlong].
  destruct Hlong as (Hhost & _); [vm_compute; lia |].
  split; [vm_compute; reflexivity |].
  rewrite <- Hhost. vm_compute. reflexivity.
Defined.

(** A run of X16: three lines in two reads. *)
Lemma every_line_is_returned_witness :
  lines_until_false 4 (gum_proc_maps_iter_init_for_path (repeat 0 16) 3) maps_answers
  = Returns [[97; 98]; [99]; [100; 101; 102]].
Proof.
  apply (every_line_is_returned_once_in_order (repeat 0 16) 3 maps_chunks maps_answers 4).
  - discriminate.
  - vm_compute. reflexivity.
  - unfold maps_chunks.
    repeat (constructor;
            [split; [discriminate |];
             split; [| vm_compute; lia];
             repeat (constructor;
                     [split; intros Hin;
                      repeat (apply elem_of_cons in Hin as [Hin | Hin];
                              [discriminate Hin |]);
                      inversion Hin |]);
             constructor |]).
    constructor.
  - vm_compute. reflexivity.
  - vm_compute. lia.
Defined.

(** A run of X18: a session in which every request succeeds. *)
Lemma modify_thread_balances_witness :
  exists w',
    outcome_of (@gum_process_modify_thread pc_only_arch scripted_kernel
                  1 77 (fun _ pc => pc + 1) 0 (fresh_world accepting_script))
    = Returned true w'
    /\ gum_dumpable_refcount w' = 0.
Proof.
  eexists. split; [vm_compute; reflexivity |].
  apply (@modify_thread_balances_the_dumpable_count pc_only_arch scripted_kernel
           77 (fun _ pc => pc + 1) 0 1%nat (fresh_world accepting_script) true).
  vm_compute. reflexivity.
Defined.

Lemma small_executable_in_memory : Forall segment_in_memory small_executable.
Proof.
  unfold small_executable.
  repeat (constructor; [intros _; vm_compute; repeat split; discriminate |]).
  constructor.
Qed.

(** A run of X19: segments at 0x400000 and 0x403e10 with pages of 4096
    bytes give a span of 0x4058 bytes from 0x400000. *)
Lemma elf_range_spans_witness :
  range_size (gum_compute_elf_range_from_phdrs 0x400040 small_executable (2 ^ 12) 0)
  = 0x4058
  /\ exists start,
       start mod 2 ^ 12 = 0
       /\ (forall h, h ∈ small_executable -> loadable h ->
             start <= p_vaddr h
             /\ p_vaddr h + p_memsz h
                <= start + range_size (gum_compute_elf_range_from_phdrs 0x400040
                                         small_executable (2 ^ 12) 0)).
Proof.
  split; [vm_compute; reflexivity |].
  destruct (elf_range_spans_the_loadable_segments 0x400040 small_executable 12 0)
    as (start & Hal & Hcover & _).
  - vm_compute. split; [discriminate | reflexivity].
  - exact small_executable_in_memory.
  - apply Exists_cons_tl, Exists_cons_hd. reflexivity.
  - exists start. split; assumption.
Defined.

(** A run of X20: the empty list of headers. *)
Lemma elf_range_without_loadable_segment_witness :
  range_size (gum_compute_elf_range_from_phdrs 0x400040 [] 4096 0x400000) = 1.
Proof.
  apply (elf_range_without_loadable_segment_has_size_one 0x400040 [] 4096 0x400000).
  constructor.
Defined.

(** A run of X21: the PT_PHDR header of the small executable. *)
Lemma elf_base_witness :
  base_address (gum_compute_elf_range_from_phdrs 0x400040 small_executable 4096 0x12345)
  = 0x400000.
Proof.
  apply (elf_base_is_taken_from_the_phdr_header 0x400040 []
           {| p_type := PT_PHDR; p_offset := 0x40; p_vaddr := 0x400040; p_memsz := 0x2d8 |}
           [{| p_type := PT_LOAD; p_offset := 0; p_vaddr := 0x400000; p_memsz := 0x1000 |};
            {| p_type := PT_LOAD; p_offset := 0x2e10; p_vaddr := 0x403e10;
               p_memsz := 0x248 |}]
           4096 0x12345).
  - reflexivity.
  - repeat (constructor; [discriminate |]). constructor.
  - vm_compute. discriminate.
Defined.

(** A run of X22: a header without program headers. *)
Lemma elf_range_of_a_header_witness :
  base_address (gum_compute_elf_range_from_ehdr (Ptr bare_header) 4096) = 0x7f0000
  /\ base_address (gum_compute_elf_range_from_ehdr (Ptr bare_header) 4096) <> 0.
Proof.
  destruct (elf_range_of_a_header_has_a_base bare_header 4096) as [Hbase Hnz].
  - vm_compute. discriminate.
  - split; [apply Hbase; constructor | exact Hnz].
Defined.

Lemma counting_context_fields : Forall X64.is_guint64 (X64.context_fields counting_context).
Proof.
  unfold X64.context_fields, counting_context. cbn.
  repeat (constructor; [vm_compute; split; [discriminate | reflexivity] |]).
  constructor.
Qed.

(** A run of X23: a context whose [rax] is 2^64 - 1, stored as -1. *)
Lemma saved_context_round_trip_witness :
  X64.gum_linux_parse_ucontext (X64.gum_linux_unparse_ucontext counting_context zeroed_gregs)
  = counting_context
  /\ nth X64.REG_RAX (X64.gum_linux_unparse_ucontext counting_context zeroed_gregs) 0 = -1.
Proof.
  destruct (saved_context_round_trip counting_context zeroed_gregs) as [Hback _].
  - reflexivity.
  - split; [exact (Hback counting_context_fields) | vm_compute; reflexivity].
Defined.

(** A run of X6: the cave of the first image, at 0x10008. *)
Lemma dispatcher_is_installed_witness :
  exists D before details after,
    two_images = before ++ details :: after
    /\ Forall (fun r => gum_probe_range_for_code_cave (memory initialised)
                          near_first_image r = None) before
    /\ dispatcher_heap after_dispatcher_new !! 1%positive = Some D
    /\ dispatcher_heap initialised !! 1%positive = None
    /\ address D = gsize_of (base_address details + 8)
    /\ read_bytes (memory initialised) (base_address details) SELFMAG = ELFMAG
    /\ read_bytes (memory initialised) (address D) 8 = [0; 0; 0; 0; 0; 0; 0; 0]
    /\ original_data D = [0; 0; 0; 0; 0; 0; 0; 0]
    /\ in_range_of near_first_image D = true.
Proof.
  destruct (@dispatcher_is_installed_in_an_empty_elf_cave Z rwx_memory near_first_image
              initialised) as [Hnew _].
  apply (Hnew 1%positive after_dispatcher_new).
  vm_compute. reflexivity.
Defined.

(** A run of X12: the flag reads 0, is set to 1 and set back to 0. *)
Lemma dumpable_flag_witness :
  let w := fresh_world not_dumpable_script in
  let inner := snd (gum_release_dumpability (snd (gum_acquire_dumpability w))) in
  gum_dumpable_refcount inner = 0
  /\ map fst (syscalls inner)
     = [@SysPrctl pc_only_arch PR_SET_DUMPABLE 0; @SysPrctl pc_only_arch PR_SET_DUMPABLE 1;
        @SysPrctl pc_only_arch PR_GET_DUMPABLE 0].
Proof.
  cbv zeta.
  destruct (@dumpable_flag_is_restored_by_the_last_release pc_only_arch scripted_kernel
              (fresh_world not_dumpable_script)) as [Hfirst _].
  exact (Hfirst eq_refl).
Defined.

(** A run of X14: the same two entries in the layout of a 64-bit and of a
    32-bit process. *)
Lemma auxv_width_witness :
  gum_linux_cpu_type_from_auxv GUM_CPU_IA32 GUM_CPU_AMD64 (Elf64_auxv short_auxv)
  = GUM_CPU_AMD64
  /\ gum_linux_cpu_type_from_auxv GUM_CPU_IA32 GUM_CPU_AMD64 (Elf32_auxv short_auxv)
     = GUM_CPU_IA32.
Proof.
  destruct (auxv_width_is_read_off_the_even_entries GUM_CPU_IA32 GUM_CPU_AMD64)
    as [H64 H32].
  split.
  - apply H64; [discriminate |].
    unfold short_auxv. repeat (constructor; [cbn; lia |]). constructor.
  - rewrite H32; [reflexivity |].
    unfold short_auxv. repeat (constructor; [cbn; lia |]). constructor.
Defined.

(** A run of X17 on an iterator with the start of a line pending: at the
    end of the file and on a failing read the answer is FALSE and [ab] is
    still pending, moved to the start of the buffer; a read that brings
    [cd] and no newline ends in the write through the null pointer. *)
Lemma maps_iter_pending_line_witness :
  (exists it1,
     gum_proc_maps_iter_next pending_iter [] = Returns (None, it1, [])
     /\ read_cursor it1 = 0%nat
     /\ take (write_cursor it1 - read_cursor it1) (drop (read_cursor it1) (buffer it1))
        = [97; 98])
  /\ (exists it1,
        gum_proc_maps_iter_next pending_iter [ReadError 4; ReadError 5; ReadBytes [99; 10]]
        = Returns (None, it1, [ReadBytes [99; 10]])
        /\ take (write_cursor it1 - read_cursor it1) (drop (read_cursor it1) (buffer it1))
           = [97; 98])
  /\ gum_proc_maps_iter_next pending_iter [ReadBytes [99; 100]] = Faults.
Proof.
  assert (Hpending : newline ∉ [97; 98]).
  { intros Hin. repeat (apply elem_of_cons in Hin as [Hin | Hin]; [discriminate Hin |]).
    inversion Hin. }
  assert (Hsize : Z.of_nat (length (buffer pending_iter)) < 4294967296)
    by (vm_compute; reflexivity).
  split; [| split].
  - destruct (maps_iter_without_a_newline_in_reach pending_iter [120; 0] [97; 98]
                (repeat 0 11) []) as [_ Hopen].
    destruct (Hopen ltac:(discriminate) eq_refl eq_refl eq_refl Hsize Hpending)
      as (it1 & Hnext & Hkept).
    exists it1. split; [exact Hnext |]. split; [| exact Hkept].
    vm_compute in Hnext. injection Hnext as <-. reflexivity.
  - destruct (maps_iter_without_a_newline_in_reach pending_iter [120; 0] [97; 98]
                (repeat 0 11) [ReadError 4; ReadError 5; ReadBytes [99; 10]])
      as [_ Hopen].
    exact (Hopen ltac:(discriminate) eq_refl eq_refl eq_refl Hsize Hpending).
  - destruct (maps_iter_without_a_newline_in_reach pending_iter [120; 0] [97; 98]
                (repeat 0 11) [ReadBytes [99; 100]]) as [_ Hopen].
    apply (Hopen ltac:(discriminate) eq_refl eq_refl eq_refl Hsize Hpending).
    + vm_compute. lia.
    + intros Hin.
      repeat (apply elem_of_cons in Hin as [Hin | Hin]; [discriminate Hin |]).
      inversion Hin.
Defined.
